(** * MedConnect: vitals intelligence engine and emergency orchestration

    A shallow embedding of [backend/vitals_engine.py] and
    [backend/emergency_engine.py], of the routes of [backend/app.py] that
    call them (vitals ingestion, history and analytics, emergency
    override) and of the permission table of [backend/rbac.py], and the
    properties of the engines and of the routes.

    Modelling conventions.
    - A Python float is an IEEE 754 binary64 number ([Float.float], the
      [spec_float] of the standard library at precision 53): [+], [-],
      [*], [/], [math.sqrt], [abs] and the comparisons are the
      operations of the standard, rounding to nearest, ties to even;
      [sum] adds from the left (CPython before 3.12); [round(x, n)]
      rounds the exact value of [x] to [n] decimals, ties to even, and
      gives the double nearest to that decimal; [x ** 2] is [pow] of the
      C library, which the engine is a function of.  An exception of the
      arithmetic is a value: a function that may raise returns a
      [Float.Result].
    - A reading is a double that is neither infinite nor NaN.  Where it
      is only stored and compared (the thresholds, the stored history,
      minimum and maximum) it is kept as the rational it is exactly ([Q],
      on which the comparisons of the engine are the exact ones);
      [Float.of_Q] gives it as a double to the functions that compute
      with it.  Integer literals and the integer arithmetic on reading
      indices are [Z].
    - A dict with string keys is a [gmap string _]; a list is a [list].
    - The text of the f-string messages is not rendered: a message is kept
      as its template together with the values substituted in it.
    - The two JSON files of the emergency engine are the two fields of the
      store; reads and writes of the files succeed, and calls run one
      after the other.
    - The clock, the UUID generator and Twilio are an environment the
      engine is a function of: the n-th reading of the clock, the n-th
      identifier, the answer of the gateway to a number.
    - A route is a function of what it reads of the request (the role
      and the id of the caller, the fields of the body) and of the
      files; its value is the answer and the files after it.  The vitals
      of a body are numbers. *)

From Stdlib Require Import QArith Qround Qabs ZArith Lia Lqa String Ascii.
From Stdlib Require Import SpecFloat.
From stdpp Require Import base option list gmap strings fin_maps pretty.

Local Open Scope Z_scope.
Local Open Scope Q_scope.
Local Open Scope string_scope.
Local Open Scope list_scope.

(** ** Numbers *)

Module Num.

(** [a <= b] on readings. *)
Definition leb (a b : Q) : bool := Qle_bool a b.
(** [a < b] on readings. *)
Definition ltb (a b : Q) : bool := negb (Qle_bool b a).
(** [a == b] on readings. *)
Definition eqb (a b : Q) : bool := Qeq_bool a b.

(** The sum of rationals, from the left, starting at 0. *)
Definition sum (values : list Q) : Q := fold_left Qplus values 0.

(** The integer nearest to [x], ties to the even neighbour. *)
Definition round_half_even (x : Q) : Z :=
  let f := Qfloor x in
  match Qcompare (x - inject_Z f)%Q (1 # 2)%Q with
  | Lt => f
  | Gt => (f + 1)%Z
  | Eq => if Z.even f then f else (f + 1)%Z
  end.

End Num.

(** ** Python floats *)

Module Float.

(** binary64. *)
Definition prec : Z := 53.
Definition emax : Z := 1024.

Definition float : Type := spec_float.

Definition add : float -> float -> float := SFadd prec emax.
Definition sub : float -> float -> float := SFsub prec emax.
Definition mul : float -> float -> float := SFmul prec emax.
(** [x / y] of the standard: it does not raise. *)
Definition quotient : float -> float -> float := SFdiv prec emax.
Definition sqrt : float -> float := SFsqrt prec emax.
Definition abs : float -> float := SFabs.
Definition eqb : float -> float -> bool := SFeqb.
Definition ltb : float -> float -> bool := SFltb.
Definition leb : float -> float -> bool := SFleb.

(** [0.0]. *)
Definition zero : float := S754_zero false.

Definition is_finite (x : float) : bool :=
  match x with
  | S754_zero _ | S754_finite _ _ _ => true
  | _ => false
  end.

Definition is_infinite (x : float) : bool :=
  match x with
  | S754_infinity _ => true
  | _ => false
  end.

(** A number that is neither a zero nor NaN. *)
Definition nonzero (x : float) : bool :=
  match x with
  | S754_finite _ _ _ | S754_infinity _ => true
  | _ => false
  end.

(** [float(z)] of a Python int: the double nearest to it. *)
Definition of_Z (z : Z) : float := binary_normalize prec emax z 0 false.

Definition of_nat (n : nat) : float := of_Z (Z.of_nat n).

(** [1.0]. *)
Definition one : float := of_Z 1.

(** The double nearest to a rational: what Python reads a decimal
    literal as, and the double itself when the rational is one.  The
    division of the standard takes numerator and denominator as the
    integers they are and rounds once. *)
Definition of_Q (q : Q) : float :=
  match Qnum q with
  | Z0 => zero
  | Zpos n => quotient (S754_finite false n 0) (S754_finite false (Qden q) 0)
  | Zneg n => quotient (S754_finite true n 0) (S754_finite false (Qden q) 0)
  end.

(** The rational a finite double is exactly; 0 for the others. *)
Definition exact (x : float) : Q :=
  match x with
  | S754_finite s m e =>
      let m := if s then Zneg m else Zpos m in
      match e with
      | Z0 => inject_Z m
      | Zpos p => inject_Z (m * 2 ^ Zpos p)
      | Zneg p => Qmake m (2 ^ p)
      end
  | _ => 0
  end.

(** The sign bit. *)
Definition sign (x : float) : bool :=
  match x with
  | S754_zero s | S754_infinity s | S754_finite s _ _ => s
  | S754_nan => false
  end.

(** [round(x, ndigits)] for [ndigits] that is not negative: an infinity
    and NaN are returned as they are, a result of 0 keeps the sign. *)
Definition round (x : float) (ndigits : nat) : float :=
  if is_finite x then
    let scale := Z.to_pos (10 ^ Z.of_nat ndigits) in
    let r := Num.round_half_even (exact x * inject_Z (Zpos scale)) in
    if (r =? 0)%Z then S754_zero (sign x) else of_Q (Qmake r scale)
  else x.

(** [sum(values)]: Python adds from the left, starting at 0. *)
Definition sum (values : list float) : float := fold_left add values zero.

(** The exceptions of the float arithmetic of the engine; a
    [MathDomainError] is the [ValueError] of [math.sqrt]. *)
Inductive Error := ZeroDivisionError | OverflowError | MathDomainError.

#[global] Instance Error_eq_dec : EqDecision Error.
Proof. solve_decision. Defined.

(** A call returns a value or raises. *)
Inductive Result (A : Type) :=
| Returns (a : A)
| Raises (e : Error).
Arguments Returns {A} a.
Arguments Raises {A} e.

#[global] Instance Result_ret : MRet Result := fun A a => Returns a.

#[global] Instance Result_bind : MBind Result := fun A B k r =>
  match r with
  | Returns a => k a
  | Raises e => Raises e
  end.

(** The value a call returned, when it did. *)
Definition returned {A} (r : Result A) : option A :=
  match r with
  | Returns a => Some a
  | Raises _ => None
  end.

(** [x / y] of Python. *)
Definition div (x y : float) : Result float :=
  if eqb y zero then Raises ZeroDivisionError else Returns (quotient x y).

(** A [pow] that is correctly rounded at the exponent 2, the only one
    the engine raises to. *)
Definition square_pow (x y : float) : float := mul x x.

End Float.

(** ** vitals_engine.py *)

Module Vitals.

Inductive SeverityLevel := normal | warning | critical.

#[global] Instance SeverityLevel_eq_dec : EqDecision SeverityLevel.
Proof. solve_decision. Defined.

(** The string a severity is as a Python value. *)
Definition severity_str (s : SeverityLevel) : string :=
  match s with
  | normal => "normal"
  | warning => "warning"
  | critical => "critical"
  end.

(** One entry of [THRESHOLDS]. *)
Record Band := {
  unit : string;
  critical_low : Q;
  warning_low : Q;
  normal_low : Q;
  normal_high : Q;
  warning_high : Q;
  critical_high : Q;
}.

(** An entry, its seven values in the order of the source. *)
Definition band (u : string) (cl wl nl nh wh ch : Q) : Band :=
  {| unit := u; critical_low := cl; warning_low := wl; normal_low := nl;
     normal_high := nh; warning_high := wh; critical_high := ch |}.

Definition THRESHOLDS : gmap string Band :=
  list_to_map [
    ("heart_rate",       band "bpm" 40 50 60 100 120 150);
    ("systolic_bp",      band "mmHg" 70 90 90 129 139 180);
    ("diastolic_bp",     band "mmHg" 40 60 60 89 89 120);
    ("spo2",             band "%" 88 92 95 100 100 100);
    ("temperature_f",    band "°F" 95 (968 # 10) 97 99 (1004 # 10) 103);
    ("respiratory_rate", band "breaths/min" 8 10 12 20 24 30)
  ].

(** The message templates of [check_threshold]. *)
Inductive ThresholdMessage :=
| WithinNormalRange (metric : string)
| CriticalLow (metric : string) (value : Q) (unit : string)
| Low (metric : string) (value : Q) (unit : string)
| CriticalHigh (metric : string) (value : Q) (unit : string)
| Elevated (metric : string) (value : Q) (unit : string).

Record ThresholdResult := {
  tr_metric : string;
  tr_value : Q;
  tr_unit : string;
  tr_severity : SeverityLevel;
  tr_message : ThresholdMessage;
  tr_auto_emergency : bool;
}.

Definition check_threshold (metric : string) (value : Q)
  : option ThresholdResult :=
  match THRESHOLDS !! metric with
  | None => None
  | Some t =>
      let u := unit t in
      let '(severity, message, auto_emergency) :=
        if Num.leb value (critical_low t) then
          (critical, CriticalLow metric value u, true)
        else if Num.leb value (warning_low t) then
          (warning, Low metric value u, false)
        else if Num.leb (critical_high t) value then
          (critical, CriticalHigh metric value u, true)
        else if Num.leb (warning_high t) value then
          (warning, Elevated metric value u, false)
        else
          (normal, WithinNormalRange metric, false) in
      Some {| tr_metric := metric; tr_value := value; tr_unit := u;
              tr_severity := severity; tr_message := message;
              tr_auto_emergency := auto_emergency |}
  end.

(** [vitals] is the dict as the sequence of its items. *)
Definition check_all_thresholds (vitals : list (string * Q))
  : list ThresholdResult :=
  omap (fun kv => check_threshold kv.1 kv.2) vitals.

(** [sum(values) / len(values)]. *)
Definition _mean (values : list Float.float) : Float.Result Float.float :=
  Float.div (Float.sum values) (Float.of_nat (length values)).

(** [readings[start:stop]] for indices that are not negative. *)
Definition slice {A} (l : list A) (start stop : nat) : list A :=
  take (stop - start) (drop start l).

Definition smooth_readings (readings : list Float.float) (window : Z)
  : Float.Result (list Float.float) :=
  if (Z.of_nat (length readings) <? window)%Z then Float.Returns readings
  else
    mapM (fun i : nat =>
            let start := Z.to_nat (Z.max 0 (Z.of_nat i - window + 1)) in
            m ← _mean (slice readings start (i + 1));
            Float.Returns (Float.round m 2))
         (seq 0 (length readings)).

Inductive OutlierMessage :=
| InsufficientHistory
| ConstantSmallChanges
| ReadingsStable
| OutlierDetected (z z_threshold deviation_pct mu : Float.float)
| WithinNormalVariation (z mu : Float.float).

Record OutlierResult := {
  is_outlier : bool;
  z_score : Float.float;
  deviation_pct : Float.float;
  o_message : OutlierMessage;
}.

Section Outlier.

(** [pow] of the C library. *)
Variable libm_pow : Float.float -> Float.float -> Float.float.

(** [x ** 2] on a float: the cases [float_pow] of CPython settles
    itself, then [pow], an infinite result of which is an
    [OverflowError]. *)
Definition float_pow2 (x : Float.float) : Float.Result Float.float :=
  match x with
  | S754_nan => Float.Returns x
  | S754_infinity _ => Float.Returns (S754_infinity false)
  | S754_zero _ => Float.Returns Float.zero
  | S754_finite _ _ _ =>
      let iv := Float.abs x in
      if Float.eqb iv Float.one then Float.Returns Float.one
      else
        let ix := libm_pow iv (Float.of_Z 2) in
        if Float.is_infinite ix then Float.Raises Float.OverflowError
        else Float.Returns ix
  end.

(** [math.sqrt]. *)
Definition math_sqrt (x : Float.float) : Float.Result Float.float :=
  if Float.ltb x Float.zero then Float.Raises Float.MathDomainError
  else Float.Returns (Float.sqrt x).

Definition _std (values : list Float.float) (mean : Float.float)
  : Float.Result Float.float :=
  squares ← mapM (fun v => float_pow2 (Float.sub v mean)) values;
  variance ← Float.div (Float.sum squares) (Float.of_nat (length values));
  math_sqrt variance.

Definition detect_outlier (new_value : Float.float)
           (history : list Float.float) (z_threshold : Float.float)
  : Float.Result OutlierResult :=
  if (length history <? 5)%nat then
    Float.Returns {| is_outlier := false; z_score := Float.zero;
                     deviation_pct := Float.zero;
                     o_message := InsufficientHistory |}
  else
    mu ← _mean history;
    sigma ← _std history mu;
    if Float.ltb sigma (Float.of_Q (1 # 1000000)) then
      let z := Float.abs (Float.sub new_value mu) in
      Float.Returns
        {| is_outlier := Float.ltb Float.one z; z_score := z;
           deviation_pct := Float.zero;
           o_message := if Float.ltb Float.one z then ConstantSmallChanges
                        else ReadingsStable |}
    else
      z ← Float.div (Float.sub new_value mu) sigma;
      deviation_pct ←
        (if negb (Float.eqb mu Float.zero) then
           d ← Float.div (Float.sub new_value mu) mu;
           Float.Returns (Float.mul d (Float.of_Z 100))
         else Float.Returns Float.zero);
      let is_outlier := Float.leb z_threshold (Float.abs z) in
      Float.Returns
        {| is_outlier := is_outlier;
           z_score := Float.round z 3;
           deviation_pct := Float.round deviation_pct 2;
           o_message :=
             if is_outlier
             then OutlierDetected z z_threshold deviation_pct mu
             else WithinNormalVariation z mu |}.

End Outlier.

(** The default [z_threshold = 2.5]. *)
Definition default_z_threshold : Float.float := Float.of_Q (25 # 10).

Inductive Direction := rising | falling | stable | insufficient_data.

#[global] Instance Direction_eq_dec : EqDecision Direction.
Proof. solve_decision. Defined.

Inductive TrendMessage :=
| NeedAtLeastThree (n : nat)
| IsStable (metric : string) (change_pct : Float.float) (n : nat)
| TrendingUp (metric : string) (change_pct : Float.float) (n : nat)
             (slope : Float.float)
| TrendingDown (metric : string) (change_pct : Float.float) (n : nat)
               (slope : Float.float).

Record TrendResult := {
  t_metric : string;
  direction : Direction;
  slope_per_reading : Float.float;
  change_pct_over_window : Float.float;
  t_message : TrendMessage;
}.

(** [sum] of a list of Python ints. *)
Definition isum (values : list Z) : Z := fold_left Z.add values 0%Z.

(** [list(range(n))]. *)
Definition range (n : nat) : list Z := map Z.of_nat (seq 0 n).

(** [denom] of [analyze_trend]: integer arithmetic on the indices. *)
Definition trend_denom (n : nat) : Z :=
  let x := range n in
  let sum_x := isum x in
  let sum_x2 := isum (map (fun xi => xi ^ 2)%Z x) in
  (Z.of_nat n * sum_x2 - sum_x ^ 2)%Z.

(** [slope] of [analyze_trend]: the ints [n], [xi], [sum_x] and [denom]
    become doubles where they meet one. *)
Definition trend_slope (readings : list Float.float) : Float.float :=
  let n := length readings in
  let x := range n in
  let sum_x := isum x in
  let sum_y := Float.sum readings in
  let sum_xy :=
    Float.sum (zip_with (fun xi yi => Float.mul (Float.of_Z xi) yi)
                        x readings) in
  let denom := trend_denom n in
  if negb (denom =? 0)%Z then
    Float.quotient
      (Float.sub (Float.mul (Float.of_nat n) sum_xy)
                 (Float.mul (Float.of_Z sum_x) sum_y))
      (Float.of_Z denom)
  else Float.zero.

(** [change_pct] of [analyze_trend]; [readings] has a first and a last
    element where it is used. *)
Definition trend_change_pct (readings : list Float.float) : Float.float :=
  let first_val := nth 0 readings Float.zero in
  let last_val := List.last readings Float.zero in
  if negb (Float.eqb first_val Float.zero)
  then Float.mul (Float.quotient (Float.sub last_val first_val) first_val)
                 (Float.of_Z 100)
  else Float.zero.

Definition analyze_trend (metric : string) (readings : list Float.float)
           (stable_threshold_pct : Float.float) : TrendResult :=
  let n := length readings in
  if (n <? 3)%nat then
    {| t_metric := metric; direction := insufficient_data;
       slope_per_reading := Float.zero;
       change_pct_over_window := Float.zero;
       t_message := NeedAtLeastThree n |}
  else
    let slope := trend_slope readings in
    let change_pct := trend_change_pct readings in
    let '(dir, msg) :=
      if Float.leb (Float.abs change_pct) stable_threshold_pct then
        (stable, IsStable metric change_pct n)
      else if Float.ltb Float.zero slope then
        (rising, TrendingUp metric change_pct n slope)
      else
        (falling, TrendingDown metric change_pct n slope) in
    {| t_metric := metric; direction := dir;
       slope_per_reading := Float.round slope 4;
       change_pct_over_window := Float.round change_pct 2;
       t_message := msg |}.

(** The default [stable_threshold_pct = 3.0]. *)
Definition default_stable_threshold_pct : Float.float := Float.of_Z 3.

Definition batch_trend_analysis
           (history_map : list (string * list Float.float))
  : list TrendResult :=
  map (fun kv => analyze_trend kv.1 kv.2 default_stable_threshold_pct)
      history_map.

Inductive FlagTitle :=
| TitleAbnormal (metric : string)
| TitleProgressiveRise (metric : string)
| TitleHeartRateTrend
| TitleFallingOxygen
| TitleCombined.

Inductive FlagDetail :=
| DetailThreshold (m : ThresholdMessage)
| DetailTrend (m : TrendMessage)
| DetailCombo (sys_bp hr : Q).

Inductive Recommendation :=
| SeekImmediateCare
| MonitorClosely
| InformDoctor
| RestHydrateMonitor
| SeekImmediateAttention
| UrgentEvaluation.

Record RiskFlag := {
  flag_id : string;
  severity : SeverityLevel;
  title : FlagTitle;
  detail : FlagDetail;
  recommendation : Recommendation;
}.

(** The flags the first loop of [generate_risk_flags] appends for one
    threshold result. *)
Definition threshold_flags (tr : ThresholdResult) : list RiskFlag :=
  let sev := tr_severity tr in
  if bool_decide (sev = warning) || bool_decide (sev = critical) then
    [ {| flag_id := "threshold_" ++ tr_metric tr ++ "_" ++ severity_str sev;
         severity := sev;
         title := TitleAbnormal (tr_metric tr);
         detail := DetailThreshold (tr_message tr);
         recommendation :=
           if bool_decide (sev = critical) then SeekImmediateCare
           else MonitorClosely |} ]
  else [].

(** The flags the second loop appends for one trend. *)
Definition trend_flags (trend : TrendResult) : list RiskFlag :=
  (if bool_decide (direction trend = rising)
      && Float.ltb (Float.of_Z 10) (change_pct_over_window trend) then
     if String.eqb (t_metric trend) "systolic_bp"
        || String.eqb (t_metric trend) "diastolic_bp" then
       [ {| flag_id := "trend_rising_" ++ t_metric trend;
            severity := warning;
            title := TitleProgressiveRise (t_metric trend);
            detail := DetailTrend (t_message trend);
            recommendation := InformDoctor |} ]
     else if String.eqb (t_metric trend) "heart_rate"
             && Float.ltb (Float.of_Z 15) (change_pct_over_window trend) then
       [ {| flag_id := "trend_rising_heart_rate";
            severity := warning;
            title := TitleHeartRateTrend;
            detail := DetailTrend (t_message trend);
            recommendation := RestHydrateMonitor |} ]
     else []
   else [])
  ++
  (if bool_decide (direction trend = falling)
      && String.eqb (t_metric trend) "spo2" then
     if Float.ltb (change_pct_over_window trend) (Float.of_Z (-3)) then
       [ {| flag_id := "trend_falling_spo2";
            severity := critical;
            title := TitleFallingOxygen;
            detail := DetailTrend (t_message trend);
            recommendation := SeekImmediateAttention |} ]
     else []
   else []).

(** The combination rule. *)
Definition combo_flags (current_vitals : gmap string Q) : list RiskFlag :=
  let sys_bp := default 0 (current_vitals !! "systolic_bp") in
  let hr := default 0 (current_vitals !! "heart_rate") in
  if Num.ltb 160 sys_bp && Num.ltb 100 hr then
    [ {| flag_id := "combo_hypertensive_tachycardia";
         severity := critical;
         title := TitleCombined;
         detail := DetailCombo sys_bp hr;
         recommendation := UrgentEvaluation |} ]
  else [].

(** The closing loop: keep the first flag of each [flag_id]. *)
Fixpoint unique_flags (seen : gset string) (flags : list RiskFlag)
  : list RiskFlag :=
  match flags with
  | [] => []
  | f :: rest =>
      if decide (flag_id f ∈ seen) then unique_flags seen rest
      else f :: unique_flags ({[flag_id f]} ∪ seen) rest
  end.

Definition generate_risk_flags (current_vitals : gmap string Q)
           (trends : list TrendResult)
           (threshold_results : list ThresholdResult) : list RiskFlag :=
  let flags :=
    concat (map threshold_flags threshold_results)
    ++ concat (map trend_flags trends)
    ++ combo_flags current_vitals in
  unique_flags ∅ flags.

End Vitals.

(** ** emergency_engine.py *)

Module Emergency.

Inductive EmergencyStatus :=
| PENDING_CONFIRMATION
| ESCALATED
| RESOLVED
| CANCELLED
| CARETAKER_OVERRIDE.

#[global] Instance EmergencyStatus_eq_dec : EqDecision EmergencyStatus.
Proof. solve_decision. Defined.

Inductive TriggerSource :=
| MANUAL_SOS
| FALL_DETECTION
| VITALS_CRITICAL
| INACTIVITY
| CARETAKER_ALERT.

(** A UTC instant, in microseconds; the ISO text of it is not modelled. *)
Definition Timestamp := Z.

(** [{"lat": float, "lon": float, "accuracy_m": int}]. *)
Record Location := {
  lat : Q;
  lon : Q;
  accuracy_m : option Z;
}.

(** The result of [_build_voice_agent_packet]. *)
Record VoicePacket := {
  script : string;
  vp_event_id : string;
}.

(** The four dicts appended to [actions_taken]; the constructor is the
    value of the key ["action"], its arguments the other keys. *)
Inductive ActionRecord :=
| CARETAKER_NOTIFIED (channel : list string) (success : bool)
                     (timestamp : Timestamp)
| DIAL_108 (number : string) (success : bool) (timestamp : Timestamp)
| GPS_SHARED (loc : option Location) (success : bool)
             (timestamp : Timestamp)
| VOICE_AGENT_DISPATCHED (packet : VoicePacket) (timestamp : Timestamp).

(** [a["action"]]. *)
Definition action_name (a : ActionRecord) : string :=
  match a with
  | CARETAKER_NOTIFIED _ _ _ => "CARETAKER_NOTIFIED"
  | DIAL_108 _ _ _ => "DIAL_108"
  | GPS_SHARED _ _ _ => "GPS_SHARED"
  | VOICE_AGENT_DISPATCHED _ _ => "VOICE_AGENT_DISPATCHED"
  end.

(** [a.get("success")]. *)
Definition action_success (a : ActionRecord) : option bool :=
  match a with
  | CARETAKER_NOTIFIED _ ok _ => Some ok
  | DIAL_108 _ ok _ => Some ok
  | GPS_SHARED _ ok _ => Some ok
  | VOICE_AGENT_DISPATCHED _ _ => None
  end.

(** The event dict.  The last three keys are absent (None) until
    [escalate_emergency] or [caretaker_override] adds them. *)
Record EmergencyEvent := {
  event_id : string;
  idempotency_key : string;
  patient_id : string;
  patient_name : string;
  trigger_source : TriggerSource;
  status : EmergencyStatus;
  triggered_at : Timestamp;
  confirmation_deadline : Timestamp;
  vitals_snapshot : gmap string Q;
  location : option Location;
  caretaker_phone : option string;
  medical_context : option string;
  actions_taken : list ActionRecord;
  resolved_at : option Timestamp;
  resolved_by : option string;
  escalated_at : option Timestamp;
  override_by : option string;
  override_at : option Timestamp;
}.

(** [event["status"] = v]. *)
Definition set_status (v : EmergencyStatus) (e : EmergencyEvent)
  : EmergencyEvent :=
  {| event_id := event_id e;
     idempotency_key := idempotency_key e;
     patient_id := patient_id e;
     patient_name := patient_name e;
     trigger_source := trigger_source e;
     status := v;
     triggered_at := triggered_at e;
     confirmation_deadline := confirmation_deadline e;
     vitals_snapshot := vitals_snapshot e;
     location := location e;
     caretaker_phone := caretaker_phone e;
     medical_context := medical_context e;
     actions_taken := actions_taken e;
     resolved_at := resolved_at e;
     resolved_by := resolved_by e;
     escalated_at := escalated_at e;
     override_by := override_by e;
     override_at := override_at e |}.

(** [event["location"] = v]. *)
Definition set_location (v : option Location) (e : EmergencyEvent)
  : EmergencyEvent :=
  {| event_id := event_id e;
     idempotency_key := idempotency_key e;
     patient_id := patient_id e;
     patient_name := patient_name e;
     trigger_source := trigger_source e;
     status := status e;
     triggered_at := triggered_at e;
     confirmation_deadline := confirmation_deadline e;
     vitals_snapshot := vitals_snapshot e;
     location := v;
     caretaker_phone := caretaker_phone e;
     medical_context := medical_context e;
     actions_taken := actions_taken e;
     resolved_at := resolved_at e;
     resolved_by := resolved_by e;
     escalated_at := escalated_at e;
     override_by := override_by e;
     override_at := override_at e |}.

(** [event["actions_taken"] = v]. *)
Definition set_actions_taken (v : list ActionRecord) (e : EmergencyEvent)
  : EmergencyEvent :=
  {| event_id := event_id e;
     idempotency_key := idempotency_key e;
     patient_id := patient_id e;
     patient_name := patient_name e;
     trigger_source := trigger_source e;
     status := status e;
     triggered_at := triggered_at e;
     confirmation_deadline := confirmation_deadline e;
     vitals_snapshot := vitals_snapshot e;
     location := location e;
     caretaker_phone := caretaker_phone e;
     medical_context := medical_context e;
     actions_taken := v;
     resolved_at := resolved_at e;
     resolved_by := resolved_by e;
     escalated_at := escalated_at e;
     override_by := override_by e;
     override_at := override_at e |}.

(** [event["resolved_at"] = v]. *)
Definition set_resolved_at (v : option Timestamp) (e : EmergencyEvent)
  : EmergencyEvent :=
  {| event_id := event_id e;
     idempotency_key := idempotency_key e;
     patient_id := patient_id e;
     patient_name := patient_name e;
     trigger_source := trigger_source e;
     status := status e;
     triggered_at := triggered_at e;
     confirmation_deadline := confirmation_deadline e;
     vitals_snapshot := vitals_snapshot e;
     location := location e;
     caretaker_phone := caretaker_phone e;
     medical_context := medical_context e;
     actions_taken := actions_taken e;
     resolved_at := v;
     resolved_by := resolved_by e;
     escalated_at := escalated_at e;
     override_by := override_by e;
     override_at := override_at e |}.

(** [event["resolved_by"] = v]. *)
Definition set_resolved_by (v : option string) (e : EmergencyEvent)
  : EmergencyEvent :=
  {| event_id := event_id e;
     idempotency_key := idempotency_key e;
     patient_id := patient_id e;
     patient_name := patient_name e;
     trigger_source := trigger_source e;
     status := status e;
     triggered_at := triggered_at e;
     confirmation_deadline := confirmation_deadline e;
     vitals_snapshot := vitals_snapshot e;
     location := location e;
     caretaker_phone := caretaker_phone e;
     medical_context := medical_context e;
     actions_taken := actions_taken e;
     resolved_at := resolved_at e;
     resolved_by := v;
     escalated_at := escalated_at e;
     override_by := override_by e;
     override_at := override_at e |}.

(** [event["escalated_at"] = v]. *)
Definition set_escalated_at (v : option Timestamp) (e : EmergencyEvent)
  : EmergencyEvent :=
  {| event_id := event_id e;
     idempotency_key := idempotency_key e;
     patient_id := patient_id e;
     patient_name := patient_name e;
     trigger_source := trigger_source e;
     status := status e;
     triggered_at := triggered_at e;
     confirmation_deadline := confirmation_deadline e;
     vitals_snapshot := vitals_snapshot e;
     location := location e;
     caretaker_phone := caretaker_phone e;
     medical_context := medical_context e;
     actions_taken := actions_taken e;
     resolved_at := resolved_at e;
     resolved_by := resolved_by e;
     escalated_at := v;
     override_by := override_by e;
     override_at := override_at e |}.

(** [event["override_by"] = v]. *)
Definition set_override_by (v : option string) (e : EmergencyEvent)
  : EmergencyEvent :=
  {| event_id := event_id e;
     idempotency_key := idempotency_key e;
     patient_id := patient_id e;
     patient_name := patient_name e;
     trigger_source := trigger_source e;
     status := status e;
     triggered_at := triggered_at e;
     confirmation_deadline := confirmation_deadline e;
     vitals_snapshot := vitals_snapshot e;
     location := location e;
     caretaker_phone := caretaker_phone e;
     medical_context := medical_context e;
     actions_taken := actions_taken e;
     resolved_at := resolved_at e;
     resolved_by := resolved_by e;
     escalated_at := escalated_at e;
     override_by := v;
     override_at := override_at e |}.

(** [event["override_at"] = v]. *)
Definition set_override_at (v : option Timestamp) (e : EmergencyEvent)
  : EmergencyEvent :=
  {| event_id := event_id e;
     idempotency_key := idempotency_key e;
     patient_id := patient_id e;
     patient_name := patient_name e;
     trigger_source := trigger_source e;
     status := status e;
     triggered_at := triggered_at e;
     confirmation_deadline := confirmation_deadline e;
     vitals_snapshot := vitals_snapshot e;
     location := location e;
     caretaker_phone := caretaker_phone e;
     medical_context := medical_context e;
     actions_taken := actions_taken e;
     resolved_at := resolved_at e;
     resolved_by := resolved_by e;
     escalated_at := escalated_at e;
     override_by := override_by e;
     override_at := v |}.

(** The value of the key ["event_type"] of an audit entry; the last is
    the string ["CARETAKER_OVERRIDE"], which is also a status. *)
Inductive EventType :=
| EMERGENCY_TRIGGERED
| EMERGENCY_ESCALATED
| EMERGENCY_CANCELLED
| EMERGENCY_RESOLVED
| CARETAKER_OVERRIDE_LOGGED.

#[global] Instance EventType_eq_dec : EqDecision EventType.
Proof. solve_decision. Defined.

(** One dict of the audit log; a key that an entry does not have is
    None. *)
Record AuditEntry := {
  event_type : EventType;
  ae_event_id : string;
  ae_patient_id : string;
  ae_trigger_source : option TriggerSource;
  ae_idempotency_key : option string;
  ae_actions : option (list string);
  ae_cancelled_by : option string;
  ae_resolved_by : option string;
  ae_caretaker_id : option string;
  logged_at : Timestamp;
}.

(** The store: the content of [active_emergencies.json] and of
    [emergency_audit.json], and how often the clock and the UUID
    generator have been read. *)
Record World := {
  active : gmap string EmergencyEvent;
  audit : list AuditEntry;
  clock_reads : nat;
  uuid_draws : nat;
}.

Definition empty_world : World :=
  {| active := ∅; audit := []; clock_reads := 0; uuid_draws := 0 |}.

Inductive Exception :=
| ValueError (msg : string)
| TypeError.

Inductive Outcome (A : Type) :=
| Returned (a : A)
| Raised (exn : Exception).
Arguments Returned {A} a.
Arguments Raised {A} exn.

(** A call: it runs in a store and ends by returning or raising. *)
Definition Call (A : Type) : Type := World -> Outcome A * World.

Definition ret {A} (a : A) : Call A := fun w => (Returned a, w).
Definition raise {A} (exn : Exception) : Call A :=
  fun w => (Raised exn, w).
Definition bind {A B} (c : Call A) (k : A -> Call B) : Call B :=
  fun w =>
    match c w with
    | (Returned a, w') => k a w'
    | (Raised exn, w') => (Raised exn, w')
    end.

Notation "'let*' x ':=' c 'in' k" := (bind c (fun x => k))
  (at level 10, x name, c at level 100, k at level 200).

(** [x or y] on optional strings: the empty string counts as absent. *)
Definition truthy (o : option string) : option string :=
  match o with
  | Some s => if bool_decide (s = "") then None else Some s
  | None => None
  end.

(** [logs[-n:]] for a positive [n]. *)
Definition last_n {A} (n : nat) (l : list A) : list A :=
  drop (length l - n) l.

Definition is_terminal (s : EmergencyStatus) : bool :=
  match s with
  | RESOLVED | CANCELLED | CARETAKER_OVERRIDE => true
  | PENDING_CONFIRMATION | ESCALATED => false
  end.

Definition _load_active : Call (gmap string EmergencyEvent) :=
  fun w => (Returned (active w), w).

Definition _save_active (a : gmap string EmergencyEvent) : Call () :=
  fun w =>
    (Returned (),
     {| active := a; audit := audit w; clock_reads := clock_reads w;
        uuid_draws := uuid_draws w |}).

Definition load_log : Call (list AuditEntry) :=
  fun w => (Returned (audit w), w).

Definition save_log (l : list AuditEntry) : Call () :=
  fun w =>
    (Returned (),
     {| active := active w; audit := l; clock_reads := clock_reads w;
        uuid_draws := uuid_draws w |}).

Definition get_active_emergency (patient_id : string)
  : Call (option EmergencyEvent) :=
  let* a := _load_active in
  ret (a !! patient_id).

Definition has_active_emergency (patient_id : string) : Call bool :=
  let* em := get_active_emergency patient_id in
  ret (match em with
       | Some em => negb (is_terminal (status em))
       | None => false
       end).

(** [l[start:]] for any integer [start]: a negative one counts from the
    end, and both are clamped to the list. *)
Definition slice_from {A} (start : Z) (l : list A) : list A :=
  let n := Z.of_nat (length l) in
  let s := if (start <? 0)%Z then Z.max (n + start) 0 else Z.min start n in
  drop (Z.to_nat s) l.

Definition get_audit_log (patient_id : option string) (limit : Z)
  : Call (list AuditEntry) :=
  let* logs := load_log in
  let logs :=
    match truthy patient_id with
    | Some p => filter (fun e => ae_patient_id e = p) logs
    | None => logs
    end in
  ret (slice_from (- limit) logs).

(** [_add_seconds]. *)
Definition _add_seconds (t : Timestamp) (seconds : Z) : Timestamp :=
  (t + seconds * 1000000)%Z.

(** The three values [trigger_emergency] returns: the new event, the
    stored event with the key ["_already_active"], or the matching log
    entry with the key ["_duplicate"]. *)
Inductive TriggerResult :=
| Created (event : EmergencyEvent)
| AlreadyActive (existing : EmergencyEvent)
| Duplicate (log_entry : AuditEntry).

Section Engine.

(** The clock: the value of the n-th call of [datetime.utcnow]. *)
Variable utcnow : nat -> Timestamp.
(** The n-th value of [uuid.uuid4]. *)
Variable uuid4 : nat -> string.
(** Whether [get_twilio_client()] and [TWILIO_FROM] are both set. *)
Variable twilio_ready : bool.
(** Whether Twilio accepts a message, a call, to this number. *)
Variable sms_accepted : string -> bool.
Variable call_accepted : string -> bool.
(** The text [_build_voice_agent_packet] composes for an event. *)
Variable voice_script : EmergencyEvent -> string.

Definition _now_iso : Call Timestamp :=
  fun w =>
    (Returned (utcnow (clock_reads w)),
     {| active := active w; audit := audit w;
        clock_reads := S (clock_reads w);
        uuid_draws := uuid_draws w |}).

Definition new_uuid : Call string :=
  fun w =>
    (Returned (uuid4 (uuid_draws w)),
     {| active := active w; audit := audit w;
        clock_reads := clock_reads w;
        uuid_draws := S (uuid_draws w) |}).

(** [event] is the entry still without its ["logged_at"]. *)
Definition _append_audit (event : Timestamp -> AuditEntry) : Call () :=
  let* logs := load_log in
  let* t := _now_iso in
  save_log (last_n 2000 (logs ++ [event t])).

(** The second half of [trigger_emergency], from [event_id = ...] on:
    build the event, store it, log it, return it. *)
Definition create_event
           (patient_id : string) (trigger_source : TriggerSource)
           (vitals_snapshot : option (gmap string Q))
           (location : option Location)
           (caretaker_phone patient_name medical_context
              idempotency_key : option string)
  : Call TriggerResult :=
  let* event_id := new_uuid in
  let* now := _now_iso in
  let event :=
    {| event_id := event_id;
       idempotency_key := default event_id (truthy idempotency_key);
       patient_id := patient_id;
       patient_name := default "Unknown Patient" (truthy patient_name);
       trigger_source := trigger_source;
       status := PENDING_CONFIRMATION;
       triggered_at := now;
       confirmation_deadline := _add_seconds now 30;
       vitals_snapshot := default ∅ vitals_snapshot;
       location := location;
       caretaker_phone := caretaker_phone;
       medical_context := medical_context;
       actions_taken := [];
       resolved_at := None;
       resolved_by := None;
       escalated_at := None;
       override_by := None;
       override_at := None |} in
  let* active := _load_active in
  let* _ := _save_active (<[patient_id := event]> active) in
  let* _ :=
    _append_audit (fun t =>
      {| event_type := EMERGENCY_TRIGGERED;
         ae_event_id := event_id;
         ae_patient_id := patient_id;
         ae_trigger_source := Some trigger_source;
         ae_idempotency_key := Some (Emergency.idempotency_key event);
         ae_actions := None; ae_cancelled_by := None;
         ae_resolved_by := None; ae_caretaker_id := None;
         logged_at := t |}) in
  ret (Created event).

(** The idempotency check: the last log entry that carries the key. *)
Definition find_logged_key (idempotency_key : option string)
           (logs : list AuditEntry) : option AuditEntry :=
  key ← truthy idempotency_key;
  List.find (fun log_entry =>
               bool_decide (ae_idempotency_key log_entry = Some key))
            (reverse logs).

Definition trigger_emergency
           (patient_id : string) (trigger_source : TriggerSource)
           (vitals_snapshot : option (gmap string Q))
           (location : option Location)
           (caretaker_phone patient_name medical_context
              idempotency_key : option string)
  : Call TriggerResult :=
  let* logs := load_log in
  match find_logged_key idempotency_key logs with
  | Some log_entry => ret (Duplicate log_entry)
  | None =>
      let* has_active := has_active_emergency patient_id in
      if has_active
      then
        let* existing := get_active_emergency patient_id in
        match existing with
        | Some existing => ret (AlreadyActive existing)
        | None => raise TypeError
        end
      else
        create_event patient_id trigger_source vitals_snapshot location
                     caretaker_phone patient_name medical_context
                     idempotency_key
  end.

(** The message is sent when Twilio is configured; without it the send
    is simulated and counts as sent. *)
Definition _notify_caretaker (event : EmergencyEvent) : bool :=
  match truthy (caretaker_phone event) with
  | None => false
  | Some phone =>
      if bool_decide (phone = "unknown") then false
      else if twilio_ready then sms_accepted phone
      else true
  end.

(** The same for the voice call. *)
Definition _dial_ambulance (event : EmergencyEvent) : bool :=
  match truthy (caretaker_phone event) with
  | None => false
  | Some target_number =>
      if bool_decide (target_number = "unknown") then false
      else if twilio_ready then call_accepted target_number
      else true
  end.

Definition _share_gps (event : EmergencyEvent) : bool :=
  match location event with
  | None => false
  | Some _ => true
  end.

Definition _build_voice_agent_packet (event : EmergencyEvent)
  : VoicePacket :=
  {| script := voice_script event; vp_event_id := event_id event |}.

(** [actions.append(record)]: [actions] is the list inside [event]. *)
Definition append_action (record : ActionRecord) (event : EmergencyEvent)
  : EmergencyEvent :=
  set_actions_taken (actions_taken event ++ [record]) event.

(** The event of [escalate_emergency] after the assignments to
    ["status"], ["escalated_at"] and ["location"]. *)
Definition escalating (event : EmergencyEvent)
           (location : option Location) (t : Timestamp)
  : EmergencyEvent :=
  let event := set_escalated_at (Some t) (set_status ESCALATED event) in
  match location with
  | Some l => set_location (Some l) event
  | None => event
  end.

Definition escalate_emergency (patient_id : string)
           (location : option Location) : Call EmergencyEvent :=
  let* active := _load_active in
  match active !! patient_id with
  | None =>
      raise (ValueError ("No active emergency for patient " ++ patient_id))
  | Some event =>
      if negb (bool_decide (status event = PENDING_CONFIRMATION))
      then ret event
      else
        let* t := _now_iso in
        let event := escalating event location t in
        let caretaker_notified := _notify_caretaker event in
        let* t := _now_iso in
        let event :=
          append_action
            (CARETAKER_NOTIFIED ["sms"; "push"; "in_app"]
                                caretaker_notified t) event in
        let call_initiated := _dial_ambulance event in
        let* t := _now_iso in
        let event :=
          append_action (DIAL_108 "108" call_initiated t) event in
        let gps_shared := _share_gps event in
        let* t := _now_iso in
        let event :=
          append_action
            (GPS_SHARED (Emergency.location event) gps_shared t) event in
        let voice_packet := _build_voice_agent_packet event in
        let* t := _now_iso in
        let event :=
          append_action (VOICE_AGENT_DISPATCHED voice_packet t) event in
        let* _ := _save_active (<[patient_id := event]> active) in
        let* _ :=
          _append_audit (fun t =>
            {| event_type := EMERGENCY_ESCALATED;
               ae_event_id := event_id event;
               ae_patient_id := patient_id;
               ae_trigger_source := None; ae_idempotency_key := None;
               ae_actions := Some (map action_name (actions_taken event));
               ae_cancelled_by := None; ae_resolved_by := None;
               ae_caretaker_id := None; logged_at := t |}) in
        ret event
  end.

Definition cancel_emergency (patient_id cancelled_by : string)
  : Call EmergencyEvent :=
  let* active := _load_active in
  match active !! patient_id with
  | None => raise (ValueError ("No active emergency for " ++ patient_id))
  | Some event =>
      let event := set_status CANCELLED event in
      let* t := _now_iso in
      let event := set_resolved_at (Some t) event in
      let event := set_resolved_by (Some cancelled_by) event in
      let* _ := _save_active (<[patient_id := event]> active) in
      let* _ :=
        _append_audit (fun t =>
          {| event_type := EMERGENCY_CANCELLED;
             ae_event_id := event_id event;
             ae_patient_id := patient_id;
             ae_trigger_source := None; ae_idempotency_key := None;
             ae_actions := None;
             ae_cancelled_by := Some cancelled_by;
             ae_resolved_by := None; ae_caretaker_id := None;
             logged_at := t |}) in
      ret event
  end.

Definition resolve_emergency (patient_id resolved_by : string)
  : Call EmergencyEvent :=
  let* active := _load_active in
  match active !! patient_id with
  | None => raise (ValueError ("No active emergency for " ++ patient_id))
  | Some event =>
      let event := set_status RESOLVED event in
      let* t := _now_iso in
      let event := set_resolved_at (Some t) event in
      let event := set_resolved_by (Some resolved_by) event in
      let* _ := _save_active (<[patient_id := event]> active) in
      let* _ :=
        _append_audit (fun t =>
          {| event_type := EMERGENCY_RESOLVED;
             ae_event_id := event_id event;
             ae_patient_id := patient_id;
             ae_trigger_source := None; ae_idempotency_key := None;
             ae_actions := None; ae_cancelled_by := None;
             ae_resolved_by := Some resolved_by;
             ae_caretaker_id := None;
             logged_at := t |}) in
      ret event
  end.

Definition caretaker_override (patient_id caretaker_id : string)
  : Call EmergencyEvent :=
  let* active := _load_active in
  match active !! patient_id with
  | None => raise (ValueError ("No active emergency for " ++ patient_id))
  | Some event =>
      let event := set_status CARETAKER_OVERRIDE event in
      let event := set_override_by (Some caretaker_id) event in
      let* t := _now_iso in
      let event := set_override_at (Some t) event in
      let* _ := _save_active (<[patient_id := event]> active) in
      let* _ :=
        _append_audit (fun t =>
          {| event_type := CARETAKER_OVERRIDE_LOGGED;
             ae_event_id := event_id event;
             ae_patient_id := patient_id;
             ae_trigger_source := None; ae_idempotency_key := None;
             ae_actions := None; ae_cancelled_by := None;
             ae_resolved_by := None;
             ae_caretaker_id := Some caretaker_id;
             logged_at := t |}) in
      ret event
  end.

(** The calls that change the store, with their arguments. *)
Inductive Op :=
| Trigger (patient_id : string) (trigger_source : TriggerSource)
          (vitals_snapshot : option (gmap string Q))
          (location : option Location)
          (caretaker_phone patient_name medical_context
             idempotency_key : option string)
| Escalate (patient_id : string) (location : option Location)
| Cancel (patient_id cancelled_by : string)
| Resolve (patient_id resolved_by : string)
| Override (patient_id caretaker_id : string).

(** The store after a call, whether it returned or raised. *)
Definition run (op : Op) (w : World) : World :=
  match op with
  | Trigger p src v l ph nm ctx key =>
      (trigger_emergency p src v l ph nm ctx key w).2
  | Escalate p l => (escalate_emergency p l w).2
  | Cancel p by_ => (cancel_emergency p by_ w).2
  | Resolve p by_ => (resolve_emergency p by_ w).2
  | Override p c => (caretaker_override p c w).2
  end.

(** The stores the engine can be in: from the empty store (no file
    yet), by any sequence of calls. *)
Inductive reachable : World -> Prop :=
| reachable_empty : reachable empty_world
| reachable_run op w : reachable w -> reachable (run op w).

End Engine.

(** The patient a call is for. *)
Definition op_patient (op : Op) : string :=
  match op with
  | Trigger p _ _ _ _ _ _ _ => p
  | Escalate p _ => p
  | Cancel p _ => p
  | Resolve p _ => p
  | Override p _ => p
  end.

(** The names of the four records of an escalation, in order. *)
Definition ESCALATION_ACTIONS : list string :=
  ["CARETAKER_NOTIFIED"; "DIAL_108"; "GPS_SHARED"; "VOICE_AGENT_DISPATCHED"].

(** The escalation records of an event are none or the four of one
    escalation: none while it is pending, the four once it is escalated. *)
Definition recorded_once (e : EmergencyEvent) : Prop :=
  (status e = PENDING_CONFIRMATION -> actions_taken e = [])
  /\ (status e = ESCALATED ->
      map action_name (actions_taken e) = ESCALATION_ACTIONS)
  /\ (map action_name (actions_taken e) = []
      \/ map action_name (actions_taken e) = ESCALATION_ACTIONS).

(** The stamps of the event stored under the key [k] fit its status. *)
Definition well_stamped (k : string) (e : EmergencyEvent) : Prop :=
  patient_id e = k
  /\ confirmation_deadline e = _add_seconds (triggered_at e) 30
  /\ (status e = PENDING_CONFIRMATION ->
      escalated_at e = None /\ resolved_at e = None /\ resolved_by e = None)
  /\ (status e = ESCALATED -> is_Some (escalated_at e))
  /\ (status e = RESOLVED \/ status e = CANCELLED ->
      is_Some (resolved_at e) /\ is_Some (resolved_by e))
  /\ (status e = CARETAKER_OVERRIDE ->
      is_Some (override_by e) /\ is_Some (override_at e)).

(** What [has_active_emergency] returns in a store. *)
Definition active_now (p : string) (w : World) : bool :=
  match active w !! p with
  | Some e => negb (is_terminal (status e))
  | None => false
  end.

(** A status that is not terminal. *)
Definition non_terminal (e : EmergencyEvent) : Prop :=
  is_terminal (status e) = false.

(** The stored events of a patient that are not terminal are at most
    one. *)
Definition at_most_one_active (w : World) : Prop :=
  forall p k1 k2 e1 e2,
    active w !! k1 = Some e1 -> active w !! k2 = Some e2 ->
    patient_id e1 = p -> patient_id e2 = p ->
    non_terminal e1 -> non_terminal e2 ->
    k1 = k2 /\ e1 = e2.

(** The entries that end an event. *)
Definition closes (a : AuditEntry) : bool :=
  match event_type a with
  | EMERGENCY_CANCELLED | EMERGENCY_RESOLVED
  | CARETAKER_OVERRIDE_LOGGED => true
  | EMERGENCY_TRIGGERED | EMERGENCY_ESCALATED => false
  end.

(** The ledger's view of an event that is not terminal: a trigger entry
    that no later entry of the same event closes. *)
Definition open_trigger (log : list AuditEntry) (a : AuditEntry) : Prop :=
  event_type a = EMERGENCY_TRIGGERED /\
  exists before after,
    log = before ++ a :: after /\
    forall b, b ∈ after -> closes b = true ->
              ae_event_id b <> ae_event_id a.

(** Every event the ledger shows open is the stored event of its
    patient, and that one is not terminal. *)
Definition ledger_agrees (w : World) : Prop :=
  forall a,
    open_trigger (audit w) a ->
    exists e, active w !! ae_patient_id a = Some e
              /\ event_id e = ae_event_id a
              /\ non_terminal e.

(** The four shapes a change of the store by one call has. *)
Inductive transition (w w' : World) : Prop :=
| unchanged :
    active w' = active w -> audit w' = audit w -> transition w w'
| opened p e' a :
    (forall e, active w !! p = Some e -> is_terminal (status e) = true) ->
    active w' = <[p := e']> (active w) ->
    audit w' = last_n 2000 (audit w ++ [a]) ->
    patient_id e' = p ->
    status e' = PENDING_CONFIRMATION ->
    event_type a = EMERGENCY_TRIGGERED ->
    ae_event_id a = event_id e' ->
    ae_patient_id a = p ->
    transition w w'
| escalated p e e' a :
    active w !! p = Some e ->
    status e = PENDING_CONFIRMATION ->
    active w' = <[p := e']> (active w) ->
    audit w' = last_n 2000 (audit w ++ [a]) ->
    patient_id e' = patient_id e ->
    event_id e' = event_id e ->
    status e' = ESCALATED ->
    event_type a = EMERGENCY_ESCALATED ->
    transition w w'
| closed p e e' a :
    active w !! p = Some e ->
    active w' = <[p := e']> (active w) ->
    audit w' = last_n 2000 (audit w ++ [a]) ->
    patient_id e' = patient_id e ->
    event_id e' = event_id e ->
    is_terminal (status e') = true ->
    closes a = true ->
    ae_event_id a = event_id e ->
    transition w w'.

(** C3 as it is written, for the records one escalation appends: each
    records its outcome as a success boolean. *)
Definition all_record_success (records : list ActionRecord) : Prop :=
  forall a, a ∈ records -> exists ok, action_success a = Some ok.

(** A concrete environment: one second between two readings of the
    clock, the identifiers uuid-0, uuid-1, ..., no Twilio account. *)
Module Demo.
Definition utcnow (n : nat) : Timestamp := (Z.of_nat n * 1000000)%Z.
Definition uuid4 (n : nat) : string := "uuid-" ++ pretty n.
Definition voice_script (e : EmergencyEvent) : string :=
  "Emergency reference: " ++ event_id e ++ ".".

Definition trigger (patient_id : string) (key : option string)
  : Call TriggerResult :=
  trigger_emergency utcnow uuid4 patient_id MANUAL_SOS None None None
                    None None key.

Definition escalate (patient_id : string) : Call EmergencyEvent :=
  escalate_emergency utcnow false (fun _ => false) (fun _ => false)
                     voice_script patient_id None.

(** The store after [trigger_emergency("p1", "MANUAL_SOS",
    idempotency_key="k1")] on the empty store. *)
Definition triggered_once : World :=
  (trigger "p1" (Some "k1") empty_world).2.

(** The store after [escalate_emergency("p1")] on [triggered_once]. *)
Definition escalated_once : World :=
  (escalate "p1" triggered_once).2.

(** The store after [cancel_emergency("p1")] on [triggered_once]. *)
Definition cancelled_once : World :=
  (cancel_emergency utcnow "p1" "PATIENT" triggered_once).2.
End Demo.

End Emergency.

(** ** app.py: the vitals routes and the override route *)

Module App.

Import Vitals Emergency.

(** One stored reading: [{"timestamp": ..., "value": ...}]; the value
    is a double, kept as the rational it is. *)
Record Reading := {
  r_timestamp : string;
  r_value : Q;
}.

(** [vitals_store.json] as [submit_vitals] writes it: per patient, the
    dict under ["raw"], from a metric to its readings.  The dict under
    ["smoothed"] is created empty and never written. *)
Definition VitalsStore : Type := gmap string (gmap string (list Reading)).

Definition VITAL_KEYS : list string :=
  ["heart_rate"; "systolic_bp"; "diastolic_bp"; "spo2"; "temperature_f";
   "respiratory_rate"].

(** [{k: float(data[k]) for k in VITAL_KEYS if k in data}], as the
    sequence of its items; [data] gives for a key the double
    [float(data[k])], as the rational it is. *)
Definition extract_current (data : gmap string Q) : list (string * Q) :=
  omap (fun k => v ← data !! k; Some (k, v)) VITAL_KEYS.

(** The body of the loop that appends the reading of one metric and keeps
    the last 200. *)
Definition record_reading (timestamp : string)
           (raw : gmap string (list Reading)) (kv : string * Q)
  : gmap string (list Reading) :=
  let raw_history := default [] (raw !! kv.1) in
  let raw_history :=
    raw_history ++ [{| r_timestamp := timestamp; r_value := kv.2 |}] in
  <[kv.1 := last_n 200 raw_history]> raw.

(** The store after the loop over [current.items()]. *)
Definition record_all (timestamp : string) (current : list (string * Q))
           (raw : gmap string (list Reading)) : gmap string (list Reading) :=
  fold_left (record_reading timestamp) current raw.

(** [[r["value"] for r in readings]]. *)
Definition values (readings : list Reading) : list Q := map r_value readings.

(** The same list, as the doubles the engine computes with. *)
Definition float_values (readings : list Reading) : list Float.float :=
  map Float.of_Q (values readings).

(** [l[:-1]]. *)
Definition all_but_last {A} (l : list A) : list A := take (length l - 1) l.

(** The role of the caller as [optional_auth] leaves it in [g.user_role];
    [None] is a request without a valid token. *)
Definition Role : Type := option string.

Section Routes.

Variable utcnow : nat -> Timestamp.
Variable uuid4 : nat -> string.
Variable libm_pow : Float.float -> Float.float -> Float.float.

(** The loop of [submit_vitals] that triggers an emergency on the first
    result with [auto_emergency], unless one is active. *)
Fixpoint auto_trigger (patient_id timestamp : string)
         (current : gmap string Q) (threshold_results : list ThresholdResult)
  : Call (option TriggerResult) :=
  match threshold_results with
  | [] => ret None
  | tr :: rest =>
      if tr_auto_emergency tr then
        let* active := has_active_emergency patient_id in
        if negb active then
          let* event :=
            trigger_emergency utcnow uuid4 patient_id VITALS_CRITICAL
              (Some current) None None None None
              (Some ("auto_" ++ patient_id ++ "_" ++ timestamp)%string) in
          ret (Some event)
        else auto_trigger patient_id timestamp current rest
      else auto_trigger patient_id timestamp current rest
  end.

(** The JSON body of a 200 answer of [submit_vitals]. *)
Record Analysis := {
  an_patient_id : string;
  an_timestamp : string;
  current_vitals : list (string * Q);
  threshold_results : list ThresholdResult;
  outlier_results : list (string * OutlierResult);
  trends : list TrendResult;
  risk_flags : list RiskFlag;
  emergency_event : option TriggerResult;
}.


Inductive Response :=
| Ok200 (body : Analysis)
| Error400
| Error403
| Error500.

(** The store of the application: the vitals file and the two files of
    the emergency engine. *)
Record AppState := {
  vitals : VitalsStore;
  emergency : World;
}.

(** [submit_vitals]; [body_patient_id] is the field of the body if it has
    one, [timestamp] the field of the body or else the time of the
    request, [data] the numeric fields of the body.  An exception of
    [detect_outlier] is not caught: the answer is 500, after the vitals
    file was saved and before the loop that triggers an emergency. *)
Definition submit_vitals (user_role : Role) (user_id : option string)
           (body_patient_id : option string) (timestamp : string)
           (data : gmap string Q) (st : AppState) : Response * AppState :=
  if bool_decide (user_role = Some "CARETAKER") then (Error403, st)
  else
    let patient_id :=
      default (default "anonymous" (truthy user_id)) body_patient_id in
    let current := extract_current data in
    match current with
    | [] => (Error400, st)
    | _ =>
        let raw := default ∅ (vitals st !! patient_id) in
        let raw := record_all timestamp current raw in
        let store := <[patient_id := raw]> (vitals st) in
        let threshold_results := check_all_thresholds current in
        let outliers :=
          mapM (fun kv : string * Q =>
                  let history_vals :=
                    float_values
                      (all_but_last (default [] (raw !! kv.1))) in
                  r ← detect_outlier libm_pow (Float.of_Q kv.2)
                        history_vals default_z_threshold;
                  Float.Returns (kv.1, r))
               current in
        let trend_history :=
          map (fun kv : string * Q =>
                 (kv.1,
                  float_values (last_n 30 (default [] (raw !! kv.1)))))
              current in
        let trends := batch_trend_analysis trend_history in
        let current_map : gmap string Q := list_to_map current in
        let risk_flags :=
          generate_risk_flags current_map trends threshold_results in
        match outliers with
        | Float.Raises _ =>
            (Error500, {| vitals := store; emergency := emergency st |})
        | Float.Returns outlier_results =>
            let '(outcome, w) :=
              auto_trigger patient_id timestamp current_map
                           threshold_results (emergency st) in
            let st' := {| vitals := store; emergency := w |} in
            match outcome with
            | Returned auto_triggered =>
                (Ok200 {| an_patient_id := patient_id;
                          an_timestamp := timestamp;
                          current_vitals := current;
                          threshold_results := threshold_results;
                          outlier_results := outlier_results;
                          trends := trends;
                          risk_flags := risk_flags;
                          emergency_event := auto_triggered |}, st')
            | Raised _ => (Error500, st')
            end
        end
    end.

End Routes.

(** [min(vals)] and [max(vals)] on a list with the first element [x]:
    the first of the smallest, the first of the largest. *)
Definition py_min (x : Q) (rest : list Q) : Q :=
  fold_left (fun m v => if Num.ltb v m then v else m) rest x.

Definition py_max (x : Q) (rest : list Q) : Q :=
  fold_left (fun m v => if Num.ltb m v then v else m) rest x.

(** One entry of ["summary"] in the answer of [get_vitals_history]. *)
Record MetricSummary := {
  latest : Q;
  s_min : Q;
  s_max : Q;
  s_avg : Float.float;
  s_trend : TrendResult;
}.

(** [round(sum(vals) / len(vals), 2)] where [vals] is not empty. *)
Definition rounded_average (vals : list Float.float) : Float.float :=
  Float.round
    (Float.quotient (Float.sum vals) (Float.of_nat (length vals))) 2.

(** The body of the summary loop for one metric; [None] when the metric
    has no reading and is skipped. *)
Definition summary_of (metric : string) (readings : list Reading)
  : option MetricSummary :=
  let vals := values (last_n 24 readings) in
  let float_vals := float_values (last_n 24 readings) in
  match vals with
  | [] => None
  | x :: rest =>
      Some {| latest := List.last vals 0;
              s_min := py_min x rest;
              s_max := py_max x rest;
              s_avg := rounded_average float_vals;
              s_trend :=
                analyze_trend metric float_vals
                              default_stable_threshold_pct |}
  end.

(** The JSON body of a 200 answer of [get_vitals_history]. *)
Record History := {
  h_patient_id : string;
  h_raw : gmap string (list Reading);
  h_smoothed : gmap string (list Float.float);
  h_summary : gmap string MetricSummary;
}.

(** [get_vitals_history]: [None] is the 500 answer to an exception of
    [smooth_readings]. *)
Definition get_vitals_history (patient_id : string) (store : VitalsStore)
  : option History :=
  let raw := default ∅ (store !! patient_id) in
  let smoothed :=
    (fun readings =>
       Float.returned (smooth_readings (float_values readings) 3))
    <$> raw in
  if bool_decide (map_Forall
                    (fun _ (o : option (list Float.float)) => is_Some o)
                    smoothed)
  then Some {| h_patient_id := patient_id;
               h_raw := raw;
               h_smoothed := omap id smoothed;
               h_summary := map_imap summary_of raw |}
  else None.

(** [windows.get(period, 56)]. *)
Definition analytics_window (period : string) : nat :=
  if String.eqb period "daily" then 8
  else if String.eqb period "weekly" then 56
  else if String.eqb period "monthly" then 240
  else 56.

(** One entry of ["analytics"] in the answer of [analytics_summary]. *)
Record MetricAnalytics := {
  ma_period : string;
  reading_count : nat;
  ma_min : Q;
  ma_max : Q;
  ma_avg : Float.float;
  ma_latest : Q;
  ma_trend : TrendResult;
  threshold_status : option ThresholdResult;
}.

(** The body of the loop of [analytics_summary] for one metric; [None]
    when the metric has no reading and is skipped. *)
Definition analytics_of (period : string) (metric : string)
           (readings : list Reading) : option MetricAnalytics :=
  let recent := last_n (analytics_window period) readings in
  let vals := values recent in
  let float_vals := float_values recent in
  match vals with
  | [] => None
  | x :: rest =>
      Some {| ma_period := period;
              reading_count := length vals;
              ma_min := py_min x rest;
              ma_max := py_max x rest;
              ma_avg := rounded_average float_vals;
              ma_latest := List.last vals 0;
              ma_trend :=
                analyze_trend metric float_vals
                              default_stable_threshold_pct;
              threshold_status := check_threshold metric (List.last vals 0) |}
  end.

(** [analytics_summary]: the period of the answer and its analytics;
    [period] is the query parameter, when there is one. *)
Definition analytics_summary (period : option string) (patient_id : string)
           (store : VitalsStore) : string * gmap string MetricAnalytics :=
  let period := default "weekly" period in
  let raw := default ∅ (store !! patient_id) in
  (period, map_imap (analytics_of period) raw).

(** Every stored history is of one of the six vitals, has a reading and
    has at most 200. *)
Definition store_bounded (store : VitalsStore) : Prop :=
  forall p raw k h,
    store !! p = Some raw -> raw !! k = Some h ->
    k ∈ VITAL_KEYS /\ h <> [] /\ (length h <= 200)%nat.

(** The answers of [emergency_override]. *)
Inductive OverrideResponse :=
| OverrideOk (event : EmergencyEvent)
| Override400 (message : string)
| Override403.

(** [emergency_override]: [patient_id] and [caretaker_id] are the fields
    of the body, when it has them. *)
Definition emergency_override (utcnow : nat -> Timestamp)
           (user_role : Role) (patient_id caretaker_id : option string)
           (w : World) : OverrideResponse * World :=
  if negb (bool_decide (user_role = Some "CARETAKER")
           || bool_decide (user_role = Some "ADMIN")
           || bool_decide (user_role = None))
  then (Override403, w)
  else
    match truthy patient_id with
    | None => (Override400 "patient_id required", w)
    | Some patient_id =>
        match caretaker_override utcnow patient_id
                                 (default "unknown" caretaker_id) w with
        | (Returned event, w') => (OverrideOk event, w')
        | (Raised (ValueError msg), w') => (Override400 msg, w')
        | (Raised TypeError, w') => (Override400 "", w')
        end
    end.

(** A run of the routes: a patient sends a heart rate of 160 and an
    oxygen saturation of 97 at the time t1, on empty files. *)
Module Demo.
Definition data : gmap string Q := {[ "heart_rate" := 160; "spo2" := 97 ]}.

Definition start : AppState := {| vitals := ∅; emergency := empty_world |}.

Definition submit (data : gmap string Q) (st : AppState)
  : Response * AppState :=
  submit_vitals Emergency.Demo.utcnow Emergency.Demo.uuid4
                Float.square_pow (Some "PATIENT") (Some "p1") None "t1"
                data st.

Definition after_first : AppState := (submit data start).2.

End Demo.

End App.

(** ** rbac.py: roles and permissions *)

Module Rbac.

Definition VALID_ROLES : gset string := {["PATIENT"; "CARETAKER"; "ADMIN"]}.

Definition ROLE_PERMISSIONS : gmap string (gset string) :=
  list_to_map [
    ("PATIENT",
     list_to_set [
       "read_own_vitals"; "write_vitals"; "upload_report";
       "read_own_report"; "trigger_emergency"; "read_own_profile";
       "write_own_profile" ]);
    ("CARETAKER",
     list_to_set [
       "read_patient_vitals"; "read_patient_report";
       "read_patient_profile"; "acknowledge_emergency";
       "override_emergency"; "read_analytics" ]);
    ("ADMIN",
     list_to_set [
       "read_own_vitals"; "write_vitals"; "upload_report";
       "read_own_report"; "trigger_emergency"; "read_own_profile";
       "write_own_profile"; "read_patient_vitals"; "read_patient_report";
       "read_patient_profile"; "acknowledge_emergency";
       "override_emergency"; "read_analytics"; "read_audit_logs";
       "manage_users" ])
  ].

(** [permission in ROLE_PERMISSIONS.get(role, set())]. *)
Definition has_permission (role permission : string) : bool :=
  bool_decide (permission ∈ default ∅ (ROLE_PERMISSIONS !! role)).

End Rbac.
(** ** The statements the vitals engine is checked against *)

Module VitalsSpec.

Import Vitals.

(** The points (index, value) of a window, the index starting at 0. *)
Definition points (ys : list Q) : list (Q * Q) :=
  zip_with (fun xi yi => (inject_Z xi, yi)) (range (length ys)) ys.

(** The slope of the least-squares line through [points ys]: the
    covariance of index and value over the variance of the index. *)
Definition ols_slope (ys : list Q) : Q :=
  let n := inject_Z (Z.of_nat (length ys)) in
  let pts := points ys in
  let xbar := Num.sum (map fst pts) / n in
  let ybar := Num.sum (map snd pts) / n in
  Num.sum (map (fun p => (p.1 - xbar) * (p.2 - ybar)) pts)
  / Num.sum (map (fun p => (p.1 - xbar) * (p.1 - xbar)) pts).

(** The formula [analyze_trend] computes the slope by,
    (n * sum_xy - sum_x * sum_y) / (n * sum_x2 - sum_x ** 2), on exact
    numbers. *)
Definition slope_formula (ys : list Q) : Q :=
  let n := length ys in
  let x := range n in
  let sum_x := isum x in
  let sum_y := Num.sum ys in
  let sum_xy := Num.sum (zip_with (fun xi yi => inject_Z xi * yi) x ys) in
  (inject_Z (Z.of_nat n) * sum_xy - inject_Z sum_x * sum_y)
  / inject_Z (trend_denom n).

(** C5 as it is written, at one window of at least 3 readings: the
    direction by the change and the least-squares slope of the
    readings. *)
Definition claimed_direction (ys : list Q) : Direction :=
  let first_val := nth 0 ys 0 in
  let last_val := List.last ys 0 in
  let change_pct :=
    if Num.eqb first_val 0 then 0
    else (last_val - first_val) / first_val * 100 in
  if Num.leb (Qabs change_pct) 3 then stable
  else if Num.ltb 0 (ols_slope ys) then rising
  else falling.

(** A double that is the rational [q] up to a relative error of 1e-9,
    far more than the arithmetic of a window loses. *)
Definition agrees (x : Float.float) (q : Q) : Prop :=
  Qabs (Float.exact x - q) <= (1 # 1000000000) * Qabs q.

(** The first index of the trailing window that ends at [i]:
    max(0, i - w + 1). *)
Definition window_start (w : Z) (i : nat) : nat :=
  Z.to_nat (Z.max 0 (Z.of_nat i - w + 1)).

(** The average of the entries [window_start w i] through [i], on exact
    numbers. *)
Definition trailing_average (readings : list Q) (w : Z) (i : nat) : Q :=
  let s := window_start w i in
  Num.sum (map (fun j => nth j readings 0) (seq s (i + 1 - s)))
  / inject_Z (Z.of_nat (i + 1 - s)).

(** The same average in double arithmetic: the entries added from the
    left, the sum divided by their number. *)
Definition float_trailing_average (readings : list Float.float) (w : Z)
           (i : nat) : Float.float :=
  let s := window_start w i in
  Float.quotient
    (Float.sum (map (fun j => nth j readings Float.zero)
                    (seq s (i + 1 - s))))
    (Float.of_nat (i + 1 - s)).

(** C8 as it is written, at one input: a result of the length of the
    input, each entry the trailing average. *)
Definition smooth_claim (readings : list Float.float) (w : Z) : Prop :=
  exists out,
    smooth_readings readings w = Float.Returns out
    /\ length out = length readings
    /\ forall i, (i < length readings)%nat ->
         exists x, out !! i = Some x
                   /\ agrees x (trailing_average
                                  (map Float.exact readings) w i).

(** C7 as it is written, at one input: the deviation returned is
    (new_value - mu) / mu * 100, and 0 when mu = 0. *)
Definition deviation_claim
           (libm_pow : Float.float -> Float.float -> Float.float)
           (new_value : Float.float) (history : list Float.float) : Prop :=
  let mu :=
    Num.sum (map Float.exact history)
    / inject_Z (Z.of_nat (length history)) in
  exists r,
    detect_outlier libm_pow new_value history default_z_threshold
    = Float.Returns r
    /\ (~ mu == 0 ->
        agrees (deviation_pct r)
               ((Float.exact new_value - mu) / mu * 100))
    /\ (mu == 0 -> Float.exact (deviation_pct r) == 0).

End VitalsSpec.
(** ** Facts on doubles *)

Module FloatFacts.

Import Float.

Local Open Scope Z_scope.

(** A positive number of [d] binary digits lies in [2^(d-1), 2^d). *)
Lemma digits2_pos_bounds (p : positive) :
  2 ^ (Zpos (digits2_pos p) - 1) <= Zpos p < 2 ^ Zpos (digits2_pos p).
Proof.
  induction p as [p IH|p IH|]; cbn [digits2_pos].
  - rewrite Pos2Z.inj_succ.
    replace (Z.succ (Zpos (digits2_pos p)) - 1)
      with (Z.succ (Zpos (digits2_pos p) - 1)) by lia.
    rewrite !Z.pow_succ_r by lia. lia.
  - rewrite Pos2Z.inj_succ.
    replace (Z.succ (Zpos (digits2_pos p)) - 1)
      with (Z.succ (Zpos (digits2_pos p) - 1)) by lia.
    rewrite !Z.pow_succ_r by lia. lia.
  - cbn. lia.
Qed.

(** One step of the shift halves the mantissa. *)
Lemma shr_1_m (r : shr_record) :
  0 <= shr_m r -> shr_m (shr_1 r) = shr_m r / 2.
Proof.
  destruct r as [m r s]. cbn [shr_m]. intros Hm.
  destruct m as [|[p|p|]|p]; cbn [shr_1 shr_m]; try lia; try reflexivity.
  - apply Z.div_unique with 1; lia.
  - apply Z.div_unique with 0; lia.
Qed.

Lemma iter_shr_1_m (n : positive) :
  forall r, 0 <= shr_m r ->
            0 <= shr_m (SpecFloat.iter_pos shr_1 n r)
            /\ shr_m (SpecFloat.iter_pos shr_1 n r) = shr_m r / 2 ^ Zpos n.
Proof.
  assert (Hnn : forall a b, 0 <= a -> 0 < b -> 0 <= a / b)
    by (intros; apply Z.div_pos; lia).
  assert (Hp : forall k, 0 < 2 ^ Zpos k)
    by (intros; apply Z.pow_pos_nonneg; lia).
  induction n as [n IH|n IH|]; intros r Hr; cbn [SpecFloat.iter_pos].
  - assert (H1 : 0 <= shr_m (shr_1 r))
      by (rewrite shr_1_m by lia; apply Hnn; lia).
    destruct (IH _ H1) as [H2 E2]. destruct (IH _ H2) as [H3 E3].
    split; [exact H3|].
    rewrite E3, E2, shr_1_m by lia.
    pose proof (Hp n).
    rewrite !Z.div_div by lia. f_equal.
    change (Zpos n~1) with (2 * Zpos n + 1).
    replace (2 * Zpos n + 1) with (1 + Zpos n + Zpos n) by lia.
    rewrite !Z.pow_add_r by lia. lia.
  - destruct (IH _ Hr) as [H2 E2]. destruct (IH _ H2) as [H3 E3].
    split; [exact H3|].
    rewrite E3, E2.
    pose proof (Hp n).
    rewrite !Z.div_div by lia. f_equal.
    change (Zpos n~0) with (2 * Zpos n).
    replace (2 * Zpos n) with (Zpos n + Zpos n) by lia.
    rewrite !Z.pow_add_r by lia. lia.
  - rewrite shr_1_m by lia. split; [apply Hnn; lia | reflexivity].
Qed.

(** Rounding to the format keeps a positive mantissa positive, and the
    number of digits plus the exponent does not go down. *)
Lemma shr_fexp_pos (m : positive) (e : Z) (l : location) :
  SpecFloat.emin prec emax < e + Zpos (digits2_pos m) ->
  let '(r, e') := shr_fexp prec emax (Zpos m) e l in
  exists m', shr_m r = Zpos m'
             /\ e + Zpos (digits2_pos m) <= e' + Zpos (digits2_pos m').
Proof.
  intros Hemin. unfold shr_fexp, shr. cbn [Zdigits2].
  pose proof (digits2_pos_bounds m) as Hd.
  set (d := Zpos (digits2_pos m)) in *.
  assert (Hm0 : shr_m (shr_record_of_loc (Zpos m) l) = Zpos m)
    by (destruct l as [|[| |]]; reflexivity).
  destruct (fexp prec emax (d + e) - e) as [|n|n] eqn:En.
  - exists m. split; [exact Hm0 | lia].
  - assert (Hn : Zpos n < d).
    { unfold fexp, SpecFloat.emin, prec, emax in *. lia. }
    pose proof (iter_shr_1_m n (shr_record_of_loc (Zpos m) l)) as Hit.
    rewrite Hm0 in Hit. destruct (Hit ltac:(lia)) as [_ Hit'].
    assert (Hlow : 2 ^ (d - 1 - Zpos n) <= Zpos m / 2 ^ Zpos n).
    { apply Z.div_le_lower_bound; [lia|].
      rewrite <- Z.pow_add_r by lia.
      replace (Zpos n + (d - 1 - Zpos n)) with (d - 1) by lia. lia. }
    assert (0 < 2 ^ (d - 1 - Zpos n)) by (apply Z.pow_pos_nonneg; lia).
    rewrite <- Hit' in Hlow.
    destruct (shr_m (SpecFloat.iter_pos shr_1 n
                       (shr_record_of_loc (Zpos m) l)))
      as [|m'|m'] eqn:Em'; try lia.
    exists m'. split; [reflexivity|].
    pose proof (digits2_pos_bounds m') as Hd'.
    assert (d - 1 - Zpos n < Zpos (digits2_pos m')).
    { apply (Z.pow_lt_mono_r_iff 2); lia. }
    lia.
  - exists m. split; [exact Hm0 | lia].
Qed.

(** The nearest integer is not below the one the shift left. *)
Lemma round_nearest_even_ge (m : Z) (l : location) :
  m <= round_nearest_even m l.
Proof.
  destruct l as [|[| |]]; cbn; try lia. destruct (Z.even m); lia.
Qed.

Lemma binary_round_aux_nonzero (s : bool) (m : positive) (e : Z)
      (l : location) :
  SpecFloat.emin prec emax < e + Zpos (digits2_pos m) ->
  nonzero (binary_round_aux prec emax s (Zpos m) e l) = true.
Proof.
  intros Hemin. unfold binary_round_aux.
  pose proof (shr_fexp_pos m e l Hemin) as H1.
  destruct (shr_fexp prec emax (Zpos m) e l) as [r1 e1].
  destruct H1 as (m1 & Hm1 & He1).
  pose proof (round_nearest_even_ge (shr_m r1) (loc_of_shr_record r1)) as Hge.
  rewrite Hm1 in *.
  destruct (round_nearest_even (Zpos m1) (loc_of_shr_record r1))
    as [|m2|m2] eqn:Em2; try lia.
  assert (Hdig : Zpos (digits2_pos m1) <= Zpos (digits2_pos m2)).
  { pose proof (digits2_pos_bounds m1). pose proof (digits2_pos_bounds m2).
    assert (Zpos (digits2_pos m1) - 1 < Zpos (digits2_pos m2))
      by (apply (Z.pow_lt_mono_r_iff 2); lia).
    lia. }
  pose proof (shr_fexp_pos m2 e1 loc_Exact ltac:(lia)) as H2.
  destruct (shr_fexp prec emax (Zpos m2) e1 loc_Exact) as [r2 e2].
  destruct H2 as (m3 & Hm3 & _). rewrite Hm3.
  destruct (e2 <=? emax - prec); reflexivity.
Qed.

(** [float(z)] of an int that is not 0 is not 0.0. *)
Lemma of_Z_nonzero (z : Z) : z <> 0 -> nonzero (of_Z z) = true.
Proof.
  assert (H : forall s p,
             nonzero (binary_round prec emax s p 0) = true).
  { intros s p. unfold binary_round, shl_align.
    set (ex := fexp prec emax (Zpos (digits2_pos p) + 0)).
    assert (SpecFloat.emin prec emax <= ex)
      by (unfold ex, fexp; lia).
    destruct (ex - 0) as [|d|d] eqn:Ed;
      apply binary_round_aux_nonzero;
      unfold SpecFloat.emin, prec, emax in *; lia. }
  intros Hz. destruct z as [|p|p]; [contradiction| |]; apply H.
Qed.

Lemma nonzero_eqb (x : float) : nonzero x = true -> eqb x zero = false.
Proof.
  destruct x as [s|[|]| |[|] m e]; intros H; try discriminate H;
    reflexivity.
Qed.

Lemma of_nat_eqb_zero (n : nat) :
  (0 < n)%nat -> eqb (of_nat n) zero = false.
Proof. intros Hn. apply nonzero_eqb, of_Z_nonzero. lia. Qed.

(** Dividing by the length of a list that is not empty does not raise. *)
Lemma div_of_nat (x : float) (n : nat) :
  (0 < n)%nat -> div x (of_nat n) = Returns (quotient x (of_nat n)).
Proof.
  intros Hn. unfold div. rewrite of_nat_eqb_zero by exact Hn. reflexivity.
Qed.

End FloatFacts.


(** * Properties of the vitals engine *)

Module VitalsFacts.

Import Vitals VitalsSpec.

Lemma leb_le a b : Num.leb a b = true <-> (a <= b)%Q.
Proof. apply Qle_bool_iff. Qed.

Lemma leb_nle a b : Num.leb a b = false <-> ~ (a <= b)%Q.
Proof.
  unfold Num.leb. split.
  - intros H Hle. apply Qle_bool_iff in Hle. congruence.
  - intros H. destruct (Qle_bool a b) eqn:E; [|reflexivity].
    exfalso. apply H, Qle_bool_iff, E.
Qed.

Lemma ltb_lt a b : Num.ltb a b = true <-> (a < b)%Q.
Proof.
  unfold Num.ltb. rewrite negb_true_iff. fold (Num.leb b a).
  rewrite leb_nle. split; [apply Qnot_le_lt | apply Qlt_not_le].
Qed.

Lemma ltb_nlt a b : Num.ltb a b = false <-> (b <= a)%Q.
Proof.
  unfold Num.ltb. rewrite negb_false_iff. apply Qle_bool_iff.
Qed.

Lemma eqb_eq a b : Num.eqb a b = true <-> a == b.
Proof. apply Qeq_bool_iff. Qed.

Lemma eqb_neq a b : Num.eqb a b = false <-> ~ a == b.
Proof.
  unfold Num.eqb. split.
  - intros H E. apply Qeq_bool_iff in E. congruence.
  - intros H. destruct (Qeq_bool a b) eqn:E; [|reflexivity].
    exfalso. apply H, Qeq_bool_iff, E.
Qed.

Lemma spo2_band :
  THRESHOLDS !! "spo2" = Some (band "%" 88 92 95 100 100 100).
Proof. vm_compute. reflexivity. Qed.

(** ** Threshold evaluation *)

(** The claim of C4 about the reading 94 does not hold: 94 is above
    [warning_low = 92] and below [warning_high = 100], so no rule fires
    and the severity is [normal]. *)
Lemma spo2_94_is_not_warning :
  ~ (exists r, check_threshold "spo2" 94 = Some r
               /\ tr_severity r = warning).
Proof.
  intros (r & Hr & Hsev). vm_compute in Hr.
  injection Hr as <-. discriminate Hsev.
Qed.

(** C4, amended: [check_threshold("spo2", 85)] is critical with
    [auto_emergency]; [check_threshold("spo2", 94)] is normal; and for
    every tracked metric the result follows the first matching rule:
    value <= critical_low, critical and auto_emergency;
    value <= warning_low, warning; value >= critical_high, critical and
    auto_emergency; value >= warning_high, warning; otherwise normal. *)
Theorem check_threshold_first_match :
  (exists r, check_threshold "spo2" 85 = Some r
             /\ tr_severity r = critical /\ tr_auto_emergency r = true)
  /\ (exists r, check_threshold "spo2" 94 = Some r
                /\ tr_severity r = normal /\ tr_auto_emergency r = false)
  /\ forall metric value t,
      THRESHOLDS !! metric = Some t ->
      exists r,
        check_threshold metric value = Some r
        /\ ((value <= critical_low t)%Q ->
            tr_severity r = critical /\ tr_auto_emergency r = true)
        /\ (~ (value <= critical_low t)%Q ->
            (value <= warning_low t)%Q ->
            tr_severity r = warning /\ tr_auto_emergency r = false)
        /\ (~ (value <= critical_low t)%Q ->
            ~ (value <= warning_low t)%Q ->
            (critical_high t <= value)%Q ->
            tr_severity r = critical /\ tr_auto_emergency r = true)
        /\ (~ (value <= critical_low t)%Q ->
            ~ (value <= warning_low t)%Q ->
            ~ (critical_high t <= value)%Q ->
            (warning_high t <= value)%Q ->
            tr_severity r = warning /\ tr_auto_emergency r = false)
        /\ (~ (value <= critical_low t)%Q ->
            ~ (value <= warning_low t)%Q ->
            ~ (critical_high t <= value)%Q ->
            ~ (warning_high t <= value)%Q ->
            tr_severity r = normal /\ tr_auto_emergency r = false).
Proof.
  split; [|split].
  - eexists. split; [vm_compute; reflexivity|]. split; reflexivity.
  - eexists. split; [vm_compute; reflexivity|]. split; reflexivity.
  - intros metric value t Ht. unfold check_threshold. rewrite Ht.
    destruct (Num.leb value (critical_low t)) eqn:E1;
      [apply leb_le in E1 | apply leb_nle in E1].
    { eexists; split; [reflexivity|]. cbn. tauto. }
    destruct (Num.leb value (warning_low t)) eqn:E2;
      [apply leb_le in E2 | apply leb_nle in E2].
    { eexists; split; [reflexivity|]. cbn. tauto. }
    destruct (Num.leb (critical_high t) value) eqn:E3;
      [apply leb_le in E3 | apply leb_nle in E3].
    { eexists; split; [reflexivity|]. cbn. tauto. }
    destruct (Num.leb (warning_high t) value) eqn:E4;
      [apply leb_le in E4 | apply leb_nle in E4].
    { eexists; split; [reflexivity|]. cbn. tauto. }
    eexists; split; [reflexivity|]. cbn. tauto.
Qed.

(** The rule order at the reading 90 of SpO2: the second rule fires. *)
Lemma check_threshold_first_match_witness :
  exists r, check_threshold "spo2" 90 = Some r
            /\ tr_severity r = warning /\ tr_auto_emergency r = false.
Proof.
  destruct (proj2 (proj2 check_threshold_first_match)
                  "spo2" 90%Q _ spo2_band)
    as (r & Hr & _ & Hwarn & _).
  exists r. split; [exact Hr|].
  apply Hwarn; cbn; [intros H; vm_compute in H; apply H; reflexivity
                    | intros H; vm_compute in H; discriminate H].
Defined.

(** C9: a saturation of exactly 100 is critical with [auto_emergency],
    because [critical_high] of spo2 is 100 and the third rule is
    [value >= critical_high]; so is every reading of 100 or more. *)
Theorem spo2_100_is_critical :
  (exists t, THRESHOLDS !! "spo2" = Some t /\ critical_high t = 100%Q)
  /\ (exists r, check_threshold "spo2" 100 = Some r
                /\ tr_severity r = critical /\ tr_auto_emergency r = true)
  /\ forall value : Q,
      (100 <= value)%Q ->
      exists r, check_threshold "spo2" value = Some r
                /\ tr_severity r = critical
                /\ tr_auto_emergency r = true.
Proof.
  split; [|split].
  - eexists. split; [apply spo2_band | reflexivity].
  - eexists. split; [vm_compute; reflexivity|]. split; reflexivity.
  - intros value Hv. unfold check_threshold. rewrite spo2_band. cbn.
    assert (H1 : Num.leb value 88 = false).
    { apply leb_nle. intros H. apply (Qle_trans _ _ _ Hv) in H.
      vm_compute in H. apply H. reflexivity. }
    assert (H2 : Num.leb value 92 = false).
    { apply leb_nle. intros H. apply (Qle_trans _ _ _ Hv) in H.
      vm_compute in H. apply H. reflexivity. }
    assert (H3 : Num.leb 100 value = true) by (apply leb_le; exact Hv).
    rewrite H1, H2, H3. eexists. split; [reflexivity|]. split; reflexivity.
Qed.

Lemma spo2_100_is_critical_witness :
  exists r, check_threshold "spo2" 101 = Some r
            /\ tr_severity r = critical /\ tr_auto_emergency r = true.
Proof.
  apply (proj2 (proj2 spo2_100_is_critical) 101%Q).
  intros H. vm_compute in H. discriminate H.
Defined.

(** ** Risk flags *)

Lemma unique_flags_keeps_unseen seen (l : list RiskFlag) f :
  flag_id f ∉ seen ->
  (forall g, g ∈ l -> flag_id g <> flag_id f) ->
  f ∈ unique_flags seen (l ++ [f]).
Proof.
  revert seen. induction l as [|g l IH]; intros seen Hseen Hl; cbn.
  - destruct (decide (flag_id f ∈ seen)); [contradiction|]. left.
  - assert (Hg : flag_id g <> flag_id f) by (apply Hl; left).
    assert (Hrest : forall h, h ∈ l -> flag_id h <> flag_id f)
      by (intros h Hh; apply Hl; right; exact Hh).
    destruct (decide (flag_id g ∈ seen)).
    + apply IH; assumption.
    + right. apply IH; [|assumption].
      rewrite elem_of_union, elem_of_singleton.
      intros [Heq|Hin]; [congruence | contradiction].
Qed.

Lemma threshold_flags_not_combo tr g :
  g ∈ threshold_flags tr -> flag_id g <> "combo_hypertensive_tachycardia".
Proof.
  unfold threshold_flags.
  intros H. destruct (_ || _); [|by apply elem_of_nil in H].
  apply list_elem_of_singleton in H. subst g. cbn. discriminate.
Qed.

Lemma trend_flags_not_combo t g :
  g ∈ trend_flags t -> flag_id g <> "combo_hypertensive_tachycardia".
Proof.
  unfold trend_flags. intros H. apply elem_of_app in H.
  destruct H as [H|H].
  - destruct (_ && _); [|by apply elem_of_nil in H].
    destruct (_ || _).
    { apply list_elem_of_singleton in H. subst g. cbn. discriminate. }
    destruct (_ && _); [|by apply elem_of_nil in H].
    apply list_elem_of_singleton in H. subst g. cbn. discriminate.
  - destruct (_ && _); [|by apply elem_of_nil in H].
    destruct (Float.ltb _ _); [|by apply elem_of_nil in H].
    apply list_elem_of_singleton in H. subst g. cbn. discriminate.
Qed.

(** C6: when systolic_bp > 160 and heart_rate > 100 in the current
    vitals, the flags returned contain one with the id
    "combo_hypertensive_tachycardia" and severity critical, whatever the
    trends and the threshold results are. *)
Theorem combo_flag_always_raised
        (current_vitals : gmap string Q) (trends : list TrendResult)
        (threshold_results : list ThresholdResult) (sys_bp hr : Q) :
  current_vitals !! "systolic_bp" = Some sys_bp ->
  current_vitals !! "heart_rate" = Some hr ->
  (160 < sys_bp)%Q -> (100 < hr)%Q ->
  exists f,
    f ∈ generate_risk_flags current_vitals trends threshold_results
    /\ flag_id f = "combo_hypertensive_tachycardia"
    /\ severity f = critical.
Proof.
  intros Hs Hh Hsys Hhr.
  eexists {| flag_id := "combo_hypertensive_tachycardia";
             severity := critical;
             title := TitleCombined; detail := DetailCombo sys_bp hr;
             recommendation := UrgentEvaluation |}.
  split; [|split; reflexivity].
  unfold generate_risk_flags, combo_flags. rewrite Hs, Hh.
  cbn [default from_option id].
  apply ltb_lt in Hsys, Hhr. rewrite Hsys, Hhr. cbn [andb].
  rewrite app_assoc. apply unique_flags_keeps_unseen.
  - set_solver.
  - intros g Hg. cbn [flag_id]. apply elem_of_app in Hg.
    destruct Hg as [Hg|Hg]; apply list_elem_of_In, in_concat in Hg;
      destruct Hg as (fs & Hfs & Hg); apply in_map_iff in Hfs;
      destruct Hfs as (x & <- & _); apply list_elem_of_In in Hg.
    + eapply threshold_flags_not_combo, Hg.
    + eapply trend_flags_not_combo, Hg.
Qed.

Lemma combo_flag_always_raised_witness :
  exists f,
    f ∈ generate_risk_flags
          (list_to_map [("systolic_bp", 165%Q); ("heart_rate", 105%Q)])
          [] []
    /\ flag_id f = "combo_hypertensive_tachycardia"
    /\ severity f = critical.
Proof.
  apply (combo_flag_always_raised _ [] [] 165 105);
    vm_compute; reflexivity.
Defined.

(** ** Sums and the regression slope *)

Lemma fold_sum_acc (l : list Q) (a : Q) :
  fold_left Qplus l a == a + fold_left Qplus l 0.
Proof.
  revert a. induction l as [|x l IH]; intros a; cbn [fold_left].
  - ring.
  - rewrite (IH (a + x)), (IH (0 + x)). ring.
Qed.

Lemma sum_cons (x : Q) (l : list Q) : Num.sum (x :: l) == x + Num.sum l.
Proof. unfold Num.sum. cbn [fold_left]. rewrite fold_sum_acc. ring. Qed.

Lemma isum_acc (l : list Z) (a : Z) :
  fold_left Z.add l a = (a + fold_left Z.add l 0)%Z.
Proof.
  revert a. induction l as [|x l IH]; intros a; cbn [fold_left].
  - lia.
  - rewrite (IH (a + x)%Z), (IH (0 + x)%Z). lia.
Qed.

Lemma isum_cons (x : Z) (l : list Z) : isum (x :: l) = (x + isum l)%Z.
Proof. unfold isum. cbn [fold_left]. rewrite isum_acc. lia. Qed.

Lemma isum_app (l1 l2 : list Z) : isum (l1 ++ l2) = (isum l1 + isum l2)%Z.
Proof.
  induction l1 as [|x l1 IH]; [reflexivity|].
  cbn [app]. rewrite !isum_cons, IH. lia.
Qed.

Lemma range_S n : range (S n) = range n ++ [Z.of_nat n].
Proof. unfold range. rewrite seq_S, map_app. reflexivity. Qed.

Lemma isum_range n : (2 * isum (range n) = Z.of_nat n * (Z.of_nat n - 1))%Z.
Proof.
  induction n as [|n IH]; [reflexivity|].
  rewrite range_S, isum_app, isum_cons. cbn [isum fold_left]. lia.
Qed.

Lemma isum_range_sq n :
  (6 * isum (map (fun xi => xi ^ 2) (range n))
   = (Z.of_nat n - 1) * Z.of_nat n * (2 * Z.of_nat n - 1))%Z.
Proof.
  induction n as [|n IH]; [reflexivity|].
  rewrite range_S, map_app, isum_app. cbn [map]. rewrite isum_cons.
  cbn [isum fold_left]. nia.
Qed.

Lemma trend_denom_closed n :
  (12 * trend_denom n
   = Z.of_nat n ^ 2 * (Z.of_nat n - 1) * (Z.of_nat n + 1))%Z.
Proof.
  unfold trend_denom. cbv zeta.
  pose proof (isum_range n) as H1. pose proof (isum_range_sq n) as H2.
  nia.
Qed.

Lemma trend_denom_pos n : (2 <= n)%nat -> (0 < trend_denom n)%Z.
Proof.
  intros Hn. pose proof (trend_denom_closed n) as H.
  assert (0 < Z.of_nat n ^ 2 * (Z.of_nat n - 1) * (Z.of_nat n + 1))%Z by nia.
  lia.
Qed.

Lemma inject_Z_S n :
  inject_Z (Z.of_nat (S n)) == inject_Z (Z.of_nat n) + 1.
Proof. rewrite Nat2Z.inj_succ, <- Z.add_1_r, inject_Z_plus. reflexivity. Qed.

Lemma sum_centred_products (pts : list (Q * Q)) (a b : Q) :
  Num.sum (map (fun p => (p.1 - a) * (p.2 - b)) pts)
  == Num.sum (map (fun p => p.1 * p.2) pts)
     - a * Num.sum (map snd pts) - b * Num.sum (map fst pts)
     + inject_Z (Z.of_nat (length pts)) * a * b.
Proof.
  induction pts as [|p pts IH].
  - cbn. ring.
  - cbn [map length]. rewrite !sum_cons, IH, inject_Z_S. ring.
Qed.

Lemma sum_centred_squares (pts : list (Q * Q)) (a : Q) :
  Num.sum (map (fun p => (p.1 - a) * (p.1 - a)) pts)
  == Num.sum (map (fun p => p.1 * p.1) pts)
     - 2 * a * Num.sum (map fst pts)
     + inject_Z (Z.of_nat (length pts)) * a * a.
Proof.
  induction pts as [|p pts IH].
  - cbn. ring.
  - cbn [map length]. rewrite !sum_cons, IH, inject_Z_S. ring.
Qed.

Lemma sum_inject (xs : list Z) :
  Num.sum (map inject_Z xs) == inject_Z (isum xs).
Proof.
  induction xs as [|x xs IH]; [reflexivity|].
  cbn [map]. rewrite sum_cons, isum_cons, inject_Z_plus, IH. reflexivity.
Qed.

Lemma sum_inject_sq (xs : list Z) :
  Num.sum (map (fun x => inject_Z x * inject_Z x) xs)
  == inject_Z (isum (map (fun xi => xi ^ 2)%Z xs)).
Proof.
  induction xs as [|x xs IH]; [reflexivity|].
  cbn [map]. rewrite sum_cons, isum_cons, inject_Z_plus, IH.
  rewrite Z.pow_2_r, inject_Z_mult. reflexivity.
Qed.

Section Zipped.
Variables (xs : list Z) (ys : list Q).
Hypothesis same_length : length xs = length ys.

Let pts := zip_with (fun xi yi => (inject_Z xi, yi)) xs ys.

Lemma zipped_fst : map fst pts = map inject_Z xs.
Proof.
  subst pts. revert ys same_length.
  induction xs as [|x l IH]; intros [|y k] Hlen; try discriminate Hlen;
    [reflexivity|].
  cbn. f_equal. apply IH. now injection Hlen.
Qed.

Lemma zipped_snd : map snd pts = ys.
Proof.
  subst pts. revert ys same_length.
  induction xs as [|x l IH]; intros [|y k] Hlen; try discriminate Hlen;
    [reflexivity|].
  cbn. f_equal. apply IH. now injection Hlen.
Qed.

Lemma zipped_products :
  map (fun p => p.1 * p.2) pts
  = zip_with (fun xi yi => inject_Z xi * yi) xs ys.
Proof.
  subst pts. clear same_length. revert ys.
  induction xs as [|x l IH]; intros [|y k]; try reflexivity.
  cbn. f_equal. apply IH.
Qed.

Lemma zipped_squares :
  map (fun p => p.1 * p.1) pts
  = map (fun x => inject_Z x * inject_Z x) xs.
Proof.
  subst pts. revert ys same_length.
  induction xs as [|x l IH]; intros [|y k] Hlen; try discriminate Hlen;
    [reflexivity|].
  cbn. f_equal. apply IH. now injection Hlen.
Qed.

Lemma zipped_length : length pts = length ys.
Proof.
  subst pts. revert ys same_length.
  induction xs as [|x l IH]; intros [|y k] Hlen; try discriminate Hlen;
    [reflexivity|].
  cbn. f_equal. apply IH. now injection Hlen.
Qed.
End Zipped.

Lemma length_range n : length (range n) = n.
Proof. unfold range. rewrite length_map, length_seq. reflexivity. Qed.

(** On exact numbers the formula of the code is the least-squares
    slope. *)
Lemma slope_formula_is_ols (ys : list Q) :
  (2 <= length ys)%nat -> slope_formula ys == ols_slope ys.
Proof.
  intros Hn.
  pose proof (trend_denom_pos _ Hn) as Hden.
  pose proof (length_range (length ys)) as Hlen.
  unfold slope_formula, ols_slope, points. cbv zeta.
  set (pts := zip_with (fun xi yi => (inject_Z xi, yi)) (range (length ys)) ys).
  rewrite sum_centred_products, sum_centred_squares.
  unfold pts. rewrite (zipped_length _ _ Hlen).
  rewrite (zipped_products (range (length ys)) ys).
  rewrite (zipped_squares _ _ Hlen), (zipped_fst _ _ Hlen),
    (zipped_snd _ _ Hlen).
  rewrite sum_inject, sum_inject_sq.
  set (n := inject_Z (Z.of_nat (length ys))).
  set (sx := inject_Z (isum (range (length ys)))).
  set (sy := Num.sum ys).
  set (sxy := Num.sum (zip_with _ _ _)).
  set (sx2 := inject_Z (isum (map _ _))).
  assert (Hd : inject_Z (trend_denom (length ys)) == n * sx2 - sx * sx).
  { unfold trend_denom, n, sx, sx2. cbv zeta.
    rewrite Z.pow_2_r. unfold Z.sub, Qminus.
    rewrite inject_Z_plus, inject_Z_opp, !inject_Z_mult. reflexivity. }
  assert (Hd0 : ~ inject_Z (trend_denom (length ys)) == 0).
  { intros H. apply (proj1 (inject_Z_injective _ 0%Z)) in H. lia. }
  assert (Hn0 : ~ n == 0).
  { unfold n. intros H. apply (proj1 (inject_Z_injective _ 0%Z)) in H.
    lia. }
  rewrite Hd in Hd0 |- *.
  field. split; [exact Hn0|].
  intros H. apply Hd0. rewrite <- H. ring.
Qed.

(** ** Calls that return or raise *)

Lemma mapM_returns {A B} (f : A -> Float.Result B) (g : A -> B)
      (l : list A) :
  (forall x, x ∈ l -> f x = Float.Returns (g x)) ->
  mapM f l = Float.Returns (map g l).
Proof.
  induction l as [|x l IH]; intros H; [reflexivity|].
  cbn [mapM map]. rewrite (H x) by left.
  rewrite IH by (intros y Hy; apply H; right; exact Hy). reflexivity.
Qed.

Lemma mapM_raised {A B} (f : A -> Float.Result B) (l : list A)
      (e : Float.Error) :
  mapM f l = Float.Raises e -> exists x, x ∈ l /\ f x = Float.Raises e.
Proof.
  induction l as [|x l IH]; intros H; [discriminate H|].
  cbn [mapM] in H. destruct (f x) as [y|e'] eqn:Ex.
  - cbn [mbind Float.Result_bind] in H.
    destruct (mapM f l) as [ys|e'] eqn:El; [discriminate H|].
    injection H as ->. destruct (IH eq_refl) as (x' & Hx' & Hf).
    exists x'. split; [right; exact Hx' | exact Hf].
  - injection H as ->. exists x. split; [left | exact Ex].
Qed.

Lemma mapM_Forall2 {A B} (f : A -> Float.Result B) (l : list A)
      (out : list B) :
  mapM f l = Float.Returns out ->
  Forall2 (fun x y => f x = Float.Returns y) l out.
Proof.
  revert out. induction l as [|x l IH]; intros out H.
  - injection H as <-. constructor.
  - cbn [mapM] in H. destruct (f x) as [y|e] eqn:Ex; [|discriminate H].
    cbn [mbind Float.Result_bind] in H.
    destruct (mapM f l) as [ys|e] eqn:El; [|discriminate H].
    injection H as <-. constructor; [exact Ex | apply IH; reflexivity].
Qed.

(** [_mean] returns on a list that is not empty. *)
Lemma mean_returns (values : list Float.float) :
  (0 < length values)%nat ->
  _mean values
  = Float.Returns (Float.quotient (Float.sum values)
                                  (Float.of_nat (length values))).
Proof. intros H. apply FloatFacts.div_of_nat, H. Qed.

(** ** Trend analysis *)

Lemma trend_slope_quotient (readings : list Float.float) :
  (2 <= length readings)%nat ->
  let n := length readings in
  trend_slope readings
  = Float.quotient
      (Float.sub
         (Float.mul (Float.of_nat n)
            (Float.sum (zip_with (fun xi yi => Float.mul (Float.of_Z xi) yi)
                                 (range n) readings)))
         (Float.mul (Float.of_Z (isum (range n))) (Float.sum readings)))
      (Float.of_Z (trend_denom n)).
Proof.
  intros Hn n. unfold trend_slope. cbv zeta. fold n.
  pose proof (trend_denom_pos n Hn) as Hd.
  destruct (Z.eqb_spec (trend_denom n) 0) as [E|_]; [lia|]. reflexivity.
Qed.

(** C5, amended: a window of fewer than 3 points is
    [insufficient_data], with slope and change 0.  Otherwise change_pct
    is (last - first) / first * 100 in double arithmetic (0 when first
    is 0) and slope is (n * sum_xy - sum_x * sum_y) / denom in double
    arithmetic, where sum_x = n(n-1)/2 and denom = n^2 (n^2 - 1) / 12
    are integers and denom is not 0; the direction is stable when
    |change_pct| <= the threshold, rising when it is not and slope > 0,
    and falling otherwise; the two numbers are returned rounded to 2 and
    to 4 decimals.  On exact numbers the formula of the slope is the
    least-squares slope of value against the index 0..n-1.  For
    [120, 130, 145] the change is 20.83 and the direction rising; for
    [70, 70, 70] the direction is stable and the change 0. *)
Theorem analyze_trend_classification :
  (forall metric readings thr,
      (length readings < 3)%nat ->
      let r := analyze_trend metric readings thr in
      direction r = insufficient_data
      /\ change_pct_over_window r = Float.zero
      /\ slope_per_reading r = Float.zero)
  /\ (forall metric readings thr,
         (3 <= length readings)%nat ->
         let n := length readings in
         let first_val := nth 0 readings Float.zero in
         let last_val := List.last readings Float.zero in
         let r := analyze_trend metric readings thr in
         exists change_pct slope sum_x denom,
           (Float.eqb first_val Float.zero = false ->
            change_pct
            = Float.mul
                (Float.quotient (Float.sub last_val first_val) first_val)
                (Float.of_Z 100))
           /\ (Float.eqb first_val Float.zero = true ->
               change_pct = Float.zero)
           /\ (2 * sum_x = Z.of_nat n * (Z.of_nat n - 1))%Z
           /\ (12 * denom = Z.of_nat n ^ 2 * (Z.of_nat n ^ 2 - 1))%Z
           /\ slope
              = Float.quotient
                  (Float.sub
                     (Float.mul (Float.of_nat n)
                        (Float.sum
                           (zip_with
                              (fun xi yi => Float.mul (Float.of_Z xi) yi)
                              (range n) readings)))
                     (Float.mul (Float.of_Z sum_x) (Float.sum readings)))
                  (Float.of_Z denom)
           /\ (Float.leb (Float.abs change_pct) thr = true ->
               direction r = stable)
           /\ (Float.leb (Float.abs change_pct) thr = false ->
               Float.ltb Float.zero slope = true -> direction r = rising)
           /\ (Float.leb (Float.abs change_pct) thr = false ->
               Float.ltb Float.zero slope = false ->
               direction r = falling)
           /\ change_pct_over_window r = Float.round change_pct 2
           /\ slope_per_reading r = Float.round slope 4)
  /\ (forall ys : list Q,
         (2 <= length ys)%nat -> slope_formula ys == ols_slope ys)
  /\ (let r := analyze_trend "systolic_bp"
                             (map Float.of_Q [120; 130; 145])
                             default_stable_threshold_pct in
      direction r = rising
      /\ change_pct_over_window r = Float.of_Q (2083 # 100)
      /\ Qabs (Float.exact (change_pct_over_window r) - (208 # 10))
         < (5 # 100))
  /\ (let r := analyze_trend "heart_rate" (map Float.of_Q [70; 70; 70])
                             default_stable_threshold_pct in
      direction r = stable /\ change_pct_over_window r = Float.zero).
Proof.
  split; [|split; [|split; [|split]]].
  - intros metric readings thr Hn. unfold analyze_trend.
    apply Nat.ltb_lt in Hn. rewrite Hn. repeat split.
  - intros metric readings thr Hn n first_val last_val r.
    exists (trend_change_pct readings), (trend_slope readings),
      (isum (range n)), (trend_denom n).
    assert (Hlt : (length readings <? 3)%nat = false)
      by (apply Nat.ltb_ge; exact Hn).
    split; [|split; [|split; [|split; [|split]]]].
    + intros H. unfold trend_change_pct. fold first_val last_val.
      rewrite H. reflexivity.
    + intros H. unfold trend_change_pct. fold first_val.
      rewrite H. reflexivity.
    + apply isum_range.
    + rewrite trend_denom_closed. ring.
    + apply trend_slope_quotient. lia.
    + subst r. unfold analyze_trend. rewrite Hlt.
      destruct (Float.leb (Float.abs (trend_change_pct readings)) thr)
        eqn:E1.
      { cbn. repeat split; intros; congruence. }
      destruct (Float.ltb Float.zero (trend_slope readings)) eqn:E2;
        cbn; repeat split; intros; congruence.
  - apply slope_formula_is_ols.
  - vm_compute. repeat split.
  - vm_compute. repeat split.
Qed.

Lemma analyze_trend_classification_witness :
  direction (analyze_trend "spo2" (map Float.of_Q [98; 97])
                           default_stable_threshold_pct)
  = insufficient_data
  /\ direction (analyze_trend "spo2" (map Float.of_Q [98; 95; 90])
                              default_stable_threshold_pct) = falling.
Proof.
  split.
  - apply (proj1 analyze_trend_classification). cbn. lia.
  - destruct (proj1 (proj2 analyze_trend_classification)
                    "spo2" (map Float.of_Q [98; 95; 90])
                    default_stable_threshold_pct)
      as (c & s & sx & d & Hc & _ & Hsx & Hd & Hs & _ & _ & Hf & _).
    { cbn. lia. }
    assert (sx = 3%Z) by (cbn in Hsx; lia).
    assert (d = 6%Z) by (cbn in Hd; lia).
    subst sx d. apply Hf.
    + rewrite Hc by (vm_compute; reflexivity). vm_compute. reflexivity.
    + rewrite Hs. vm_compute. reflexivity.
Defined.

(** C5 as written fails: the slope the code computes is the
    least-squares slope up to rounding only, and its sign decides the
    direction.  For [84.4, 90.4, 70.9, 90.9] the change is 7.7 percent
    and for [96.2, 104.0, 92.6, 100.0] it is 3.95 percent; for both the
    least-squares slope is 0 (and below 0 for the doubles nearest to
    the readings), so the direction claimed is falling; the code
    computes a slope above 0 and reports rising. *)
Lemma trend_direction_not_always_claimed :
  (let decimals := [844 # 10; 904 # 10; 709 # 10; 909 # 10] in
   let readings := map Float.of_Q decimals in
   direction (analyze_trend "heart_rate" readings
                            default_stable_threshold_pct) = rising
   /\ claimed_direction (map Float.exact readings) = falling
   /\ claimed_direction decimals = falling)
  /\ (let decimals := [962 # 10; 104; 926 # 10; 100] in
      let readings := map Float.of_Q decimals in
      direction (analyze_trend "heart_rate" readings
                               default_stable_threshold_pct) = rising
      /\ claimed_direction (map Float.exact readings) = falling
      /\ claimed_direction decimals = falling).
Proof. vm_compute. repeat split. Qed.

(** ** Smoothing *)

Lemma slice_as_indices {A} (d : A) (l : list A) (s n : nat) :
  (s + n <= length l)%nat ->
  take n (drop s l) = map (fun j => nth j l d) (seq s n).
Proof.
  revert s. induction n as [|n IH]; intros s Hlen.
  - rewrite take_0. reflexivity.
  - destruct (lookup_lt_is_Some_2 l s) as [x Hx]; [lia|].
    rewrite (drop_S _ _ _ Hx). cbn [take seq map].
    rewrite (nth_lookup_Some _ _ _ _ Hx).
    f_equal. apply IH. lia.
Qed.

(** The entry [smooth_readings] computes at an index of the list, for a
    window of at least 1. *)
Lemma smooth_entry (readings : list Float.float) (w : Z) (i : nat) :
  (1 <= w)%Z -> (i < length readings)%nat ->
  (let start := Z.to_nat (Z.max 0 (Z.of_nat i - w + 1)) in
   m ← _mean (slice readings start (i + 1));
   Float.Returns (Float.round m 2))
  = Float.Returns (Float.round (float_trailing_average readings w i) 2).
Proof.
  intros Hw Hi. cbv zeta. fold (window_start w i). unfold slice.
  assert (Hs : (window_start w i <= i)%nat)
    by (unfold window_start; lia).
  rewrite (slice_as_indices Float.zero) by lia.
  rewrite mean_returns by (rewrite length_map, length_seq; lia).
  rewrite length_map, length_seq. reflexivity.
Qed.

(** C8, amended: when the list is shorter than the window the readings
    are returned as they are; when 1 <= w <= len(readings) the result has
    the length of the input and its i-th entry is the average of the
    entries max(0, i-w+1) through i in double arithmetic (the entries
    added from the left, the sum divided by their number), rounded to
    two decimals. *)
Theorem smooth_readings_trailing_average (readings : list Float.float)
        (w : Z) :
  ((Z.of_nat (length readings) < w)%Z ->
   smooth_readings readings w = Float.Returns readings)
  /\ ((1 <= w <= Z.of_nat (length readings))%Z ->
      exists out,
        smooth_readings readings w = Float.Returns out
        /\ length out = length readings
        /\ forall i, (i < length readings)%nat ->
             out !! i
             = Some (Float.round
                       (float_trailing_average readings w i) 2)).
Proof.
  split.
  - intros Hw. unfold smooth_readings.
    apply Z.ltb_lt in Hw. rewrite Hw. reflexivity.
  - intros [Hw1 Hw2].
    set (g := fun i =>
                Float.round (float_trailing_average readings w i) 2).
    exists (map g (seq 0 (length readings))).
    split; [|split].
    + unfold smooth_readings.
      destruct (Z.ltb_spec (Z.of_nat (length readings)) w) as [Hlt|_];
        [lia|].
      apply mapM_returns. intros i Hi.
      apply elem_of_seq in Hi. destruct Hi as [_ Hi]. cbn in Hi.
      apply smooth_entry; lia.
    + rewrite length_map, length_seq. reflexivity.
    + intros i Hi. rewrite list_lookup_fmap, lookup_seq_lt by exact Hi.
      reflexivity.
Qed.

Lemma smooth_readings_trailing_average_witness :
  smooth_readings (map Float.of_Q [1; 3]) 3
  = Float.Returns (map Float.of_Q [1; 3])
  /\ exists out,
      smooth_readings (map Float.of_Q [0; 0; 0; 0; 1 # 8]) 5
      = Float.Returns out
      /\ out !! 4%nat = Some (Float.of_Q (3 # 100)).
Proof.
  split.
  - apply (proj1 (smooth_readings_trailing_average
                    (map Float.of_Q [1; 3]) 3)).
    cbn. lia.
  - destruct (proj2 (smooth_readings_trailing_average
                       (map Float.of_Q [0; 0; 0; 0; 1 # 8]) 5))
      as (out & Hout & _ & Hi); [cbn; lia|].
    exists out. split; [exact Hout|].
    rewrite (Hi 4%nat) by (cbn; lia). vm_compute. reflexivity.
Defined.

(** C8 as written fails: a list shorter than the window is returned
    unchanged, not averaged; the averages are rounded to two decimals;
    and a window of 0 divides by zero. *)
Lemma smooth_readings_not_always_average :
  ~ smooth_claim (map Float.of_Q [1; 3]) 3
  /\ ~ smooth_claim (map Float.of_Q [1; 1; 2]) 3
  /\ ~ smooth_claim (map Float.of_Q [1]) 0.
Proof.
  split; [|split]; intros (out & Hout & _ & Hi).
  - vm_compute in Hout. injection Hout as <-.
    destruct (Hi 1%nat) as (x & Hx & Hval); [cbn; lia|].
    injection Hx as <-. vm_compute in Hval. apply Hval. reflexivity.
  - vm_compute in Hout. injection Hout as <-.
    destruct (Hi 2%nat) as (x & Hx & Hval); [cbn; lia|].
    injection Hx as <-. vm_compute in Hval. apply Hval. reflexivity.
  - vm_compute in Hout. discriminate Hout.
Qed.

(** ** Outlier detection *)

(** [x ** 2] raises nothing but [OverflowError]. *)
Lemma float_pow2_raises libm_pow (x : Float.float) (e : Float.Error) :
  float_pow2 libm_pow x = Float.Raises e -> e = Float.OverflowError.
Proof.
  unfold float_pow2. destruct x; try discriminate.
  destruct (Float.eqb _ _); [discriminate|].
  destruct (Float.is_infinite _); [|discriminate].
  intros H. injection H as <-. reflexivity.
Qed.

(** [_std] on a list that is not empty: the division does not raise;
    what raises is the square of a deviation, or the square root. *)
Lemma std_raises libm_pow (values : list Float.float)
      (mean : Float.float) (e : Float.Error) :
  (0 < length values)%nat ->
  _std libm_pow values mean = Float.Raises e ->
  (e = Float.OverflowError
   /\ exists v, v ∈ values
                /\ float_pow2 libm_pow (Float.sub v mean)
                   = Float.Raises Float.OverflowError)
  \/ (e = Float.MathDomainError
      /\ exists squares,
          mapM (fun v => float_pow2 libm_pow (Float.sub v mean)) values
          = Float.Returns squares
          /\ Float.ltb (Float.quotient (Float.sum squares)
                                       (Float.of_nat (length values)))
                       Float.zero = true).
Proof.
  intros Hlen. unfold _std.
  destruct (mapM _ values) as [squares|e'] eqn:Esq.
  - cbn [mbind Float.Result_bind].
    rewrite FloatFacts.div_of_nat by exact Hlen.
    cbn [mbind Float.Result_bind]. unfold math_sqrt.
    destruct (Float.ltb _ Float.zero) eqn:Eneg; [|discriminate].
    intros H. injection H as <-. right. split; [reflexivity|].
    exists squares. split; [reflexivity | exact Eneg].
  - cbn [mbind Float.Result_bind]. intros H. injection H as ->.
    destruct (mapM_raised _ _ _ Esq) as (v & Hv & Hf).
    pose proof (float_pow2_raises _ _ _ Hf) as ->.
    left. split; [reflexivity|]. exists v. split; [exact Hv | exact Hf].
Qed.

(** A deviation that is not below 1e-6 is not 0. *)
Lemma sigma_not_small (sigma : Float.float) :
  Float.ltb sigma (Float.of_Q (1 # 1000000)) = false ->
  Float.eqb sigma Float.zero = false.
Proof.
  destruct sigma as [[|]|[|]| |[|] m e]; intros H; try reflexivity;
    vm_compute in H; discriminate H.
Qed.

(** [detect_outlier] on a history of at least 5 readings: it raises
    what [_std] raises, and returns otherwise. *)
Lemma detect_outlier_long libm_pow (new_value : Float.float)
      (history : list Float.float) (z_threshold : Float.float) :
  (5 <= length history)%nat ->
  let mu := Float.quotient (Float.sum history)
                           (Float.of_nat (length history)) in
  (forall e, _std libm_pow history mu = Float.Raises e ->
             detect_outlier libm_pow new_value history z_threshold
             = Float.Raises e)
  /\ (forall sigma,
         _std libm_pow history mu = Float.Returns sigma ->
         exists r,
           detect_outlier libm_pow new_value history z_threshold
           = Float.Returns r
           /\ (Float.ltb sigma (Float.of_Q (1 # 1000000)) = true ->
               deviation_pct r = Float.zero
               /\ z_score r = Float.abs (Float.sub new_value mu)
               /\ is_outlier r = Float.ltb Float.one (z_score r))
           /\ (Float.ltb sigma (Float.of_Q (1 # 1000000)) = false ->
               let z := Float.quotient (Float.sub new_value mu) sigma in
               z_score r = Float.round z 3
               /\ is_outlier r = Float.leb z_threshold (Float.abs z)
               /\ deviation_pct r
                  = if Float.eqb mu Float.zero then Float.zero
                    else Float.round
                           (Float.mul
                              (Float.quotient (Float.sub new_value mu) mu)
                              (Float.of_Z 100)) 2)).
Proof.
  intros Hlen mu. unfold detect_outlier.
  destruct (Nat.ltb_spec (length history) 5) as [Hlt|_]; [lia|].
  rewrite mean_returns by lia. cbn [mbind Float.Result_bind]. fold mu.
  split.
  - intros e ->. reflexivity.
  - intros sigma ->. cbn [mbind Float.Result_bind].
    destruct (Float.ltb sigma (Float.of_Q (1 # 1000000))) eqn:E1.
    + eexists. split; [reflexivity|]. cbn [deviation_pct z_score is_outlier].
      split; [intros _; repeat split | discriminate].
    + unfold Float.div. rewrite (sigma_not_small _ E1).
      cbn [mbind Float.Result_bind].
      destruct (Float.eqb mu Float.zero) eqn:E2; cbn [negb];
        cbn [mbind Float.Result_bind]; (eexists; split; [reflexivity|]);
        cbn [deviation_pct z_score is_outlier];
        (split; [discriminate | intros _; repeat split]).
Qed.

(** C7, amended: for a history of at least 5 points, with mu its mean
    in double arithmetic, [detect_outlier] raises when [_std] does (an
    [OverflowError] of a squared deviation) and returns otherwise: the
    deviation returned is 0 when sigma < 1e-6; otherwise it is
    (new_value - mu) / mu * 100 in double arithmetic, rounded to two
    decimals, and 0 when mu = 0. *)
Theorem detect_outlier_deviation
        (libm_pow : Float.float -> Float.float -> Float.float)
        (new_value : Float.float) (history : list Float.float)
        (z_threshold : Float.float) :
  (5 <= length history)%nat ->
  let mu := Float.quotient (Float.sum history)
                           (Float.of_nat (length history)) in
  _mean history = Float.Returns mu
  /\ (forall e,
         _std libm_pow history mu = Float.Raises e ->
         detect_outlier libm_pow new_value history z_threshold
         = Float.Raises e
         /\ e <> Float.ZeroDivisionError)
  /\ (forall sigma,
         _std libm_pow history mu = Float.Returns sigma ->
         exists r,
           detect_outlier libm_pow new_value history z_threshold
           = Float.Returns r
           /\ (Float.ltb sigma (Float.of_Q (1 # 1000000)) = true ->
               deviation_pct r = Float.zero)
           /\ (Float.ltb sigma (Float.of_Q (1 # 1000000)) = false ->
               Float.eqb mu Float.zero = false ->
               deviation_pct r
               = Float.round
                   (Float.mul
                      (Float.quotient (Float.sub new_value mu) mu)
                      (Float.of_Z 100)) 2)
           /\ (Float.ltb sigma (Float.of_Q (1 # 1000000)) = false ->
               Float.eqb mu Float.zero = true ->
               deviation_pct r = Float.zero)).
Proof.
  intros Hlen mu.
  destruct (detect_outlier_long libm_pow new_value history z_threshold
                                Hlen) as [Hraise Hret].
  fold mu in Hraise, Hret.
  split; [apply mean_returns; lia|]. split.
  - intros e He. split; [apply Hraise, He|].
    assert (Hpos : (0 < length history)%nat) by lia.
    destruct (std_raises _ _ _ _ Hpos He) as [[-> _]|[-> _]];
      discriminate.
  - intros sigma Hs. destruct (Hret sigma Hs) as (r & Hr & Hsmall & Hbig).
    exists r. split; [exact Hr|]. split; [|split].
    + intros H. apply Hsmall, H.
    + intros H Hmu. destruct (Hbig H) as (_ & _ & Hd).
      rewrite Hmu in Hd. exact Hd.
    + intros H Hmu. destruct (Hbig H) as (_ & _ & Hd).
      rewrite Hmu in Hd. exact Hd.
Qed.

Lemma detect_outlier_deviation_witness :
  exists r,
    detect_outlier Float.square_pow (Float.of_Z 35)
                   (map Float.of_Q [42; 48; 47; 39; 48])
                   default_z_threshold
    = Float.Returns r
    /\ deviation_pct r = Float.of_Q (- (2187 # 100)).
Proof.
  destruct (detect_outlier_deviation
              Float.square_pow (Float.of_Z 35)
              (map Float.of_Q [42; 48; 47; 39; 48]) default_z_threshold)
    as (_ & _ & Hret); [cbn; lia|].
  edestruct Hret as (r & Hr & _ & Hdev & _); [vm_compute; reflexivity|].
  exists r. split; [exact Hr|].
  rewrite Hdev by (vm_compute; reflexivity). vm_compute. reflexivity.
Defined.

(** C7 as written fails: on a constant history the deviation returned
    is 0 although the new value is 67 percent above the mean; and the
    deviation returned is rounded to two decimals. *)
Lemma deviation_not_always_relative :
  ~ deviation_claim Float.square_pow (Float.of_Z 100)
                    (map Float.of_Q [60; 60; 60; 60; 60])
  /\ ~ deviation_claim Float.square_pow (Float.of_Z 100)
                       (map Float.of_Q [60; 62; 61; 59; 60]).
Proof.
  split; intros (r & Hr & Hdev & _).
  - vm_compute in Hr. injection Hr as <-.
    assert (H : ~ Num.sum (map Float.exact
                               (map Float.of_Q [60; 60; 60; 60; 60]))
                  / inject_Z (Z.of_nat 5) == 0)
      by (intros H; vm_compute in H; discriminate H).
    apply Hdev in H. vm_compute in H. apply H. reflexivity.
  - vm_compute in Hr. injection Hr as <-.
    assert (H : ~ Num.sum (map Float.exact
                               (map Float.of_Q [60; 62; 61; 59; 60]))
                  / inject_Z (Z.of_nat 5) == 0)
      by (intros H; vm_compute in H; discriminate H).
    apply Hdev in H. vm_compute in H. apply H. reflexivity.
Qed.

End VitalsFacts.

(** * Properties of the emergency engine *)

Module EmergencyFacts.

Import Emergency.

(** ** The invariants and the four transitions *)

(** The key of a stored event is its patient. *)
Definition keyed_by_patient (w : World) : Prop :=
  forall k e, active w !! k = Some e -> patient_id e = k.

Lemma keyed_at_most_one w : keyed_by_patient w -> at_most_one_active w.
Proof.
  intros Hk p k1 k2 e1 e2 H1 H2 Hp1 Hp2 _ _.
  assert (k1 = k2) as <-.
  { rewrite <- (Hk _ _ H1), <- (Hk _ _ H2). congruence. }
  split; [reflexivity | congruence].
Qed.

Lemma transition_keyed w w' :
  transition w w' -> keyed_by_patient w -> keyed_by_patient w'.
Proof.
  intros [Ha _ | p e' a _ Ha _ Hp _ _ _ _
          | p e e' a He _ Ha _ Hp _ _ _
          | p e e' a He Ha _ Hp _ _ _ _] Hk k e0; rewrite Ha.
  - apply Hk.
  - destruct (decide (p = k)) as [<-|Hne].
    + rewrite lookup_insert_eq. intros [= <-]. exact Hp.
    + rewrite lookup_insert_ne by exact Hne. apply Hk.
  - destruct (decide (p = k)) as [<-|Hne].
    + rewrite lookup_insert_eq. intros [= <-]. rewrite Hp. apply Hk, He.
    + rewrite lookup_insert_ne by exact Hne. apply Hk.
  - destruct (decide (p = k)) as [<-|Hne].
    + rewrite lookup_insert_eq. intros [= <-]. rewrite Hp. apply Hk, He.
    + rewrite lookup_insert_ne by exact Hne. apply Hk.
Qed.

Lemma open_trigger_last_n n log a :
  open_trigger (last_n n log) a -> open_trigger log a.
Proof.
  intros (Hty & before & after & Hlog & Hafter). split; [exact Hty|].
  exists (take (length log - n) log ++ before), after.
  split; [|exact Hafter].
  rewrite <- app_assoc, <- Hlog. unfold last_n.
  symmetry. apply take_drop.
Qed.

Lemma open_trigger_snoc log b a :
  open_trigger (log ++ [b]) a ->
  (a = b /\ event_type b = EMERGENCY_TRIGGERED)
  \/ (open_trigger log a
      /\ (closes b = true -> ae_event_id b <> ae_event_id a)).
Proof.
  intros (Hty & before & after & Hlog & Hafter).
  destruct after as [|x after _] using rev_ind.
  - left. apply app_inj_tail in Hlog. destruct Hlog as [_ <-].
    split; [reflexivity | exact Hty].
  - right. rewrite app_comm_cons, app_assoc in Hlog.
    apply app_inj_tail in Hlog. destruct Hlog as [-> <-].
    split.
    + split; [exact Hty|]. exists before, after. split; [reflexivity|].
      intros c Hc. apply Hafter. apply elem_of_app. left. exact Hc.
    + apply Hafter. apply elem_of_app. right. left.
Qed.

Lemma transition_ledger w w' :
  transition w w' -> ledger_agrees w -> ledger_agrees w'.
Proof.
  intros [Ha Hl | p e' a0 Hfree Ha Hl Hp Hs Hty Hid Hpa
          | p e e' a0 He Hs Ha Hl Hp Hid Hs' Hty
          | p e e' a0 He Ha Hl Hp Hid Hterm Hcl Hid0] Hinv a Hopen;
    rewrite Ha; rewrite Hl in Hopen.
  - apply Hinv, Hopen.
  - apply open_trigger_last_n, open_trigger_snoc in Hopen.
    destruct Hopen as [[-> _] | [Hopen _]].
    + rewrite Hpa, lookup_insert_eq. exists e'.
      split; [reflexivity|]. split; [congruence|].
      unfold non_terminal. rewrite Hs. reflexivity.
    + destruct (Hinv a Hopen) as (e1 & He1 & Hid1 & Hnt).
      destruct (decide (p = ae_patient_id a)) as [Heq|Hne].
      * rewrite <- Heq in He1. unfold non_terminal in Hnt.
        rewrite (Hfree _ He1) in Hnt.
        discriminate Hnt.
      * rewrite lookup_insert_ne by exact Hne. exists e1. auto.
  - apply open_trigger_last_n, open_trigger_snoc in Hopen.
    destruct Hopen as [[-> Hty'] | [Hopen _]]; [congruence|].
    destruct (Hinv a Hopen) as (e1 & He1 & Hid1 & Hnt).
    destruct (decide (p = ae_patient_id a)) as [Heq|Hne].
    + rewrite <- Heq in *. rewrite lookup_insert_eq. exists e'.
      split; [reflexivity|]. split; [congruence|].
      unfold non_terminal. rewrite Hs'. reflexivity.
    + rewrite lookup_insert_ne by exact Hne. exists e1. auto.
  - apply open_trigger_last_n, open_trigger_snoc in Hopen.
    destruct Hopen as [[-> Hty'] | [Hopen Hdiff]].
    { unfold closes in Hcl. rewrite Hty' in Hcl. discriminate Hcl. }
    destruct (Hinv a Hopen) as (e1 & He1 & Hid1 & Hnt).
    destruct (decide (p = ae_patient_id a)) as [Heq|Hne].
    + rewrite <- Heq in *. exfalso. apply (Hdiff Hcl). congruence.
    + rewrite lookup_insert_ne by exact Hne. exists e1. auto.
Qed.

Section Calls.

Variable utcnow : nat -> Timestamp.
Variable uuid4 : nat -> string.
Variable twilio_ready : bool.
Variable sms_accepted : string -> bool.
Variable call_accepted : string -> bool.
Variable voice_script : EmergencyEvent -> string.

#[local] Abbreviation trigger_emergency := (trigger_emergency utcnow uuid4).
#[local] Abbreviation escalate_emergency :=
  (escalate_emergency utcnow twilio_ready sms_accepted call_accepted
                      voice_script).
#[local] Abbreviation cancel_emergency := (cancel_emergency utcnow).
#[local] Abbreviation resolve_emergency := (resolve_emergency utcnow).
#[local] Abbreviation caretaker_override := (caretaker_override utcnow).
#[local] Abbreviation run :=
  (run utcnow uuid4 twilio_ready sms_accepted call_accepted voice_script).
#[local] Abbreviation reachable :=
  (reachable utcnow uuid4 twilio_ready sms_accepted call_accepted
             voice_script).

(** ** What each call does to the store *)

Lemma trigger_duplicate p src v l ph nm ctx key w a :
  find_logged_key key (audit w) = Some a ->
  trigger_emergency p src v l ph nm ctx key w
  = (Returned (Duplicate a), w).
Proof.
  intros H. unfold Emergency.trigger_emergency, bind, load_log.
  rewrite H. reflexivity.
Qed.

Lemma trigger_already_active p src v l ph nm ctx key w e :
  find_logged_key key (audit w) = None ->
  active w !! p = Some e ->
  non_terminal e ->
  trigger_emergency p src v l ph nm ctx key w
  = (Returned (AlreadyActive e), w).
Proof.
  intros Hk He Hnt. unfold Emergency.trigger_emergency, bind, load_log.
  rewrite Hk. unfold has_active_emergency, get_active_emergency, bind,
    _load_active, ret. rewrite He, Hnt. cbn. rewrite He. reflexivity.
Qed.

Lemma trigger_creates p src v l ph nm ctx key w :
  find_logged_key key (audit w) = None ->
  (forall e, active w !! p = Some e -> is_terminal (status e) = true) ->
  exists ev a,
    trigger_emergency p src v l ph nm ctx key w
    = (Returned (Created ev),
       {| active := <[p := ev]> (active w);
          audit := last_n 2000 (audit w ++ [a]);
          clock_reads := S (S (clock_reads w));
          uuid_draws := S (uuid_draws w) |})
    /\ event_id ev = uuid4 (uuid_draws w)
    /\ idempotency_key ev = default (event_id ev) (truthy key)
    /\ patient_id ev = p
    /\ status ev = PENDING_CONFIRMATION
    /\ actions_taken ev = []
    /\ event_type a = EMERGENCY_TRIGGERED
    /\ ae_event_id a = event_id ev
    /\ ae_patient_id a = p
    /\ ae_idempotency_key a = Some (idempotency_key ev).
Proof.
  intros Hk Hterm. unfold Emergency.trigger_emergency, bind, load_log.
  rewrite Hk. unfold has_active_emergency, get_active_emergency, bind,
    _load_active, ret.
  assert (Hno : match active w !! p with
                | Some em => negb (is_terminal (status em))
                | None => false
                end = false).
  { destruct (active w !! p) as [e|] eqn:E; [|reflexivity].
    rewrite (Hterm e eq_refl). reflexivity. }
  rewrite Hno. cbn -[last_n]. eexists _, _. split; [reflexivity|].
  cbn. repeat split.
Qed.

Lemma filter_none {A} (P : A -> Prop) `{!forall x, Decision (P x)}
      (l : list A) :
  (forall x, x ∈ l -> ~ P x) -> filter P l = [].
Proof.
  induction l as [|x l IH]; intros Hl; [reflexivity|].
  rewrite filter_cons_False by (apply Hl; left).
  apply IH. intros y Hy. apply Hl. right. exact Hy.
Qed.

Lemma elem_of_drop_inv {A} (x : A) i (l : list A) : x ∈ drop i l -> x ∈ l.
Proof.
  intros H. rewrite <- (take_drop i l). apply elem_of_app. right. exact H.
Qed.

Lemma find_logged_key_none k (logs : list AuditEntry) b :
  k <> "" ->
  find_logged_key (Some k) logs = None ->
  b ∈ logs -> ae_idempotency_key b <> Some k.
Proof.
  intros Hk H Hb Hc. unfold find_logged_key in H. cbn in H.
  rewrite bool_decide_eq_false_2 in H by exact Hk. cbn in H.
  assert (Hin : In b (reverse logs))
    by (apply list_elem_of_In, elem_of_reverse, Hb).
  pose proof (find_none _ _ H b Hin) as Hf. cbn in Hf.
  rewrite bool_decide_eq_true_2 in Hf by exact Hc. discriminate Hf.
Qed.

(** X8.  A first trigger under a key that is not logged yet, and the
    next call, a trigger under the same key made on the store the first
    one left, whatever its other arguments: the second leaves the store
    as it is and returns the log entry of the first, which has the
    event_id of the event created; the ledger holds that one entry for
    the key. *)
Lemma replay_keeps_event_id
      p src v l ph nm ctx k w p' src' v' l' ph' nm' ctx' :
  k <> "" ->
  find_logged_key (Some k) (audit w) = None ->
  (forall e, active w !! p = Some e -> is_terminal (status e) = true) ->
  exists ev a w1,
    trigger_emergency p src v l ph nm ctx (Some k) w
    = (Returned (Created ev), w1)
    /\ trigger_emergency p' src' v' l' ph' nm' ctx' (Some k) w1
       = (Returned (Duplicate a), w1)
    /\ ae_event_id a = event_id ev
    /\ event_type a = EMERGENCY_TRIGGERED
    /\ filter (fun b => ae_idempotency_key b = Some k) (audit w1) = [a].
Proof.
  intros Hk Hnone Hfree.
  destruct (trigger_creates p src v l ph nm ctx (Some k) w
                            Hnone Hfree)
    as (ev & a & Hrun & _ & Hkey & _ & _ & _ & Hty & Hid & _ & Hak).
  assert (Htr : truthy (Some k) = Some k).
  { cbn. rewrite bool_decide_eq_false_2 by exact Hk. reflexivity. }
  rewrite Htr in Hkey. cbn in Hkey. rewrite Hkey in Hak.
  eexists ev, a, _. split; [exact Hrun|].
  assert (Hdrop : last_n 2000 (audit w ++ [a])
                  = drop (length (audit w) + 1 - 2000) (audit w) ++ [a]).
  { unfold last_n. rewrite length_app. cbn [length].
    apply drop_app_le. lia. }
  split; [|split; [exact Hid|split; [exact Hty|]]].
  - apply trigger_duplicate. cbn [audit]. unfold find_logged_key.
    rewrite Htr. cbn [mbind option_bind]. rewrite Hdrop, reverse_snoc.
    cbn [List.find]. rewrite bool_decide_eq_true_2 by exact Hak.
    reflexivity.
  - cbn [audit]. rewrite Hdrop, filter_app.
    rewrite filter_none.
    + rewrite (filter_singleton_True
                 (fun b => ae_idempotency_key b = Some k) a [] Hak).
      reflexivity.
    + intros b Hb. apply (find_logged_key_none k (audit w) b Hk Hnone).
      eapply elem_of_drop_inv, Hb.
Qed.
Lemma lifecycle_missing p w :
  active w !! p = None ->
  (forall l, exists msg,
      escalate_emergency p l w = (Raised (ValueError msg), w))
  /\ (forall who, exists msg,
         cancel_emergency p who w = (Raised (ValueError msg), w))
  /\ (forall who, exists msg,
         resolve_emergency p who w = (Raised (ValueError msg), w))
  /\ (forall who, exists msg,
         caretaker_override p who w = (Raised (ValueError msg), w)).
Proof.
  intros H. repeat split; intros x; eexists;
    unfold Emergency.escalate_emergency, Emergency.cancel_emergency,
      Emergency.resolve_emergency, Emergency.caretaker_override,
      bind, _load_active; rewrite H; reflexivity.
Qed.

Lemma escalate_not_pending p l w e :
  active w !! p = Some e ->
  status e <> PENDING_CONFIRMATION ->
  escalate_emergency p l w = (Returned e, w).
Proof.
  intros He Hs. unfold Emergency.escalate_emergency, bind, _load_active.
  rewrite He. rewrite bool_decide_eq_false_2 by exact Hs. reflexivity.
Qed.

Lemma append_action_set r v e :
  append_action r (set_actions_taken v e) = set_actions_taken (v ++ [r]) e.
Proof. reflexivity. Qed.

Lemma append_action_first r e :
  append_action r e = set_actions_taken (actions_taken e ++ [r]) e.
Proof. reflexivity. Qed.

Lemma outcomes_ignore_actions v e :
  _notify_caretaker twilio_ready sms_accepted (set_actions_taken v e)
  = _notify_caretaker twilio_ready sms_accepted e
  /\ _dial_ambulance twilio_ready call_accepted (set_actions_taken v e)
     = _dial_ambulance twilio_ready call_accepted e
  /\ _share_gps (set_actions_taken v e) = _share_gps e
  /\ location (set_actions_taken v e) = location e
  /\ event_id (set_actions_taken v e) = event_id e
  /\ status (set_actions_taken v e) = status e
  /\ patient_id (set_actions_taken v e) = patient_id e
  /\ actions_taken (set_actions_taken v e) = v.
Proof. repeat split. Qed.

Lemma escalating_fields e l t :
  status (escalating e l t) = ESCALATED
  /\ event_id (escalating e l t) = event_id e
  /\ patient_id (escalating e l t) = patient_id e
  /\ actions_taken (escalating e l t) = actions_taken e.
Proof. destruct l; repeat split. Qed.

Lemma escalate_pending p l w e :
  active w !! p = Some e ->
  status e = PENDING_CONFIRMATION ->
  let t := fun k => utcnow (k + clock_reads w) in
  let e0 := escalating e l (t 0%nat) in
  exists packet e' a,
    let records :=
      [CARETAKER_NOTIFIED ["sms"; "push"; "in_app"]
         (_notify_caretaker twilio_ready sms_accepted e0) (t 1%nat);
       DIAL_108 "108" (_dial_ambulance twilio_ready call_accepted e0)
                (t 2%nat);
       GPS_SHARED (location e0) (_share_gps e0) (t 3%nat);
       VOICE_AGENT_DISPATCHED packet (t 4%nat)] in
    escalate_emergency p l w
    = (Returned e',
       {| active := <[p := e']> (active w);
          audit := last_n 2000 (audit w ++ [a]);
          clock_reads := 6 + clock_reads w;
          uuid_draws := uuid_draws w |})
    /\ e' = set_actions_taken (actions_taken e ++ records) e0
    /\ vp_event_id packet = event_id e
    /\ event_type a = EMERGENCY_ESCALATED
    /\ ae_event_id a = event_id e
    /\ ae_patient_id a = p
    /\ ae_actions a = Some (map action_name (actions_taken e ++ records)).
Proof.
  intros He Hs t e0.
  unfold Emergency.escalate_emergency, bind at 1, _load_active.
  rewrite He. rewrite bool_decide_eq_true_2 by exact Hs.
  cbn [negb bind _now_iso _save_active _append_audit load_log save_log ret
       clock_reads active audit uuid_draws].
  fold e0. change (utcnow (clock_reads w)) with (t 0%nat).
  fold e0.
  rewrite (append_action_first _ e0).
  rewrite !append_action_set.
  destruct (escalating_fields e l (t 0%nat)) as (_ & Hid & _ & Hacts).
  fold e0 in Hid, Hacts.
  repeat match goal with
         | |- context [?f (set_actions_taken ?v e0)] =>
             lazymatch f with
             | _notify_caretaker _ _ =>
                 change (f (set_actions_taken v e0)) with (f e0)
             | _dial_ambulance _ _ =>
                 change (f (set_actions_taken v e0)) with (f e0)
             | _share_gps => change (f (set_actions_taken v e0)) with (f e0)
             | location => change (f (set_actions_taken v e0)) with (f e0)
             | event_id => change (f (set_actions_taken v e0)) with (f e0)
             | actions_taken =>
                 change (f (set_actions_taken v e0)) with v
             end
         end.
  rewrite Hacts, Hid.
  eexists _, _, _. split; [reflexivity|].
  rewrite <- !app_assoc. cbn [app].
  split; [reflexivity|]. split; [exact Hid|].
  repeat split.
Qed.

Lemma cancel_stored p who w e :
  active w !! p = Some e ->
  let e' := set_resolved_by (Some who)
              (set_resolved_at (Some (utcnow (clock_reads w)))
                 (set_status CANCELLED e)) in
  exists a,
    cancel_emergency p who w
    = (Returned e',
       {| active := <[p := e']> (active w);
          audit := last_n 2000 (audit w ++ [a]);
          clock_reads := 2 + clock_reads w;
          uuid_draws := uuid_draws w |})
    /\ event_type a = EMERGENCY_CANCELLED
    /\ ae_event_id a = event_id e
    /\ ae_patient_id a = p
    /\ ae_cancelled_by a = Some who.
Proof.
  intros He e'. unfold Emergency.cancel_emergency, bind, _load_active.
  rewrite He. cbn -[last_n]. eexists. split; [reflexivity|].
  destruct e; cbn; repeat split.
Qed.

Lemma resolve_stored p who w e :
  active w !! p = Some e ->
  let e' := set_resolved_by (Some who)
              (set_resolved_at (Some (utcnow (clock_reads w)))
                 (set_status RESOLVED e)) in
  exists a,
    resolve_emergency p who w
    = (Returned e',
       {| active := <[p := e']> (active w);
          audit := last_n 2000 (audit w ++ [a]);
          clock_reads := 2 + clock_reads w;
          uuid_draws := uuid_draws w |})
    /\ event_type a = EMERGENCY_RESOLVED
    /\ ae_event_id a = event_id e
    /\ ae_patient_id a = p
    /\ ae_resolved_by a = Some who.
Proof.
  intros He e'. unfold Emergency.resolve_emergency, bind, _load_active.
  rewrite He. cbn -[last_n]. eexists. split; [reflexivity|].
  destruct e; cbn; repeat split.
Qed.

Lemma override_stored p who w e :
  active w !! p = Some e ->
  let e' := set_override_at (Some (utcnow (clock_reads w)))
              (set_override_by (Some who)
                 (set_status CARETAKER_OVERRIDE e)) in
  exists a,
    caretaker_override p who w
    = (Returned e',
       {| active := <[p := e']> (active w);
          audit := last_n 2000 (audit w ++ [a]);
          clock_reads := 2 + clock_reads w;
          uuid_draws := uuid_draws w |})
    /\ event_type a = CARETAKER_OVERRIDE_LOGGED
    /\ ae_event_id a = event_id e
    /\ ae_patient_id a = p
    /\ ae_caretaker_id a = Some who.
Proof.
  intros He e'. unfold Emergency.caretaker_override, bind, _load_active.
  rewrite He. cbn -[last_n]. eexists. split; [reflexivity|].
  destruct e; cbn; repeat split.
Qed.

(** ** Every call is one of the four transitions *)

Lemma run_transition op w : transition w (run op w).
Proof.
  destruct op as [p src v l ph nm ctx key | p l | p who | p who | p who];
    cbn [Emergency.run].
  - destruct (find_logged_key key (audit w)) as [a|] eqn:Hk.
    { rewrite (trigger_duplicate _ _ _ _ _ _ _ _ _ _ Hk).
      apply unchanged; reflexivity. }
    destruct (active w !! p) as [e|] eqn:He.
    + destruct (is_terminal (status e)) eqn:Ht.
      * destruct (trigger_creates p src v l ph nm ctx key w Hk)
          as (ev & a & -> & _ & _ & Hp & Hs & _ & Hty & Hid & Hpa & _).
        { intros e0 He0. congruence. }
        eapply (opened _ _ p ev a); try eassumption; try reflexivity.
        intros e0 He0. congruence.
      * rewrite (trigger_already_active _ _ _ _ _ _ _ _ _ _ Hk He Ht).
        apply unchanged; reflexivity.
    + destruct (trigger_creates p src v l ph nm ctx key w Hk)
        as (ev & a & -> & _ & _ & Hp & Hs & _ & Hty & Hid & Hpa & _).
      { intros e0 He0. congruence. }
      eapply (opened _ _ p ev a); try eassumption; try reflexivity.
      intros e0 He0. congruence.
  - destruct (active w !! p) as [e|] eqn:He.
    + destruct (decide (status e = PENDING_CONFIRMATION)) as [Hs|Hs].
      * destruct (escalate_pending p l w e He Hs)
          as (packet & e' & a & -> & -> & _ & Hty & _).
        eapply (escalated _ _ p e _ a); try eassumption; try reflexivity.
        all: destruct l; reflexivity.
      * rewrite (escalate_not_pending _ _ _ _ He Hs).
        apply unchanged; reflexivity.
    + destruct (proj1 (lifecycle_missing p w He) l) as [msg ->].
      apply unchanged; reflexivity.
  - destruct (active w !! p) as [e|] eqn:He.
    + destruct (cancel_stored p who w e He) as (a & -> & Hty & Hid & _).
      eapply (closed _ _ p e _ a); try eassumption; try reflexivity.
      unfold closes. rewrite Hty. reflexivity.
    + destruct (proj1 (proj2 (lifecycle_missing p w He)) who) as [msg ->].
      apply unchanged; reflexivity.
  - destruct (active w !! p) as [e|] eqn:He.
    + destruct (resolve_stored p who w e He) as (a & -> & Hty & Hid & _).
      eapply (closed _ _ p e _ a); try eassumption; try reflexivity.
      unfold closes. rewrite Hty. reflexivity.
    + destruct (proj1 (proj2 (proj2 (lifecycle_missing p w He))) who)
        as [msg ->].
      apply unchanged; reflexivity.
  - destruct (active w !! p) as [e|] eqn:He.
    + destruct (override_stored p who w e He) as (a & -> & Hty & Hid & _).
      eapply (closed _ _ p e _ a); try eassumption; try reflexivity.
      unfold closes. rewrite Hty. reflexivity.
    + destruct (proj2 (proj2 (proj2 (lifecycle_missing p w He))) who)
        as [msg ->].
      apply unchanged; reflexivity.
Qed.

Lemma reachable_invariants w :
  reachable w -> keyed_by_patient w /\ ledger_agrees w.
Proof.
  induction 1 as [|op w _ [IHk IHl]].
  - split.
    + intros k e H. cbn in H. rewrite lookup_empty in H. discriminate H.
    + intros a (_ & before & after & Hlog & _). cbn in Hlog.
      destruct before; discriminate Hlog.
  - pose proof (run_transition op w) as Ht. split.
    + eapply transition_keyed; eassumption.
    + eapply transition_ledger; eassumption.
Qed.

(** ** The claims *)

(** C1, amended: in every reachable store at most one stored event of a
    patient is not terminal, every event the ledger shows open is that
    stored event, and so the open events of one patient in the ledger
    are one event.  And [trigger_emergency], called without a key that
    a logged trigger carries, for a patient whose stored event is not
    terminal, returns that event tagged already-active and leaves the
    store as it is: no event created, no audit entry appended. *)
Theorem one_active_emergency_per_patient :
  (forall w,
      reachable w ->
      at_most_one_active w
      /\ ledger_agrees w
      /\ forall a1 a2,
          open_trigger (audit w) a1 -> open_trigger (audit w) a2 ->
          ae_patient_id a1 = ae_patient_id a2 ->
          ae_event_id a1 = ae_event_id a2)
  /\ (forall w p src v l ph nm ctx key e,
         active w !! p = Some e ->
         non_terminal e ->
         find_logged_key key (audit w) = None ->
         trigger_emergency p src v l ph nm ctx key w
         = (Returned (AlreadyActive e), w)).
Proof.
  split.
  - intros w Hw. destruct (reachable_invariants w Hw) as [Hk Hl].
    split; [apply keyed_at_most_one, Hk|]. split; [exact Hl|].
    intros a1 a2 H1 H2 Hp.
    destruct (Hl a1 H1) as (e1 & He1 & <- & _).
    destruct (Hl a2 H2) as (e2 & He2 & <- & _).
    congruence.
  - intros w p src v l ph nm ctx key e He Hnt Hk.
    apply trigger_already_active; assumption.
Qed.

(** C3, amended: escalating a PENDING_CONFIRMATION event sets its status
    to ESCALATED and appends four records in order: caretaker
    notification, dial 108, GPS share, voice-agent packet.  The first
    three record the outcome of their action as a success boolean, the
    fourth records the packet and has no success key.  Whatever the
    three outcomes are, the status is ESCALATED, all four records are
    appended and the store and the ledger are written.  An event in any
    other status is returned as it is and the store is not changed. *)
Theorem escalation_records_four_actions p l w e :
  active w !! p = Some e ->
  (status e = PENDING_CONFIRMATION ->
   exists e' w' packet t0 t1 t2 t3 t4 a,
     let e0 := escalating e l t0 in
     let records :=
       [CARETAKER_NOTIFIED ["sms"; "push"; "in_app"]
          (_notify_caretaker twilio_ready sms_accepted e0) t1;
        DIAL_108 "108" (_dial_ambulance twilio_ready call_accepted e0) t2;
        GPS_SHARED (location e0) (_share_gps e0) t3;
        VOICE_AGENT_DISPATCHED packet t4] in
     escalate_emergency p l w = (Returned e', w')
     /\ status e' = ESCALATED
     /\ actions_taken e' = actions_taken e ++ records
     /\ map action_name records
        = ["CARETAKER_NOTIFIED"; "DIAL_108"; "GPS_SHARED";
           "VOICE_AGENT_DISPATCHED"]
     /\ map action_success records
        = [Some (_notify_caretaker twilio_ready sms_accepted e0);
           Some (_dial_ambulance twilio_ready call_accepted e0);
           Some (_share_gps e0);
           None]
     /\ active w' !! p = Some e'
     /\ audit w' = last_n 2000 (audit w ++ [a])
     /\ event_type a = EMERGENCY_ESCALATED
     /\ ae_actions a = Some (map action_name (actions_taken e')))
  /\ (status e <> PENDING_CONFIRMATION ->
      escalate_emergency p l w = (Returned e, w)).
Proof.
  intros He. split.
  - intros Hs.
    destruct (escalate_pending p l w e He Hs)
      as (packet & e' & a & Hrun & He' & _ & Hty & _ & _ & Hacts).
    cbv zeta in Hrun, He', Hacts.
    eexists e', _, packet, _, _, _, _, _, a.
    cbv zeta. split; [exact Hrun|]. rewrite He'.
    split; [destruct l; reflexivity|].
    split; [destruct l; reflexivity|].
    split; [reflexivity|].
    split; [reflexivity|].
    split; [cbn; apply lookup_insert_eq|].
    split; [reflexivity|].
    split; [exact Hty|].
    rewrite Hacts. destruct l; reflexivity.
  - intros Hs. apply escalate_not_pending; assumption.
Qed.

(** C10: cancel, resolve and override do not read the status of the
    stored event.  Whatever it is, terminal included, each call returns,
    overwrites the status with its own terminal value, stamps the actor,
    stores the event and appends one more audit entry. *)
Theorem terminal_states_not_protected p who w e :
  active w !! p = Some e ->
  let now := utcnow (clock_reads w) in
  (exists e' w' a,
      cancel_emergency p who w = (Returned e', w')
      /\ e' = set_resolved_by (Some who)
                (set_resolved_at (Some now) (set_status CANCELLED e))
      /\ status e' = CANCELLED /\ resolved_by e' = Some who
      /\ active w' !! p = Some e'
      /\ audit w' = last_n 2000 (audit w ++ [a])
      /\ last (audit w') = Some a
      /\ event_type a = EMERGENCY_CANCELLED
      /\ ae_event_id a = event_id e)
  /\ (exists e' w' a,
         resolve_emergency p who w = (Returned e', w')
         /\ e' = set_resolved_by (Some who)
                   (set_resolved_at (Some now) (set_status RESOLVED e))
         /\ status e' = RESOLVED /\ resolved_by e' = Some who
         /\ active w' !! p = Some e'
         /\ audit w' = last_n 2000 (audit w ++ [a])
         /\ last (audit w') = Some a
         /\ event_type a = EMERGENCY_RESOLVED
         /\ ae_event_id a = event_id e)
  /\ (exists e' w' a,
         caretaker_override p who w = (Returned e', w')
         /\ e' = set_override_at (Some now)
                   (set_override_by (Some who)
                      (set_status CARETAKER_OVERRIDE e))
         /\ status e' = CARETAKER_OVERRIDE /\ override_by e' = Some who
         /\ active w' !! p = Some e'
         /\ audit w' = last_n 2000 (audit w ++ [a])
         /\ last (audit w') = Some a
         /\ event_type a = CARETAKER_OVERRIDE_LOGGED
         /\ ae_event_id a = event_id e).
Proof.
  intros He now.
  assert (Hlast : forall (log : list AuditEntry) a,
             last (last_n 2000 (log ++ [a])) = Some a).
  { intros log a. unfold last_n.
    rewrite drop_app_le by (rewrite length_app; cbn; lia).
    apply last_snoc. }
  split; [|split].
  - destruct (cancel_stored p who w e He) as (a & Hrun & Hty & Hid & _).
    eexists _, _, a. split; [exact Hrun|]. split; [reflexivity|].
    do 2 (split; [reflexivity|]). split; [apply lookup_insert_eq|].
    split; [reflexivity|]. split; [apply Hlast|]. split; assumption.
  - destruct (resolve_stored p who w e He) as (a & Hrun & Hty & Hid & _).
    eexists _, _, a. split; [exact Hrun|]. split; [reflexivity|].
    do 2 (split; [reflexivity|]). split; [apply lookup_insert_eq|].
    split; [reflexivity|]. split; [apply Hlast|]. split; assumption.
  - destruct (override_stored p who w e He) as (a & Hrun & Hty & Hid & _).
    eexists _, _, a. split; [exact Hrun|]. split; [reflexivity|].
    do 2 (split; [reflexivity|]). split; [apply lookup_insert_eq|].
    split; [reflexivity|]. split; [apply Hlast|]. split; assumption.
Qed.

End Calls.

(** ** The demo run *)

#[local] Abbreviation demo_reachable :=
  (reachable Demo.utcnow Demo.uuid4 false (fun _ => false)
             (fun _ => false) Demo.voice_script).

Lemma triggered_once_reachable : demo_reachable Demo.triggered_once.
Proof.
  apply (reachable_run _ _ _ _ _ _
           (Trigger "p1" MANUAL_SOS None None None None None (Some "k1"))
           empty_world).
  apply reachable_empty.
Qed.

(** The guarantee of C1 on the store after one trigger: a second trigger
    for the same patient under another key. *)
Lemma one_active_emergency_per_patient_witness :
  at_most_one_active Demo.triggered_once
  /\ exists e,
      Demo.trigger "p1" (Some "k2") Demo.triggered_once
      = (Returned (AlreadyActive e), Demo.triggered_once).
Proof.
  destruct (one_active_emergency_per_patient
              Demo.utcnow Demo.uuid4 false (fun _ => false)
              (fun _ => false) Demo.voice_script) as [Hinv Hguard].
  split.
  - apply (Hinv Demo.triggered_once), triggered_once_reachable.
  - eexists. apply Hguard; vm_compute; reflexivity.
Defined.

(** C1 as written fails when the call replays a logged key: the patient
    has an event that is not terminal, and the call returns the log
    entry tagged duplicate, not the event tagged already-active. *)
Lemma replay_is_not_tagged_already_active :
  (exists e, active Demo.triggered_once !! "p1" = Some e /\ non_terminal e)
  /\ forall e,
      (Demo.trigger "p1" (Some "k1") Demo.triggered_once).1
      <> Returned (AlreadyActive e).
Proof.
  split.
  - eexists. split; vm_compute; reflexivity.
  - intros e H. vm_compute in H. discriminate H.
Qed.

(** C2, on the store after one trigger with the key k1: the second call
    with k1 leaves the store as it is and returns, tagged duplicate,
    the audit entry of the first trigger, which carries the event_id of
    the event; the event itself is in the active table and is not what
    is returned. *)
Theorem replay_returns_log_entry :
  exists e1 a,
    Demo.trigger "p1" (Some "k1") empty_world
    = (Returned (Created e1), Demo.triggered_once)
    /\ Demo.trigger "p1" (Some "k1") Demo.triggered_once
       = (Returned (Duplicate a), Demo.triggered_once)
    /\ active Demo.triggered_once !! "p1" = Some e1
    /\ audit Demo.triggered_once = [a]
    /\ event_type a = EMERGENCY_TRIGGERED
    /\ ae_idempotency_key a = Some "k1"
    /\ ae_event_id a = event_id e1.
Proof.
  eexists _, _. split; [vm_compute; reflexivity|].
  split; [vm_compute; reflexivity|]. repeat split.
Qed.

(** An escalation in which all three actions fail: the event is
    escalated all the same and the four records are there. *)
Lemma escalation_records_four_actions_witness :
  exists e',
    (Demo.escalate "p1" Demo.triggered_once).1 = Returned e'
    /\ status e' = ESCALATED
    /\ map action_success (actions_taken e')
       = [Some false; Some false; Some false; None].
Proof.
  edestruct (escalation_records_four_actions
               Demo.utcnow false (fun _ => false) (fun _ => false)
               Demo.voice_script "p1" None Demo.triggered_once)
    as [Hesc _]; [vm_compute; reflexivity|].
  destruct Hesc
    as (e' & w' & packet & t0 & t1 & t2 & t3 & t4 & a
        & Hrun & Hs & Hacts & _ & Hok & _); [reflexivity|].
  exists e'. split; [unfold Demo.escalate; rewrite Hrun; reflexivity|].
  split; [exact Hs|]. rewrite Hacts. exact Hok.
Defined.

(** C3 as written fails for the fourth record: the escalation appends
    four records and the voice-agent record has no success key. *)
Lemma voice_record_has_no_success :
  exists e',
    (Demo.escalate "p1" Demo.triggered_once).1 = Returned e'
    /\ length (actions_taken e') = 4%nat
    /\ ~ all_record_success (actions_taken e').
Proof.
  eexists. split; [vm_compute; reflexivity|]. split; [reflexivity|].
  intros H. destruct (H (VOICE_AGENT_DISPATCHED
                           {| script := "Emergency reference: uuid-0.";
                              vp_event_id := "uuid-0" |} 6000000%Z))
    as [ok Hok].
  - do 3 right. left.
  - discriminate Hok.
Qed.

(** Resolving an event that is already cancelled. *)
Lemma terminal_states_not_protected_witness :
  (exists e, active Demo.cancelled_once !! "p1" = Some e
             /\ status e = CANCELLED)
  /\ exists e',
      (resolve_emergency Demo.utcnow "p1" "DOCTOR" Demo.cancelled_once).1
      = Returned e'
      /\ status e' = RESOLVED /\ resolved_by e' = Some "DOCTOR".
Proof.
  split; [eexists; split; vm_compute; reflexivity|].
  edestruct (terminal_states_not_protected
               Demo.utcnow "p1" "DOCTOR" Demo.cancelled_once)
    as (_ & (e' & w' & a & Hrun & _ & Hs & Hby & _) & _);
    [vm_compute; reflexivity|].
  exists e'. rewrite Hrun. auto.
Defined.

End EmergencyFacts.


(** * Further properties of the emergency engine *)

Module EmergencyMore.

Import Emergency EmergencyFacts.

(** ** Reading the audit log *)

Lemma slice_from_neg {A} (n : nat) (l : list A) :
  (0 < n)%nat -> slice_from (- Z.of_nat n) l = last_n n l.
Proof.
  intros Hn. unfold slice_from, last_n.
  destruct (Z.ltb_spec (- Z.of_nat n) 0) as [_|H]; [|lia].
  f_equal. lia.
Qed.

(** X1.  [get_audit_log] returns and leaves the store as it is.  With a
    limit of at least 1 it gives the last [limit] entries, of the given
    patient when one is given (a non-empty id), so at most [limit] of
    them; with the limit 0 it gives all of them ([logs[-0:]] is the whole
    list); with a negative limit it drops the first [-limit] entries.
    Every entry returned under a patient filter is that patient's. *)
Theorem get_audit_log_window (patient_id : option string) (limit : Z)
        (w : World) :
  let logs :=
    match truthy patient_id with
    | Some p => filter (fun e => ae_patient_id e = p) (audit w)
    | None => audit w
    end in
  exists out,
    get_audit_log patient_id limit w = (Returned out, w)
    /\ ((1 <= limit)%Z ->
        out = last_n (Z.to_nat limit) logs
        /\ (Z.of_nat (length out) <= limit)%Z)
    /\ (limit = 0%Z -> out = logs)
    /\ ((limit < 0)%Z -> out = drop (Z.to_nat (- limit)) logs)
    /\ (forall p e, truthy patient_id = Some p -> e ∈ out ->
                    ae_patient_id e = p).
Proof.
  intros logs. exists (slice_from (- limit) logs).
  split; [reflexivity|]. split; [|split; [|split]].
  - intros Hl.
    assert (Heq : slice_from (- limit) logs = last_n (Z.to_nat limit) logs).
    { rewrite <- (Z2Nat.id limit) at 1 by lia. apply slice_from_neg. lia. }
    rewrite Heq. split; [reflexivity|].
    unfold last_n. rewrite length_drop. lia.
  - intros ->. unfold slice_from. cbn. rewrite Z.min_l by lia. reflexivity.
  - intros Hl. unfold slice_from.
    destruct (Z.ltb_spec (- limit) 0) as [H|_]; [lia|].
    destruct (Z.le_gt_cases (- limit) (Z.of_nat (length logs))) as [Hle|Hgt].
    + rewrite Z.min_l by lia. reflexivity.
    + rewrite Z.min_r by lia. rewrite Nat2Z.id.
      rewrite !drop_ge by lia. reflexivity.
  - intros p e Hp He. subst logs. rewrite Hp in He.
    unfold slice_from in He.
    apply elem_of_drop_inv in He.
    apply list_elem_of_filter in He. exact (proj1 He).
Qed.

Section MoreCalls.

Variable utcnow : nat -> Timestamp.
Variable uuid4 : nat -> string.
Variable twilio_ready : bool.
Variable sms_accepted : string -> bool.
Variable call_accepted : string -> bool.
Variable voice_script : EmergencyEvent -> string.

#[local] Abbreviation trigger_emergency :=
  (trigger_emergency utcnow uuid4).
#[local] Abbreviation escalate_emergency :=
  (escalate_emergency utcnow twilio_ready sms_accepted call_accepted
                      voice_script).
#[local] Abbreviation cancel_emergency := (cancel_emergency utcnow).
#[local] Abbreviation resolve_emergency := (resolve_emergency utcnow).
#[local] Abbreviation caretaker_override := (caretaker_override utcnow).
#[local] Abbreviation run :=
  (run utcnow uuid4 twilio_ready sms_accepted call_accepted voice_script).
#[local] Abbreviation reachable :=
  (reachable utcnow uuid4 twilio_ready sms_accepted call_accepted
             voice_script).
#[local] Abbreviation run_transition :=
  (run_transition utcnow uuid4 twilio_ready sms_accepted call_accepted
                  voice_script).

(** ** The ledger only grows at its end *)

Lemma length_last_n {A} n (l : list A) : (length (last_n n l) <= n)%nat.
Proof. unfold last_n. rewrite length_drop. lia. Qed.

Lemma last_n_all {A} n (l : list A) :
  (length l <= n)%nat -> last_n n l = l.
Proof.
  intros H. unfold last_n. replace (length l - n)%nat with 0%nat by lia.
  reflexivity.
Qed.

(** X2.  The ledger never holds more than 2000 entries; a call either leaves
    it as it is or appends one entry and keeps the last 2000; and while
    it holds fewer than 2000, a call keeps every entry logged so far, in
    place: nothing is rewritten or dropped before the cap is reached. *)
Theorem audit_log_append_only :
  (forall w, reachable w -> (length (audit w) <= 2000)%nat)
  /\ (forall op w,
         audit (run op w) = audit w
         \/ exists a, audit (run op w) = last_n 2000 (audit w ++ [a]))
  /\ (forall op w,
         (length (audit w) < 2000)%nat ->
         audit w `prefix_of` audit (run op w)).
Proof.
  assert (Hstep : forall op w,
             audit (run op w) = audit w
             \/ exists a, audit (run op w) = last_n 2000 (audit w ++ [a])).
  { intros op w.
    destruct (run_transition op w)
      as [_ Hl | p e' a _ _ Hl _ _ _ _ _ | p e e' a _ _ _ Hl _ _ _ _
          | p e e' a _ _ Hl _ _ _ _ _]; eauto. }
  split; [|split].
  - induction 1 as [|op w _ IH]; [cbn; lia|].
    destruct (Hstep op w) as [->|[a ->]]; [exact IH | apply length_last_n].
  - exact Hstep.
  - intros op w Hlen.
    destruct (Hstep op w) as [->|[a ->]]; [reflexivity|].
    rewrite last_n_all by (rewrite length_app; cbn; lia).
    apply prefix_app_r. reflexivity.
Qed.

(** ** What a call does to a stored event *)

Lemma trigger_created_event p src v l ph nm ctx key w :
  find_logged_key key (audit w) = None ->
  (forall e, active w !! p = Some e -> is_terminal (status e) = true) ->
  let now := utcnow (clock_reads w) in
  let id := uuid4 (uuid_draws w) in
  let ev :=
    {| event_id := id;
       idempotency_key := default id (truthy key);
       patient_id := p;
       patient_name := default "Unknown Patient" (truthy nm);
       trigger_source := src;
       status := PENDING_CONFIRMATION;
       triggered_at := now;
       confirmation_deadline := _add_seconds now 30;
       vitals_snapshot := default ∅ v;
       location := l;
       caretaker_phone := ph;
       medical_context := ctx;
       actions_taken := [];
       resolved_at := None;
       resolved_by := None;
       escalated_at := None;
       override_by := None;
       override_at := None |} in
  exists a,
    trigger_emergency p src v l ph nm ctx key w
    = (Returned (Created ev),
       {| active := <[p := ev]> (active w);
          audit := last_n 2000 (audit w ++ [a]);
          clock_reads := S (S (clock_reads w));
          uuid_draws := S (uuid_draws w) |})
    /\ event_type a = EMERGENCY_TRIGGERED
    /\ ae_event_id a = id
    /\ ae_patient_id a = p.
Proof.
  intros Hk Hterm now id ev.
  unfold Emergency.trigger_emergency, bind, load_log.
  rewrite Hk. unfold has_active_emergency, get_active_emergency, bind,
    _load_active, ret.
  assert (Hno : match active w !! p with
                | Some em => negb (is_terminal (status em))
                | None => false
                end = false).
  { destruct (active w !! p) as [e|] eqn:E; [|reflexivity].
    rewrite (Hterm e eq_refl). reflexivity. }
  rewrite Hno. cbn -[last_n]. eexists. split; [reflexivity|].
  repeat split.
Qed.

(** The event stored under a key after a call is the one stored before,
    or a new pending event in the place of none or of a terminal one, or
    the escalation of the pending one, or the closing of the stored one. *)
Lemma run_stored op w k e' :
  active (run op w) !! k = Some e' ->
  active w !! k = Some e'
  \/ (k = op_patient op
      /\ (forall e, active w !! k = Some e -> is_terminal (status e) = true)
      /\ patient_id e' = k
      /\ status e' = PENDING_CONFIRMATION
      /\ actions_taken e' = []
      /\ confirmation_deadline e' = _add_seconds (triggered_at e') 30
      /\ escalated_at e' = None /\ resolved_at e' = None
      /\ resolved_by e' = None)
  \/ (k = op_patient op
      /\ exists e l t records,
          active w !! k = Some e
          /\ status e = PENDING_CONFIRMATION
          /\ map action_name records = ESCALATION_ACTIONS
          /\ e' = set_actions_taken (actions_taken e ++ records)
                    (escalating e l t))
  \/ (k = op_patient op
      /\ exists e who t,
          active w !! k = Some e
          /\ (e' = set_resolved_by (Some who)
                     (set_resolved_at (Some t) (set_status CANCELLED e))
              \/ e' = set_resolved_by (Some who)
                        (set_resolved_at (Some t) (set_status RESOLVED e))
              \/ e' = set_override_at (Some t)
                        (set_override_by (Some who)
                           (set_status CARETAKER_OVERRIDE e)))).
Proof.
  destruct op as [p src v l ph nm ctx key | p l | p who | p who | p who];
    cbn [Emergency.run op_patient].
  - destruct (find_logged_key key (audit w)) as [a|] eqn:Hk.
    { erewrite trigger_duplicate by exact Hk. auto. }
    destruct (active w !! p) as [e|] eqn:He.
    + destruct (is_terminal (status e)) eqn:Ht.
      * destruct (trigger_created_event p src v l ph nm ctx key w Hk)
          as (a & -> & _); [intros e0 He0; congruence|].
        cbn [snd active]. destruct (decide (p = k)) as [<-|Hne].
        -- rewrite lookup_insert_eq. intros [= <-]. right. left.
           split; [reflexivity|]. split; [intros e0 He0; congruence|].
           repeat split.
        -- rewrite lookup_insert_ne by exact Hne. auto.
      * erewrite trigger_already_active by eassumption. auto.
    + destruct (trigger_created_event p src v l ph nm ctx key w Hk)
        as (a & -> & _); [intros e0 He0; congruence|].
      cbn [snd active]. destruct (decide (p = k)) as [<-|Hne].
      * rewrite lookup_insert_eq. intros [= <-]. right. left.
        split; [reflexivity|]. split; [intros e0 He0; congruence|].
        repeat split.
      * rewrite lookup_insert_ne by exact Hne. auto.
  - destruct (active w !! p) as [e|] eqn:He.
    + destruct (decide (status e = PENDING_CONFIRMATION)) as [Hs|Hs].
      * destruct (escalate_pending utcnow twilio_ready sms_accepted
                    call_accepted voice_script p l w e He Hs)
          as (packet & e1 & a & -> & -> & _).
        cbn [snd active]. destruct (decide (p = k)) as [<-|Hne].
        -- rewrite lookup_insert_eq. intros [= <-]. right. right. left.
           split; [reflexivity|]. eexists e, l, _, _.
           split; [exact He|]. split; [exact Hs|].
           split; [|reflexivity]. reflexivity.
        -- rewrite lookup_insert_ne by exact Hne. auto.
      * erewrite escalate_not_pending by eassumption. auto.
    + destruct (proj1 (lifecycle_missing utcnow twilio_ready sms_accepted
                         call_accepted voice_script p w He) l) as [msg ->].
      auto.
  - destruct (active w !! p) as [e|] eqn:He.
    + destruct (cancel_stored utcnow p who w e He) as (a & -> & _).
      cbn [snd active]. destruct (decide (p = k)) as [<-|Hne].
      * rewrite lookup_insert_eq. intros [= <-]. do 3 right.
        split; [reflexivity|]. eexists e, who, _. split; [exact He|].
        left. reflexivity.
      * rewrite lookup_insert_ne by exact Hne. auto.
    + destruct (proj1 (proj2 (lifecycle_missing utcnow twilio_ready
                   sms_accepted call_accepted voice_script p w He)) who)
        as [msg ->]. auto.
  - destruct (active w !! p) as [e|] eqn:He.
    + destruct (resolve_stored utcnow p who w e He) as (a & -> & _).
      cbn [snd active]. destruct (decide (p = k)) as [<-|Hne].
      * rewrite lookup_insert_eq. intros [= <-]. do 3 right.
        split; [reflexivity|]. eexists e, who, _. split; [exact He|].
        right. left. reflexivity.
      * rewrite lookup_insert_ne by exact Hne. auto.
    + destruct (proj1 (proj2 (proj2 (lifecycle_missing utcnow twilio_ready
                   sms_accepted call_accepted voice_script p w He))) who)
        as [msg ->]. auto.
  - destruct (active w !! p) as [e|] eqn:He.
    + destruct (override_stored utcnow p who w e He) as (a & -> & _).
      cbn [snd active]. destruct (decide (p = k)) as [<-|Hne].
      * rewrite lookup_insert_eq. intros [= <-]. do 3 right.
        split; [reflexivity|]. eexists e, who, _. split; [exact He|].
        right. right. reflexivity.
      * rewrite lookup_insert_ne by exact Hne. auto.
    + destruct (proj2 (proj2 (proj2 (lifecycle_missing utcnow twilio_ready
                   sms_accepted call_accepted voice_script p w He))) who)
        as [msg ->]. auto.
Qed.

Lemma escalating_stamps e l t :
  triggered_at (escalating e l t) = triggered_at e
  /\ confirmation_deadline (escalating e l t) = confirmation_deadline e
  /\ escalated_at (escalating e l t) = Some t
  /\ location (escalating e l t) = from_option Some (location e) l
  /\ caretaker_phone (escalating e l t) = caretaker_phone e.
Proof. destruct l; repeat split. Qed.

(** X3.  In every reachable store an event carries the records of at most one
    escalation: none while it is pending, the four (caretaker
    notification, ambulance call, GPS share, voice packet, in this
    order) once it is escalated, and one or the other after it is
    closed. *)
Theorem escalation_recorded_once w :
  reachable w ->
  forall k e, active w !! k = Some e -> recorded_once e.
Proof.
  induction 1 as [|op w Hr IH]; intros k e' H.
  - cbn in H. rewrite lookup_empty in H. discriminate H.
  - apply run_stored in H.
    destruct H as [H | [(_ & _ & _ & Hs & Ha & _)
                       | [(_ & e & l & t & records & He & Hs & Hn & ->)
                         | (_ & e & who & t & He & Hc)]]].
    + eapply IH, H.
    + unfold recorded_once. rewrite Hs, Ha.
      split; [reflexivity|]. split; [discriminate|]. left. reflexivity.
    + destruct (IH _ _ He) as (Hp & _ & _). rewrite (Hp Hs). cbn [app].
      unfold recorded_once.
      change (status (set_actions_taken records (escalating e l t)))
        with (status (escalating e l t)).
      change (actions_taken (set_actions_taken records (escalating e l t)))
        with records.
      rewrite (proj1 (escalating_fields e l t)), Hn.
      split; [discriminate|]. split; [reflexivity|]. right. reflexivity.
    + destruct (IH _ _ He) as (_ & _ & Hany).
      destruct Hc as [-> | [-> | ->]];
        (split; [intros Hs; discriminate Hs|]);
        (split; [intros Hs; discriminate Hs|exact Hany]).
Qed.

(** X4.  In every reachable store the event under a key is that patient's,
    its confirmation deadline is 30 seconds after its trigger time, and
    its stamps fit its status: a pending event has no escalation or
    resolution stamp, an escalated one has its escalation time, a
    resolved or cancelled one has who closed it and when, an overridden
    one has the caretaker and the time. *)
Theorem stored_events_well_stamped w :
  reachable w ->
  forall k e, active w !! k = Some e -> well_stamped k e.
Proof.
  induction 1 as [|op w Hr IH]; intros k e' H.
  - cbn in H. rewrite lookup_empty in H. discriminate H.
  - apply run_stored in H.
    destruct H as [H | [(_ & _ & Hp & Hs & _ & Hd & He1 & He2 & He3)
                       | [(_ & e & l & t & records & He & Hs & Hn & ->)
                         | (_ & e & who & t & He & Hc)]]].
    + eapply IH, H.
    + unfold well_stamped. rewrite Hs.
      split; [exact Hp|]. split; [exact Hd|].
      split; [intros _; repeat split; assumption|].
      split; [discriminate|].
      split; [intros [Hx|Hx]; discriminate Hx|discriminate].
    + destruct (IH _ _ He) as (Hp & Hd & _).
      destruct (escalating_fields e l t) as (Hst & _ & Hpid & _).
      destruct (escalating_stamps e l t) as (Htr & Hdl & Hesc & _).
      unfold well_stamped.
      change (status (set_actions_taken (actions_taken e ++ records)
                        (escalating e l t)))
        with (status (escalating e l t)).
      change (patient_id (set_actions_taken (actions_taken e ++ records)
                            (escalating e l t)))
        with (patient_id (escalating e l t)).
      change (confirmation_deadline
                (set_actions_taken (actions_taken e ++ records)
                   (escalating e l t)))
        with (confirmation_deadline (escalating e l t)).
      change (triggered_at
                (set_actions_taken (actions_taken e ++ records)
                   (escalating e l t)))
        with (triggered_at (escalating e l t)).
      change (escalated_at
                (set_actions_taken (actions_taken e ++ records)
                   (escalating e l t)))
        with (escalated_at (escalating e l t)).
      rewrite Hst, Hpid, Htr, Hdl, Hesc.
      split; [exact Hp|]. split; [exact Hd|].
      split; [discriminate|]. split; [intros _; eexists; reflexivity|].
      split; [intros [Hx|Hx]; discriminate Hx|discriminate].
    + destruct (IH _ _ He) as (Hp & Hd & _).
      destruct Hc as [-> | [-> | ->]];
        (split; [exact Hp|]); (split; [exact Hd|]);
        (split; [intros Hs; discriminate Hs|]);
        (split; [intros Hs; discriminate Hs|]);
        (split; [intros [Hs|Hs]; try discriminate Hs;
                 split; eexists; reflexivity
                |intros Hs; try discriminate Hs;
                 split; eexists; reflexivity]).
Qed.

(** ** One call, one patient *)

Lemma run_active op w :
  active (run op w) = active w
  \/ exists e', active (run op w) = <[op_patient op := e']> (active w).
Proof.
  destruct op as [p src v l ph nm ctx key | p l | p who | p who | p who];
    cbn [Emergency.run op_patient].
  - destruct (find_logged_key key (audit w)) as [a|] eqn:Hk.
    { erewrite trigger_duplicate by exact Hk. auto. }
    destruct (active w !! p) as [e|] eqn:He.
    + destruct (is_terminal (status e)) eqn:Ht.
      * destruct (trigger_created_event p src v l ph nm ctx key w Hk)
          as (a & -> & _); [intros e0 He0; congruence|].
        right. eexists. reflexivity.
      * erewrite trigger_already_active by eassumption. auto.
    + destruct (trigger_created_event p src v l ph nm ctx key w Hk)
        as (a & -> & _); [intros e0 He0; congruence|].
      right. eexists. reflexivity.
  - destruct (active w !! p) as [e|] eqn:He.
    + destruct (decide (status e = PENDING_CONFIRMATION)) as [Hs|Hs].
      * destruct (escalate_pending utcnow twilio_ready sms_accepted
                    call_accepted voice_script p l w e He Hs)
          as (packet & e1 & a & -> & _).
        right. eexists. reflexivity.
      * erewrite escalate_not_pending by eassumption. auto.
    + destruct (proj1 (lifecycle_missing utcnow twilio_ready sms_accepted
                         call_accepted voice_script p w He) l) as [msg ->].
      auto.
  - destruct (active w !! p) as [e|] eqn:He.
    + destruct (cancel_stored utcnow p who w e He) as (a & -> & _).
      right. eexists. reflexivity.
    + destruct (proj1 (proj2 (lifecycle_missing utcnow twilio_ready
                   sms_accepted call_accepted voice_script p w He)) who)
        as [msg ->]. auto.
  - destruct (active w !! p) as [e|] eqn:He.
    + destruct (resolve_stored utcnow p who w e He) as (a & -> & _).
      right. eexists. reflexivity.
    + destruct (proj1 (proj2 (proj2 (lifecycle_missing utcnow twilio_ready
                   sms_accepted call_accepted voice_script p w He))) who)
        as [msg ->]. auto.
  - destruct (active w !! p) as [e|] eqn:He.
    + destruct (override_stored utcnow p who w e He) as (a & -> & _).
      right. eexists. reflexivity.
    + destruct (proj2 (proj2 (proj2 (lifecycle_missing utcnow twilio_ready
                   sms_accepted call_accepted voice_script p w He))) who)
        as [msg ->]. auto.
Qed.

(** X5.  A call for one patient leaves the stored events of all other
    patients as they are, and no call removes an entry from the active
    table: a closed event stays stored until a new trigger for the same
    patient replaces it. *)
Theorem calls_touch_one_patient op w :
  (forall q, q <> op_patient op ->
             active (run op w) !! q = active w !! q)
  /\ (forall q, is_Some (active w !! q) ->
                is_Some (active (run op w) !! q)).
Proof.
  destruct (run_active op w) as [-> | [e' ->]].
  - split; auto.
  - split.
    + intros q Hq. apply lookup_insert_ne. congruence.
    + intros q Hq. destruct (decide (op_patient op = q)) as [<-|Hne].
      * rewrite lookup_insert_eq. eexists. reflexivity.
      * rewrite lookup_insert_ne by exact Hne. exact Hq.
Qed.

(** X6.  Escalating twice is escalating once: whatever the stored event, a
    second [escalate_emergency] returns the event the first one returned
    and changes nothing, so no action is run and no audit entry written
    a second time. *)
Theorem escalate_twice_is_noop p l l' w e :
  active w !! p = Some e ->
  exists e1,
    (escalate_emergency p l w).1 = Returned e1
    /\ escalate_emergency p l' (escalate_emergency p l w).2
       = (Returned e1, (escalate_emergency p l w).2).
Proof.
  intros He. destruct (decide (status e = PENDING_CONFIRMATION)) as [Hs|Hs].
  - destruct (escalate_pending utcnow twilio_ready sms_accepted
                call_accepted voice_script p l w e He Hs)
      as (packet & e1 & a & Hrun & He1 & _).
    rewrite Hrun. cbn [fst snd]. exists e1. split; [reflexivity|].
    apply escalate_not_pending.
    + cbn [active]. apply lookup_insert_eq.
    + rewrite He1.
      change (status (set_actions_taken ?v ?x)) with (status x).
      rewrite (proj1 (escalating_fields _ _ _)). discriminate.
  - rewrite (escalate_not_pending utcnow twilio_ready sms_accepted
               call_accepted voice_script p l w e He Hs).
    cbn [fst snd]. exists e. split; [reflexivity|].
    apply escalate_not_pending; assumption.
Qed.

(** X7.  The four lifecycle calls raise exactly when the patient has no stored
    event: then each raises ValueError with its message (the one of
    [escalate_emergency] has the word patient, the others do not) and
    leaves the store as it is; with a stored event, of any status, each
    returns an event. *)
Theorem lifecycle_raises_iff_no_event p w :
  (active w !! p = None ->
   (forall l, escalate_emergency p l w
              = (Raised (ValueError ("No active emergency for patient "
                                       ++ p)), w))
   /\ (forall who, cancel_emergency p who w
                   = (Raised (ValueError ("No active emergency for " ++ p)),
                      w))
   /\ (forall who, resolve_emergency p who w
                   = (Raised (ValueError ("No active emergency for " ++ p)),
                      w))
   /\ (forall who, caretaker_override p who w
                   = (Raised (ValueError ("No active emergency for " ++ p)),
                      w)))
  /\ (is_Some (active w !! p) ->
      (forall l, exists e', (escalate_emergency p l w).1 = Returned e')
      /\ (forall who, exists e',
             (cancel_emergency p who w).1 = Returned e'
             /\ status e' = CANCELLED)
      /\ (forall who, exists e',
             (resolve_emergency p who w).1 = Returned e'
             /\ status e' = RESOLVED)
      /\ (forall who, exists e',
             (caretaker_override p who w).1 = Returned e'
             /\ status e' = CARETAKER_OVERRIDE)).
Proof.
  split.
  - intros H. repeat split; intros x;
      unfold Emergency.escalate_emergency, Emergency.cancel_emergency,
        Emergency.resolve_emergency, Emergency.caretaker_override,
        bind, _load_active; rewrite H; reflexivity.
  - intros [e He]. repeat split.
    + intros l. destruct (decide (status e = PENDING_CONFIRMATION)) as [Hs|Hs].
      * destruct (escalate_pending utcnow twilio_ready sms_accepted
                    call_accepted voice_script p l w e He Hs)
          as (packet & e1 & a & -> & _). eexists. reflexivity.
      * erewrite escalate_not_pending by eassumption. eexists. reflexivity.
    + intros who. destruct (cancel_stored utcnow p who w e He) as (a & -> & _).
      eexists. split; reflexivity.
    + intros who. destruct (resolve_stored utcnow p who w e He) as (a & -> & _).
      eexists. split; reflexivity.
    + intros who.
      destruct (override_stored utcnow p who w e He) as (a & -> & _).
      eexists. split; reflexivity.
Qed.

(** ** Closing, and triggering again *)

(** X9.  After a cancel, a resolve or an override of a stored event the
    patient has no active emergency, and the next trigger under a key
    that is not logged creates a new pending event, with a fresh id
    drawn and no action recorded, that takes the place of the closed
    event in the active table. *)
Theorem close_then_trigger_replaces c p who w e :
  c = Cancel p who \/ c = Resolve p who \/ c = Override p who ->
  active w !! p = Some e ->
  has_active_emergency p (run c w) = (Returned false, run c w)
  /\ forall src v l ph nm ctx key,
      find_logged_key key (audit (run c w)) = None ->
      exists ev w2,
        trigger_emergency p src v l ph nm ctx key (run c w)
        = (Returned (Created ev), w2)
        /\ active w2 !! p = Some ev
        /\ status ev = PENDING_CONFIRMATION
        /\ event_id ev = uuid4 (uuid_draws w)
        /\ actions_taken ev = []
        /\ triggered_at ev = utcnow (2 + clock_reads w).
Proof.
  intros Hc He.
  assert (Hclosed : exists e1, active (run c w) !! p = Some e1
                               /\ is_terminal (status e1) = true
                               /\ uuid_draws (run c w) = uuid_draws w
                               /\ clock_reads (run c w)
                                  = (2 + clock_reads w)%nat).
  { destruct Hc as [-> | [-> | ->]]; cbn [Emergency.run].
    - destruct (cancel_stored utcnow p who w e He) as (a & -> & _).
      eexists. split; [apply lookup_insert_eq|]. repeat split.
    - destruct (resolve_stored utcnow p who w e He) as (a & -> & _).
      eexists. split; [apply lookup_insert_eq|]. repeat split.
    - destruct (override_stored utcnow p who w e He) as (a & -> & _).
      eexists. split; [apply lookup_insert_eq|]. repeat split. }
  destruct Hclosed as (e1 & He1 & Ht & Hu & Hcl).
  split.
  - unfold has_active_emergency, get_active_emergency, bind, _load_active,
      ret. rewrite He1, Ht. reflexivity.
  - intros src v l ph nm ctx key Hk.
    destruct (trigger_created_event p src v l ph nm ctx key (run c w) Hk)
      as (a & Hrun & _).
    { intros e0 He0. rewrite He1 in He0. injection He0 as <-. exact Ht. }
    eexists _, _. split; [exact Hrun|].
    split; [apply lookup_insert_eq|].
    cbn [status event_id actions_taken triggered_at].
    rewrite Hu, Hcl. repeat split.
Qed.

(** ** A whole lifecycle in the ledger *)

(** X10.  Trigger, escalate, resolve for a patient without an active
    emergency, under a key that is not logged, in a ledger with room for
    three entries: the ledger grows by exactly the three entries
    TRIGGERED, ESCALATED, RESOLVED, in this order and all with the id of
    the event created; the escalation entry lists the four actions; the
    stored event ends RESOLVED, with the four records and the resolver. *)
Theorem full_lifecycle_ledger p src v l ph nm ctx key l' who w :
  find_logged_key key (audit w) = None ->
  (forall e, active w !! p = Some e -> is_terminal (status e) = true) ->
  (length (audit w) + 3 <= 2000)%nat ->
  let w3 := run (Resolve p who)
              (run (Escalate p l')
                 (run (Trigger p src v l ph nm ctx key) w)) in
  exists a1 a2 a3 e3,
    audit w3 = audit w ++ [a1; a2; a3]
    /\ map event_type [a1; a2; a3]
       = [EMERGENCY_TRIGGERED; EMERGENCY_ESCALATED; EMERGENCY_RESOLVED]
    /\ map ae_event_id [a1; a2; a3]
       = [uuid4 (uuid_draws w); uuid4 (uuid_draws w); uuid4 (uuid_draws w)]
    /\ ae_actions a2 = Some ESCALATION_ACTIONS
    /\ ae_resolved_by a3 = Some who
    /\ active w3 !! p = Some e3
    /\ event_id e3 = uuid4 (uuid_draws w)
    /\ status e3 = RESOLVED
    /\ map action_name (actions_taken e3) = ESCALATION_ACTIONS
    /\ resolved_by e3 = Some who.
Proof.
  intros Hk Hfree Hroom w3. subst w3. cbn [Emergency.run].
  destruct (trigger_created_event p src v l ph nm ctx key w Hk Hfree)
    as (a1 & -> & Hty1 & Hid1 & _).
  cbn [snd].
  match goal with
  | |- context [Emergency.escalate_emergency _ _ _ _ _ p l' ?x] =>
      set (w1 := x)
  end.
  match type of Hid1 with
  | _ = ?i => set (id := i) in *
  end.
  assert (Ha1 : exists ev, active w1 !! p = Some ev
                           /\ status ev = PENDING_CONFIRMATION
                           /\ actions_taken ev = []
                           /\ event_id ev = id).
  { eexists. split; [apply lookup_insert_eq|]. repeat split. }
  destruct Ha1 as (ev & Hev & Hs & Hacts & Hevid).
  assert (Hlog1 : audit w1 = audit w ++ [a1]).
  { subst w1. cbn [audit]. apply last_n_all. rewrite length_app.
    cbn [length]. lia. }
  destruct (escalate_pending utcnow twilio_ready sms_accepted
              call_accepted voice_script p l' w1 ev Hev Hs)
    as (packet & e2 & a2 & Hrun2 & He2 & _ & Hty2 & Hid2 & _ & Hact2).
  rewrite Hrun2. cbn [snd].
  match goal with
  | |- context [Emergency.resolve_emergency _ p who ?x] => set (w2 := x)
  end.
  assert (Hev2 : active w2 !! p = Some e2) by apply lookup_insert_eq.
  assert (Hlog2 : audit w2 = audit w ++ [a1; a2]).
  { subst w2. cbn [audit]. rewrite Hlog1, <- app_assoc. cbn [app].
    apply last_n_all. rewrite length_app. cbn [length]. lia. }
  destruct (resolve_stored utcnow p who w2 e2 Hev2)
    as (a3 & Hrun3 & Hty3 & Hid3 & _ & Hby3).
  rewrite Hrun3. cbn [snd audit active].
  rewrite Hacts in He2, Hact2. cbn [app] in He2, Hact2.
  assert (He2id : event_id e2 = id).
  { rewrite He2.
    change (event_id (set_actions_taken ?x ?y)) with (event_id y).
    rewrite (proj1 (proj2 (escalating_fields _ _ _))). exact Hevid. }
  assert (He2acts : map action_name (actions_taken e2) = ESCALATION_ACTIONS).
  { rewrite He2. reflexivity. }
  exists a1, a2, a3. eexists.
  split.
  { rewrite Hlog2, <- app_assoc. cbn [app].
    apply last_n_all. rewrite length_app. cbn [length]. lia. }
  split; [cbn [map]; rewrite Hty1, Hty2, Hty3; reflexivity|].
  split; [cbn [map]; rewrite Hid1, Hid2, Hid3, Hevid, He2id; reflexivity|].
  split; [exact Hact2|]. split; [exact Hby3|].
  split; [apply lookup_insert_eq|].
  split; [exact He2id|]. split; [reflexivity|].
  split; [exact He2acts|reflexivity].
Qed.

(** ** What an escalation records as outcomes *)

(** X11.  Escalating a pending event appends the outcomes of the caretaker
    notification, the call and the GPS share, and a voice record without
    outcome.  The location passed to the call replaces the stored one,
    and the GPS share succeeds exactly when one of the two is there.
    Without a caretaker phone (none, empty, or the word unknown) the
    notification and the call are recorded as failed; with one they are
    recorded as succeeded when Twilio is not configured, and as what
    Twilio did when it is. *)
Theorem escalation_outcomes p l w e :
  active w !! p = Some e ->
  status e = PENDING_CONFIRMATION ->
  exists e' n d g,
    (escalate_emergency p l w).1 = Returned e'
    /\ map action_success (actions_taken e')
       = map action_success (actions_taken e)
           ++ [Some n; Some d; Some g; None]
    /\ location e' = from_option Some (location e) l
    /\ (g = true <-> is_Some l \/ is_Some (location e))
    /\ (truthy (caretaker_phone e) = None
        \/ caretaker_phone e = Some "unknown" ->
        n = false /\ d = false)
    /\ (forall phone,
           truthy (caretaker_phone e) = Some phone ->
           phone <> "unknown" ->
           n = (if twilio_ready then sms_accepted phone else true)
           /\ d = (if twilio_ready then call_accepted phone else true)).
Proof.
  intros He Hs.
  destruct (escalate_pending utcnow twilio_ready sms_accepted
              call_accepted voice_script p l w e He Hs)
    as (packet & e' & a & -> & -> & _).
  cbn [fst]. eexists _, _, _, _. split; [reflexivity|].
  change (actions_taken (set_actions_taken ?x ?y)) with x.
  change (location (set_actions_taken ?x ?y)) with (location y).
  rewrite map_app. split; [reflexivity|].
  destruct (escalating_stamps e l (utcnow (0 + clock_reads w)))
    as (_ & _ & _ & Hloc & Hph).
  split; [exact Hloc|].
  unfold _share_gps, _notify_caretaker, _dial_ambulance.
  rewrite Hloc, Hph.
  split; [|split].
  - destruct l as [x|]; cbn [from_option].
    + split; [intros _; left; eexists; reflexivity|reflexivity].
    + destruct (location e) as [x|].
      * split; [intros _; right; eexists; reflexivity|reflexivity].
      * split; [discriminate|].
        intros [[x Hx]|[x Hx]]; discriminate Hx.
  - intros [Hn | Hu].
    + rewrite Hn. split; reflexivity.
    + rewrite Hu. cbn. split; reflexivity.
  - intros phone Hp Hne. rewrite Hp.
    rewrite bool_decide_eq_false_2 by exact Hne. split; reflexivity.
Qed.

End MoreCalls.

(** ** The properties on the demo run *)

#[local] Abbreviation demo_run :=
  (run Demo.utcnow Demo.uuid4 false (fun _ => false) (fun _ => false)
       Demo.voice_script).
#[local] Abbreviation demo_reachable :=
  (reachable Demo.utcnow Demo.uuid4 false (fun _ => false)
             (fun _ => false) Demo.voice_script).

Lemma escalated_once_reachable : demo_reachable Demo.escalated_once.
Proof.
  apply (reachable_run _ _ _ _ _ _ (Escalate "p1" None)
           Demo.triggered_once).
  apply triggered_once_reachable.
Qed.

Lemma cancelled_once_reachable : demo_reachable Demo.cancelled_once.
Proof.
  apply (reachable_run _ _ _ _ _ _ (Cancel "p1" "PATIENT")
           Demo.triggered_once).
  apply triggered_once_reachable.
Qed.

Lemma get_audit_log_window_witness :
  exists out,
    get_audit_log (Some "p1") 1 Demo.escalated_once
    = (Returned out, Demo.escalated_once)
    /\ (Z.of_nat (length out) <= 1)%Z.
Proof.
  destruct (get_audit_log_window (Some "p1") 1 Demo.escalated_once)
    as (out & Hrun & Hpos & _).
  exists out. split; [exact Hrun|]. apply Hpos. lia.
Defined.

Lemma audit_log_append_only_witness :
  (length (audit Demo.triggered_once) <= 2000)%nat
  /\ audit Demo.triggered_once
     `prefix_of` audit (demo_run (Escalate "p1" None) Demo.triggered_once).
Proof.
  destruct (audit_log_append_only Demo.utcnow Demo.uuid4 false
              (fun _ => false) (fun _ => false) Demo.voice_script)
    as (Hcap & _ & Hpre).
  split.
  - apply Hcap, triggered_once_reachable.
  - apply Hpre. vm_compute. lia.
Defined.

Lemma escalation_recorded_once_witness :
  exists e, active Demo.escalated_once !! "p1" = Some e
            /\ status e = ESCALATED /\ recorded_once e.
Proof.
  eexists. split; [vm_compute; reflexivity|]. split; [reflexivity|].
  eapply (escalation_recorded_once Demo.utcnow Demo.uuid4 false
            (fun _ => false) (fun _ => false) Demo.voice_script
            Demo.escalated_once escalated_once_reachable "p1").
  vm_compute. reflexivity.
Defined.

Lemma stored_events_well_stamped_witness :
  exists e, active Demo.cancelled_once !! "p1" = Some e
            /\ status e = CANCELLED /\ well_stamped "p1" e.
Proof.
  eexists. split; [vm_compute; reflexivity|]. split; [reflexivity|].
  eapply (stored_events_well_stamped Demo.utcnow Demo.uuid4 false
            (fun _ => false) (fun _ => false) Demo.voice_script
            Demo.cancelled_once cancelled_once_reachable "p1").
  vm_compute. reflexivity.
Defined.

Lemma calls_touch_one_patient_witness :
  active (demo_run (Trigger "p2" FALL_DETECTION None None None None None None)
            Demo.triggered_once) !! "p1"
  = active Demo.triggered_once !! "p1".
Proof.
  apply (calls_touch_one_patient Demo.utcnow Demo.uuid4 false
           (fun _ => false) (fun _ => false) Demo.voice_script).
  cbn. discriminate.
Defined.

Lemma escalate_twice_is_noop_witness :
  exists e1,
    (Demo.escalate "p1" Demo.triggered_once).1 = Returned e1
    /\ Demo.escalate "p1" (Demo.escalate "p1" Demo.triggered_once).2
       = (Returned e1, (Demo.escalate "p1" Demo.triggered_once).2).
Proof.
  eapply (escalate_twice_is_noop Demo.utcnow false (fun _ => false)
            (fun _ => false) Demo.voice_script "p1" None None
            Demo.triggered_once).
  vm_compute. reflexivity.
Defined.

Lemma lifecycle_raises_iff_no_event_witness :
  cancel_emergency Demo.utcnow "p1" "PATIENT" empty_world
  = (Raised (ValueError "No active emergency for p1"), empty_world)
  /\ exists e',
      (cancel_emergency Demo.utcnow "p1" "PATIENT" Demo.triggered_once).1
      = Returned e'
      /\ status e' = CANCELLED.
Proof.
  destruct (lifecycle_raises_iff_no_event Demo.utcnow false
              (fun _ => false) (fun _ => false) Demo.voice_script
              "p1" empty_world) as [Hnone _].
  destruct (lifecycle_raises_iff_no_event Demo.utcnow false
              (fun _ => false) (fun _ => false) Demo.voice_script
              "p1" Demo.triggered_once) as [_ Hsome].
  split.
  - destruct (Hnone eq_refl) as (_ & Hc & _). exact (Hc "PATIENT").
  - destruct Hsome as (_ & Hc & _).
    + vm_compute. eexists. reflexivity.
    + exact (Hc "PATIENT").
Defined.

Lemma replay_keeps_event_id_witness :
  exists ev a w1,
    Demo.trigger "p1" (Some "k1") empty_world = (Returned (Created ev), w1)
    /\ trigger_emergency Demo.utcnow Demo.uuid4 "p2" FALL_DETECTION None None
         None None None (Some "k1") w1
       = (Returned (Duplicate a), w1)
    /\ ae_event_id a = event_id ev
    /\ event_type a = EMERGENCY_TRIGGERED
    /\ filter (fun b => ae_idempotency_key b = Some "k1") (audit w1) = [a].
Proof.
  apply (replay_keeps_event_id Demo.utcnow Demo.uuid4
           "p1" MANUAL_SOS None None None None None "k1" empty_world
           "p2" FALL_DETECTION None None None None None).
  - discriminate.
  - reflexivity.
  - intros e H. cbn in H. rewrite lookup_empty in H. discriminate H.
Defined.

Lemma close_then_trigger_replaces_witness :
  has_active_emergency "p1" Demo.cancelled_once
  = (Returned false, Demo.cancelled_once)
  /\ exists ev w2,
      Demo.trigger "p1" (Some "k2") Demo.cancelled_once
      = (Returned (Created ev), w2)
      /\ active w2 !! "p1" = Some ev
      /\ status ev = PENDING_CONFIRMATION
      /\ event_id ev = Demo.uuid4 (uuid_draws Demo.triggered_once)
      /\ actions_taken ev = []
      /\ triggered_at ev = Demo.utcnow (2 + clock_reads Demo.triggered_once).
Proof.
  edestruct (close_then_trigger_replaces Demo.utcnow Demo.uuid4 false
               (fun _ => false) (fun _ => false) Demo.voice_script
               (Cancel "p1" "PATIENT") "p1" "PATIENT" Demo.triggered_once)
    as [Hno Hnew].
  - left. reflexivity.
  - vm_compute. reflexivity.
  - split; [exact Hno|].
    apply (Hnew MANUAL_SOS None None None None None (Some "k2")).
    vm_compute. reflexivity.
Defined.

Lemma full_lifecycle_ledger_witness :
  exists a1 a2 a3 e3,
    audit (demo_run (Resolve "p1" "PATIENT")
             (demo_run (Escalate "p1" None) Demo.triggered_once))
    = [a1; a2; a3]
    /\ map event_type [a1; a2; a3]
       = [EMERGENCY_TRIGGERED; EMERGENCY_ESCALATED; EMERGENCY_RESOLVED]
    /\ ae_actions a2 = Some ESCALATION_ACTIONS
    /\ active (demo_run (Resolve "p1" "PATIENT")
                 (demo_run (Escalate "p1" None) Demo.triggered_once))
         !! "p1" = Some e3
    /\ status e3 = RESOLVED.
Proof.
  destruct (full_lifecycle_ledger Demo.utcnow Demo.uuid4 false
              (fun _ => false) (fun _ => false) Demo.voice_script
              "p1" MANUAL_SOS None None None None None (Some "k1") None
              "PATIENT" empty_world)
    as (a1 & a2 & a3 & e3 & Hlog & Hty & _ & Hact & _ & Hst & _ & Hs & _).
  - reflexivity.
  - intros e H. cbn in H. rewrite lookup_empty in H. discriminate H.
  - cbn. lia.
  - exists a1, a2, a3, e3. repeat split; assumption.
Defined.

Lemma escalation_outcomes_witness :
  exists e',
    (Demo.escalate "p1" Demo.triggered_once).1 = Returned e'
    /\ map action_success (actions_taken e')
       = [Some false; Some false; Some false; None].
Proof.
  edestruct (escalation_outcomes Demo.utcnow false (fun _ => false)
               (fun _ => false) Demo.voice_script "p1" None
               Demo.triggered_once)
    as (e' & n & d & g & Hrun & Hout & _ & Hg & Hnone & _).
  - vm_compute. reflexivity.
  - reflexivity.
  - exists e'. split; [exact Hrun|]. rewrite Hout.
    destruct (Hnone (or_introl eq_refl)) as [-> ->].
    destruct g; [|reflexivity].
    destruct (proj1 Hg eq_refl) as [[x Hx]|[x Hx]]; discriminate Hx.
Defined.

End EmergencyMore.

(** * Further properties of the vitals engine *)

Module VitalsMore.

Import Vitals VitalsSpec VitalsFacts.

(** ** The threshold table *)

Lemma thresholds_entries metric t :
  THRESHOLDS !! metric = Some t ->
  (metric, t) ∈
    [("heart_rate",       band "bpm" 40 50 60 100 120 150);
     ("systolic_bp",      band "mmHg" 70 90 90 129 139 180);
     ("diastolic_bp",     band "mmHg" 40 60 60 89 89 120);
     ("spo2",             band "%" 88 92 95 100 100 100);
     ("temperature_f",    band "°F" 95 (968 # 10) 97 99 (1004 # 10) 103);
     ("respiratory_rate", band "breaths/min" 8 10 12 20 24 30)].
Proof. intros H. apply elem_of_list_to_map_2 in H. exact H. Qed.

Lemma thresholds_ordered metric t :
  THRESHOLDS !! metric = Some t ->
  critical_low t < warning_low t
  /\ warning_low t < warning_high t
  /\ warning_high t <= critical_high t.
Proof.
  intros H. apply thresholds_entries in H.
  repeat (apply elem_of_cons in H as [H|H];
          [injection H as -> ->; cbn; repeat split; lra|]).
  apply elem_of_nil in H. destruct H.
Qed.

Lemma check_threshold_some metric v t :
  THRESHOLDS !! metric = Some t ->
  exists r,
    check_threshold metric v = Some r
    /\ tr_metric r = metric /\ tr_value r = v
    /\ (tr_auto_emergency r = true
        <-> v <= critical_low t \/ critical_high t <= v).
Proof.
  intros Ht. unfold check_threshold. rewrite Ht.
  destruct (thresholds_ordered metric t Ht) as (H1 & H2 & H3).
  destruct (Num.leb v (critical_low t)) eqn:E1;
    [apply leb_le in E1 | apply leb_nle in E1];
    [|destruct (Num.leb v (warning_low t)) eqn:E2;
      [apply leb_le in E2 | apply leb_nle in E2];
      [|destruct (Num.leb (critical_high t) v) eqn:E3;
        [apply leb_le in E3 | apply leb_nle in E3];
        [|destruct (Num.leb (warning_high t) v) eqn:E4;
          [apply leb_le in E4 | apply leb_nle in E4]]]];
    (eexists; split; [reflexivity|]; cbn;
     do 2 (split; [reflexivity|]);
     split; intros H; try discriminate; try reflexivity; try tauto;
     destruct H; try lra).
Qed.

(** X12.  For a tracked metric [check_threshold] returns a result for the
    metric and the value, and with the table as it is the severity is
    decided by the band alone: critical exactly at or beyond a critical
    bound, warning exactly between a critical and a warning bound (the
    warning bound included), normal exactly strictly between the two
    warning bounds; the emergency flag is set exactly when the severity
    is critical.  For any other metric it returns None. *)
Theorem check_threshold_by_band (metric : string) (v : Q) :
  match THRESHOLDS !! metric with
  | None => check_threshold metric v = None
  | Some t =>
      exists r,
        check_threshold metric v = Some r
        /\ tr_metric r = metric /\ tr_value r = v /\ tr_unit r = unit t
        /\ (tr_severity r = critical
            <-> v <= critical_low t \/ critical_high t <= v)
        /\ (tr_severity r = warning
            <-> (critical_low t < v /\ v <= warning_low t)
                \/ (warning_high t <= v /\ v < critical_high t))
        /\ (tr_severity r = normal
            <-> warning_low t < v /\ v < warning_high t)
        /\ (tr_auto_emergency r = true <-> tr_severity r = critical)
  end.
Proof.
  unfold check_threshold.
  destruct (THRESHOLDS !! metric) as [t|] eqn:Ht; [|reflexivity].
  destruct (thresholds_ordered metric t Ht) as (H1 & H2 & H3).
  destruct (Num.leb v (critical_low t)) eqn:E1;
    [apply leb_le in E1 | apply leb_nle in E1];
    [|destruct (Num.leb v (warning_low t)) eqn:E2;
      [apply leb_le in E2 | apply leb_nle in E2];
      [|destruct (Num.leb (critical_high t) v) eqn:E3;
        [apply leb_le in E3 | apply leb_nle in E3];
        [|destruct (Num.leb (warning_high t) v) eqn:E4;
          [apply leb_le in E4 | apply leb_nle in E4]]]];
    (eexists; split; [reflexivity|]; cbn;
     do 3 (split; [reflexivity|]);
     repeat split; intros; try discriminate; try reflexivity; try lra;
     repeat match goal with
            | H : _ \/ _ |- _ => destruct H
            | H : _ /\ _ |- _ => destruct H
            end; try lra).
Qed.

(** X13.  [check_all_thresholds] gives one result for every reading of a
    tracked metric, in the order of the readings, and nothing for the
    other readings. *)
Theorem check_all_thresholds_tracked (vitals : list (string * Q)) :
  map (fun r => (tr_metric r, tr_value r)) (check_all_thresholds vitals)
  = filter (fun kv => is_Some (THRESHOLDS !! kv.1)) vitals.
Proof.
  unfold check_all_thresholds.
  induction vitals as [|[k v] rest IH]; [reflexivity|].
  cbn [omap list_omap fst snd].
  destruct (THRESHOLDS !! k) as [t|] eqn:Ht.
  - destruct (check_threshold_some k v t Ht) as (r & -> & Hm & Hv & _).
    rewrite filter_cons_True by (cbn [fst]; rewrite Ht; eexists; reflexivity).
    cbn [map]. rewrite Hm, Hv. f_equal. exact IH.
  - unfold check_threshold at 1. rewrite Ht.
    rewrite filter_cons_False
      by (cbn [fst]; rewrite Ht; intros [x Hx]; discriminate Hx).
    exact IH.
Qed.

(** ** Outliers *)

(** The difference of a number and itself is 0.0, or NaN. *)
Lemma sub_diag (x : Float.float) :
  Float.sub x x = Float.zero \/ Float.sub x x = S754_nan.
Proof.
  destruct x as [[|]|[|]| |s m e]; try (left; reflexivity);
    try (right; reflexivity).
  left. unfold Float.sub, SFsub. rewrite Z.sub_diag. reflexivity.
Qed.

(** A z-score of 0.0 or NaN is below every positive threshold. *)
Lemma zero_score_below (x sigma thr : Float.float) :
  x = Float.zero \/ x = S754_nan ->
  Float.eqb sigma Float.zero = false ->
  Float.ltb Float.zero thr = true ->
  Float.leb thr (Float.abs (Float.quotient x sigma)) = false.
Proof.
  intros [->| ->] Hs Ht;
    destruct sigma as [[|]|[|]| |[|] ? ?]; try discriminate Hs;
    destruct thr as [[|]|[|]| |[|] ? ?]; try discriminate Ht;
    reflexivity.
Qed.

(** X14.  With fewer than 5 readings of history [detect_outlier] returns,
    flags nothing and reports zero scores.  With 5 or more it raises
    exactly what [_std] raises on the history and its mean: never a
    division by zero, but an [OverflowError] when the square of a
    deviation overflows, or the error of [math.sqrt] when the variance
    computed is below 0; otherwise it returns, and with a positive
    threshold a new value equal to the mean of the history is not
    flagged. *)
Theorem detect_outlier_quiet
        (libm_pow : Float.float -> Float.float -> Float.float)
        (new_value : Float.float) (history : list Float.float)
        (z_threshold : Float.float) :
  ((length history < 5)%nat ->
   exists r,
     detect_outlier libm_pow new_value history z_threshold
     = Float.Returns r
     /\ is_outlier r = false /\ z_score r = Float.zero
     /\ deviation_pct r = Float.zero)
  /\ ((5 <= length history)%nat ->
      let mu := Float.quotient (Float.sum history)
                               (Float.of_nat (length history)) in
      (forall e,
          detect_outlier libm_pow new_value history z_threshold
          = Float.Raises e
          <-> _std libm_pow history mu = Float.Raises e)
      /\ (forall e,
             detect_outlier libm_pow new_value history z_threshold
             = Float.Raises e ->
             (e = Float.OverflowError
              /\ exists v,
                  v ∈ history
                  /\ float_pow2 libm_pow (Float.sub v mu)
                     = Float.Raises Float.OverflowError)
             \/ (e = Float.MathDomainError
                 /\ exists squares,
                     mapM (fun v => float_pow2 libm_pow (Float.sub v mu))
                          history
                     = Float.Returns squares
                     /\ Float.ltb
                          (Float.quotient (Float.sum squares)
                             (Float.of_nat (length history)))
                          Float.zero = true))
      /\ (forall r,
             detect_outlier libm_pow new_value history z_threshold
             = Float.Returns r ->
             Float.ltb Float.zero z_threshold = true ->
             new_value = mu ->
             is_outlier r = false)).
Proof.
  split.
  - intros Hlen. unfold detect_outlier.
    apply Nat.ltb_lt in Hlen. rewrite Hlen.
    eexists. split; [reflexivity|]. repeat split.
  - intros Hlen mu.
    destruct (detect_outlier_long libm_pow new_value history z_threshold
                                  Hlen) as [Hraise Hret].
    fold mu in Hraise, Hret.
    assert (Hpos : (0 < length history)%nat) by lia.
    assert (Hiff : forall e,
               detect_outlier libm_pow new_value history z_threshold
               = Float.Raises e
               <-> _std libm_pow history mu = Float.Raises e).
    { intros e. split; [|apply Hraise].
      destruct (_std libm_pow history mu) as [sigma|e'] eqn:Es.
      - destruct (Hret sigma eq_refl) as (r & -> & _). discriminate.
      - rewrite (Hraise e' eq_refl). intros H. injection H as <-.
        reflexivity. }
    split; [exact Hiff|]. split.
    + intros e He. apply Hiff in He.
      apply (std_raises _ _ _ _ Hpos He).
    + intros r Hr Hthr Hnew.
      destruct (_std libm_pow history mu) as [sigma|e'] eqn:Es.
      2: { rewrite (Hraise e' eq_refl) in Hr. discriminate Hr. }
      destruct (Hret sigma eq_refl) as (r' & Hr' & Hsmall & Hbig).
      rewrite Hr in Hr'. injection Hr' as <-.
      subst new_value. pose proof (sub_diag mu) as Hd.
      destruct (Float.ltb sigma (Float.of_Q (1 # 1000000))) eqn:E1.
      * destruct (Hsmall eq_refl) as (_ & Hz & Ho).
        rewrite Ho, Hz. destruct Hd as [-> | ->]; reflexivity.
      * destruct (Hbig eq_refl) as (_ & Ho & _). rewrite Ho.
        apply zero_score_below;
          [exact Hd | apply sigma_not_small, E1 | exact Hthr].
Qed.

(** ** Smoothing *)

Lemma smooth_readings_returns (readings : list Float.float) (window : Z) :
  (1 <= window)%Z ->
  exists out,
    smooth_readings readings window = Float.Returns out
    /\ length out = length readings.
Proof.
  intros Hw.
  destruct (Z.lt_ge_cases (Z.of_nat (length readings)) window) as [H|H].
  - exists readings. split; [|reflexivity].
    unfold smooth_readings. apply Z.ltb_lt in H. rewrite H. reflexivity.
  - unfold smooth_readings.
    destruct (Z.ltb_spec (Z.of_nat (length readings)) window) as [?|_];
      [lia|].
    eexists. split.
    + apply mapM_returns. intros i Hi. apply elem_of_seq in Hi.
      apply smooth_entry; [exact Hw | lia].
    + rewrite length_map, length_seq. reflexivity.
Qed.

(** X15.  [smooth_readings] fails, by the division by zero of [_mean] on an
    empty slice, exactly when the window is 0 or negative and there is a
    reading; whenever it returns, the list returned is as long as the
    input. *)
Theorem smooth_readings_raises_iff (readings : list Float.float)
        (window : Z) :
  (forall e,
      smooth_readings readings window = Float.Raises e
      <-> e = Float.ZeroDivisionError
          /\ (window <= 0)%Z /\ readings <> [])
  /\ (forall out, smooth_readings readings window = Float.Returns out ->
                  length out = length readings).
Proof.
  destruct (Z.le_gt_cases window 0) as [Hw|Hw].
  - destruct readings as [|x readings].
    + assert (Hr : smooth_readings [] window = Float.Returns [])
        by (unfold smooth_readings; destruct (_ <? _)%Z; reflexivity).
      rewrite Hr. split.
      * intros e. split; [discriminate|]. intros (_ & _ & H). congruence.
      * intros out H. injection H as <-. reflexivity.
    + assert (Hr : smooth_readings (x :: readings) window
                   = Float.Raises Float.ZeroDivisionError).
      { unfold smooth_readings.
        destruct (Z.ltb_spec (Z.of_nat (length (x :: readings))) window)
          as [Hlt|_]; [cbn [length] in Hlt; lia|].
        cbn [length seq mapM]. unfold slice.
        replace (0 + 1 - Z.to_nat (Z.max 0 (Z.of_nat 0 - window + 1)))%nat
          with 0%nat by lia.
        rewrite take_0. reflexivity. }
      rewrite Hr. split.
      * intros e. split.
        -- intros H. injection H as <-. repeat split; [exact Hw|discriminate].
        -- intros (-> & _). reflexivity.
      * intros out H. discriminate H.
  - destruct (smooth_readings_returns readings window ltac:(lia))
      as (out & Hout & Hlen).
    rewrite Hout. split.
    + intros e. split; [discriminate|]. intros (_ & H & _). lia.
    + intros out' H. injection H as <-. exact Hlen.
Qed.

(** ** Risk flags *)

Lemma unique_flags_spec seen (l : list RiskFlag) :
  NoDup (map flag_id (unique_flags seen l))
  /\ (forall f, f ∈ unique_flags seen l -> f ∈ l /\ flag_id f ∉ seen)
  /\ (forall f, f ∈ l -> flag_id f ∉ seen ->
                exists g, g ∈ unique_flags seen l
                          /\ flag_id g = flag_id f).
Proof.
  revert seen. induction l as [|x l IH]; intros seen; cbn [unique_flags].
  - split; [constructor|].
    split; intros f H; apply elem_of_nil in H; destruct H.
  - destruct (decide (flag_id x ∈ seen)) as [Hx|Hx].
    + destruct (IH seen) as (Hn & Hin & Hall). split; [exact Hn|]. split.
      * intros f Hf. destruct (Hin f Hf) as [H1 H2].
        split; [right|]; assumption.
      * intros f Hf Hs. apply elem_of_cons in Hf as [->|Hf];
          [contradiction|]. apply Hall; assumption.
    + destruct (IH ({[flag_id x]} ∪ seen)) as (Hn & Hin & Hall).
      split; [|split].
      * cbn [map]. apply NoDup_cons. split; [|exact Hn].
        intros Hm. apply list_elem_of_In, in_map_iff in Hm
          as (g & Hg & Hgin).
        apply list_elem_of_In in Hgin.
        destruct (Hin g Hgin) as [_ Hns]. apply Hns. rewrite Hg.
        apply elem_of_union. left. apply elem_of_singleton. reflexivity.
      * intros f Hf. apply elem_of_cons in Hf as [->|Hf].
        -- split; [left|assumption].
        -- destruct (Hin f Hf) as [H1 H2].
           split; [right; assumption|].
           intros Hc. apply H2, elem_of_union. right. exact Hc.
      * intros f Hf Hs. apply elem_of_cons in Hf as [->|Hf].
        -- exists x. split; [left|reflexivity].
        -- destruct (decide (flag_id f = flag_id x)) as [Heq|Hne].
           ++ exists x. split; [left|symmetry; exact Heq].
           ++ destruct (Hall f Hf) as (g & Hg & Hge).
              { intros Hc. apply elem_of_union in Hc as [Hc|Hc];
                  [apply elem_of_singleton in Hc|]; contradiction. }
              exists g. split; [right|]; assumption.
Qed.

Lemma elem_of_concat_map {A B} (f : A -> list B) (l : list A) (y : B) :
  y ∈ concat (map f l) <-> exists x, x ∈ l /\ y ∈ f x.
Proof.
  rewrite list_elem_of_In, in_concat. split.
  - intros (ys & Hys & Hy). apply in_map_iff in Hys as (x & <- & Hx).
    exists x. split; apply list_elem_of_In; assumption.
  - intros (x & Hx & Hy). exists (f x). split.
    + apply in_map. apply list_elem_of_In. exact Hx.
    + apply list_elem_of_In. exact Hy.
Qed.

(** X16.  The flags [generate_risk_flags] returns have pairwise different
    ids; each is a flag one of the three rules raised (for a threshold
    result, for a trend, or the combination rule) and none has severity
    normal; and every threshold result that is not normal is answered by
    the flag of its metric and severity. *)
Theorem generate_risk_flags_distinct
        (current_vitals : gmap string Q) (trends : list TrendResult)
        (threshold_results : list ThresholdResult) :
  let out := generate_risk_flags current_vitals trends threshold_results in
  NoDup (map flag_id out)
  /\ (forall f,
         f ∈ out ->
         severity f <> normal
         /\ ((exists tr, tr ∈ threshold_results /\ f ∈ threshold_flags tr)
             \/ (exists t, t ∈ trends /\ f ∈ trend_flags t)
             \/ f ∈ combo_flags current_vitals))
  /\ (forall tr,
         tr ∈ threshold_results ->
         tr_severity tr <> normal ->
         exists f,
           f ∈ out
           /\ flag_id f
              = ("threshold_" ++ tr_metric tr ++ "_"
                   ++ severity_str (tr_severity tr))%string).
Proof.
  intros out. subst out. unfold generate_risk_flags.
  match goal with
  | |- context [unique_flags ∅ ?l] => set (flags := l)
  end.
  destruct (unique_flags_spec ∅ flags) as (Hn & Hin & Hall).
  split; [exact Hn|]. split.
  - intros f Hf. destruct (Hin f Hf) as [Hfl _]. subst flags.
    apply elem_of_app in Hfl as [H|H];
      [|apply elem_of_app in H as [H|H]].
    + apply elem_of_concat_map in H as (tr & Htr & Hf').
      split; [|left; exists tr; split; assumption].
      unfold threshold_flags in Hf'.
      destruct (tr_severity tr) eqn:Hs; cbn in Hf';
        try (apply elem_of_nil in Hf'; destruct Hf');
        apply list_elem_of_singleton in Hf'; subst f; cbn; discriminate.
    + apply elem_of_concat_map in H as (t & Ht & Hf').
      split; [|right; left; exists t; split; assumption].
      unfold trend_flags in Hf'.
      apply elem_of_app in Hf' as [Hf'|Hf'];
        repeat match type of Hf' with
               | _ ∈ (if ?c then _ else _) => destruct c
               | _ ∈ [] => apply elem_of_nil in Hf'; destruct Hf'
               | _ ∈ [_] =>
                   apply list_elem_of_singleton in Hf'; subst f; cbn;
                   discriminate
               end.
    + split; [|right; right; exact H].
      unfold combo_flags in H.
      destruct (_ && _) in H;
        [apply list_elem_of_singleton in H; subst f; cbn; discriminate
        |apply elem_of_nil in H; destruct H].
  - intros tr Htr Hs.
    set (f0 := {| flag_id := "threshold_" ++ tr_metric tr ++ "_"
                              ++ severity_str (tr_severity tr);
                  severity := tr_severity tr;
                  title := TitleAbnormal (tr_metric tr);
                  detail := DetailThreshold (tr_message tr);
                  recommendation :=
                    if bool_decide (tr_severity tr = critical)
                    then SeekImmediateCare else MonitorClosely |}).
    assert (Hf0 : f0 ∈ flags).
    { subst flags. apply elem_of_app. left. apply elem_of_concat_map.
      exists tr. split; [exact Htr|]. unfold threshold_flags.
      destruct (tr_severity tr) eqn:E; [congruence| |];
        subst f0; cbn; left. }
    destruct (Hall f0 Hf0) as (g & Hg & Hid); [apply not_elem_of_empty|].
    exists g. split; [exact Hg|exact Hid].
Qed.

(** ** The properties at concrete readings *)

Lemma check_threshold_by_band_witness :
  exists r,
    check_threshold "heart_rate" 45 = Some r
    /\ tr_severity r = warning
    /\ tr_auto_emergency r <> true.
Proof.
  pose proof (check_threshold_by_band "heart_rate" 45) as H.
  assert (Hb : THRESHOLDS !! "heart_rate"
               = Some (band "bpm" 40 50 60 100 120 150)) by reflexivity.
  rewrite Hb in H.
  destruct H as (r & Hr & _ & _ & _ & Hc & Hw & _ & Ha).
  exists r. split; [exact Hr|].
  assert (Hs : tr_severity r = warning).
  { apply Hw. left. cbn. split; lra. }
  split; [exact Hs|].
  intros Hauto. apply Ha in Hauto. rewrite Hs in Hauto. discriminate Hauto.
Defined.

Lemma detect_outlier_quiet_witness :
  detect_outlier Float.square_pow (Float.of_Z 70)
                 (map Float.of_Q
                      [10 ^ 200; 70; 70; 70; 70]) default_z_threshold
  = Float.Raises Float.OverflowError
  /\ exists r,
      detect_outlier Float.square_pow (Float.of_Z 72)
                     (map Float.of_Q [70; 72; 74; 71; 73])
                     default_z_threshold
      = Float.Returns r
      /\ is_outlier r = false.
Proof.
  split.
  - apply (proj2 (detect_outlier_quiet
                    Float.square_pow (Float.of_Z 70)
                    (map Float.of_Q [10 ^ 200; 70; 70; 70; 70])
                    default_z_threshold)).
    + cbn. lia.
    + vm_compute. reflexivity.
  - destruct (proj2 (detect_outlier_quiet
                       Float.square_pow (Float.of_Z 72)
                       (map Float.of_Q [70; 72; 74; 71; 73])
                       default_z_threshold))
      as (_ & _ & Hq); [cbn; lia|].
    eexists. split; [vm_compute; reflexivity|].
    apply Hq; vm_compute; reflexivity.
Defined.

Lemma smooth_readings_raises_iff_witness :
  smooth_readings (map Float.of_Q [1; 2]) 0
  = Float.Raises Float.ZeroDivisionError
  /\ exists out,
      smooth_readings (map Float.of_Q [1; 2; 3]) 2 = Float.Returns out
      /\ length out = 3%nat.
Proof.
  split.
  - apply (smooth_readings_raises_iff (map Float.of_Q [1; 2]) 0).
    split; [reflexivity|]. split; [lia|discriminate].
  - eexists. split; [vm_compute; reflexivity|].
    apply (smooth_readings_raises_iff (map Float.of_Q [1; 2; 3]) 2).
    vm_compute. reflexivity.
Defined.

Lemma generate_risk_flags_distinct_witness :
  exists tr f,
    check_threshold "spo2" 85 = Some tr
    /\ f ∈ generate_risk_flags {[ "spo2" := 85 ]} [] [tr; tr]
    /\ flag_id f = "threshold_spo2_critical"
    /\ NoDup (map flag_id
                (generate_risk_flags {[ "spo2" := 85 ]} [] [tr; tr])).
Proof.
  destruct (check_threshold "spo2" 85) as [tr|] eqn:Htr;
    [|vm_compute in Htr; discriminate Htr].
  assert (Hsev : tr_severity tr = critical /\ tr_metric tr = "spo2").
  { vm_compute in Htr. injection Htr as <-. split; reflexivity. }
  destruct Hsev as [Hsev Hm].
  destruct (generate_risk_flags_distinct {[ "spo2" := 85 ]} [] [tr; tr])
    as (Hnd & _ & Hall).
  destruct (Hall tr) as (f & Hf & Hid).
  - left.
  - rewrite Hsev. discriminate.
  - exists tr, f. split; [reflexivity|]. split; [exact Hf|].
    split; [|exact Hnd]. rewrite Hid, Hsev, Hm. reflexivity.
Defined.

End VitalsMore.
(** * Further properties of the trend analysis *)

Module TrendFacts.

Import Vitals VitalsSpec VitalsFacts.

Lemma last_replicate {A} (n : nat) (y d : A) :
  List.last (replicate (S n) y) d = y.
Proof.
  induction n as [|n IH]; [reflexivity|].
  change (replicate (S (S n)) y) with (y :: replicate (S n) y).
  cbn [List.last]. exact IH.
Qed.

(** The change over a window whose first and last reading are the same
    finite number is a zero. *)
Lemma change_of_equal_ends (y : Float.float) :
  Float.is_finite y = true ->
  Float.abs
    (if negb (Float.eqb y Float.zero)
     then Float.mul (Float.quotient (Float.sub y y) y) (Float.of_Z 100)
     else Float.zero)
  = Float.zero
  /\ Float.eqb
       (Float.round
          (if negb (Float.eqb y Float.zero)
           then Float.mul (Float.quotient (Float.sub y y) y)
                          (Float.of_Z 100)
           else Float.zero) 2)
       Float.zero = true.
Proof.
  destruct y as [[|]|[|]| |s m e]; intros H; try discriminate H;
    try (split; reflexivity).
  assert (Hs : Float.sub (S754_finite s m e) (S754_finite s m e)
               = Float.zero).
  { unfold Float.sub, SFsub. rewrite Z.sub_diag. reflexivity. }
  rewrite Hs. destruct s; split; reflexivity.
Qed.

(** X17.  A window of at least 3 readings that are all the same finite
    number is reported stable, with a change of 0 percent, for every
    threshold that is not negative: in double arithmetic too the
    difference of a reading and itself is 0. *)
Theorem constant_window_is_stable (metric : string) (y : Float.float)
        (n : nat) (stable_threshold_pct : Float.float) :
  (3 <= n)%nat ->
  Float.is_finite y = true ->
  Float.leb Float.zero stable_threshold_pct = true ->
  let r := analyze_trend metric (replicate n y) stable_threshold_pct in
  direction r = stable
  /\ Float.eqb (change_pct_over_window r) Float.zero = true.
Proof.
  intros Hn Hy Hthr r. subst r. unfold analyze_trend.
  rewrite length_replicate.
  destruct (Nat.ltb_spec n 3) as [Hlt|_]; [lia|].
  destruct n as [|n]; [lia|].
  unfold trend_change_pct. rewrite last_replicate.
  change (nth 0 (replicate (S n) y) Float.zero) with y.
  destruct (change_of_equal_ends y Hy) as [Ha Hr].
  rewrite Ha, Hthr. split; [reflexivity | exact Hr].
Qed.

(** X18.  A window of at least 3 readings that starts at 0 is reported stable
    whatever follows, with a change of 0 percent: the change is taken
    relative to the first reading, and set to 0 when that is 0. *)
Theorem zero_start_is_stable (metric : string)
        (readings : list Float.float)
        (stable_threshold_pct : Float.float) :
  (3 <= length readings)%nat ->
  Float.leb Float.zero stable_threshold_pct = true ->
  Float.eqb (nth 0 readings Float.zero) Float.zero = true ->
  direction (analyze_trend metric readings stable_threshold_pct) = stable
  /\ change_pct_over_window
       (analyze_trend metric readings stable_threshold_pct) = Float.zero.
Proof.
  intros Hn Hthr H0. unfold analyze_trend.
  destruct (Nat.ltb_spec (length readings) 3) as [Hlt|_]; [lia|].
  assert (Hc : trend_change_pct readings = Float.zero).
  { unfold trend_change_pct. rewrite H0. reflexivity. }
  rewrite Hc. change (Float.abs Float.zero) with Float.zero.
  rewrite Hthr. split; reflexivity.
Qed.

(** ** The properties at concrete windows *)

Lemma constant_window_is_stable_witness :
  direction (analyze_trend "heart_rate" (replicate 4 (Float.of_Q (986 # 10)))
                           default_stable_threshold_pct) = stable.
Proof.
  apply (constant_window_is_stable "heart_rate" (Float.of_Q (986 # 10)) 4
           default_stable_threshold_pct).
  - lia.
  - vm_compute. reflexivity.
  - vm_compute. reflexivity.
Defined.

Lemma zero_start_is_stable_witness :
  direction (analyze_trend "heart_rate" (map Float.of_Q [0; 50; 100])
                           default_stable_threshold_pct) = stable.
Proof.
  apply (zero_start_is_stable "heart_rate" (map Float.of_Q [0; 50; 100])
           default_stable_threshold_pct).
  - cbn. lia.
  - vm_compute. reflexivity.
  - vm_compute. reflexivity.
Defined.

End TrendFacts.

(** * Properties of the routes of app.py *)

Module AppFacts.

Import Vitals Emergency App VitalsFacts EmergencyFacts EmergencyMore.
Import VitalsMore.

(** ** The readings a request carries, and where they are stored *)


Lemma NoDup_VITAL_KEYS : NoDup VITAL_KEYS.
Proof. apply (bool_decide_unpack _). vm_compute. exact I. Qed.

Lemma extract_current_elem data k v :
  (k, v) ∈ extract_current data <-> k ∈ VITAL_KEYS /\ data !! k = Some v.
Proof.
  unfold extract_current. rewrite list_elem_of_omap. split.
  - intros (x & Hx & Hf). destruct (data !! x) as [y|] eqn:E;
      cbn in Hf; [|discriminate Hf]. injection Hf as <- <-. auto.
  - intros [Hk Hv]. exists k. split; [exact Hk|]. rewrite Hv. reflexivity.
Qed.

Lemma extract_keys (data : gmap string Q) (l : list string) :
  map fst (omap (fun k => v ← data !! k; Some (k, v)) l)
  = filter (fun k => is_Some (data !! k)) l.
Proof.
  induction l as [|k l IH]; [reflexivity|].
  cbn [omap list_omap]. destruct (data !! k) as [v|] eqn:E;
    cbn [mbind option_bind map fst].
  - rewrite filter_cons_True by (rewrite E; eexists; reflexivity).
    f_equal. exact IH.
  - rewrite filter_cons_False by (rewrite E; intros [x Hx]; discriminate Hx).
    exact IH.
Qed.

Lemma extract_current_keys data :
  map fst (extract_current data)
  = filter (fun k => is_Some (data !! k)) VITAL_KEYS.
Proof. apply extract_keys. Qed.

Lemma NoDup_extract_current data : NoDup (map fst (extract_current data)).
Proof.
  rewrite extract_current_keys. apply NoDup_filter, NoDup_VITAL_KEYS.
Qed.

Lemma record_all_other ts current raw k :
  k ∉ map fst current -> record_all ts current raw !! k = raw !! k.
Proof.
  unfold record_all. revert raw.
  induction current as [|kv rest IH]; intros raw Hk; [reflexivity|].
  cbn [fold_left]. rewrite IH.
  - unfold record_reading. apply lookup_insert_ne. intros Heq. apply Hk.
    cbn [map]. rewrite Heq. left.
  - intros Hin. apply Hk. cbn [map]. right. exact Hin.
Qed.

Lemma record_all_recorded ts current raw k v :
  NoDup (map fst current) ->
  (k, v) ∈ current ->
  record_all ts current raw !! k
  = Some (last_n 200 (default [] (raw !! k)
                        ++ [{| r_timestamp := ts; r_value := v |}])).
Proof.
  unfold record_all. revert raw.
  induction current as [|kv rest IH]; intros raw Hnd Hin.
  - apply elem_of_nil in Hin. destruct Hin.
  - cbn [map] in Hnd. apply NoDup_cons in Hnd as [Hfresh Hnd].
    cbn [fold_left]. apply elem_of_cons in Hin as [<-|Hin].
    + fold (record_all ts rest (record_reading ts raw (k, v))).
      rewrite record_all_other by exact Hfresh.
      unfold record_reading. cbn [fst snd]. apply lookup_insert_eq.
    + rewrite (IH _ Hnd Hin). unfold record_reading.
      rewrite lookup_insert_ne; [reflexivity|].
      intros Heq. apply Hfresh. rewrite Heq.
      apply list_elem_of_In, in_map_iff. exists (k, v).
      split; [reflexivity|]. apply list_elem_of_In. exact Hin.
Qed.

Section RouteFacts.

Variable utcnow : nat -> Timestamp.
Variable uuid4 : nat -> string.
Variable libm_pow : Float.float -> Float.float -> Float.float.

#[local] Abbreviation trigger_emergency := (trigger_emergency utcnow uuid4).
#[local] Abbreviation auto_trigger := (auto_trigger utcnow uuid4).
#[local] Abbreviation submit_vitals :=
  (submit_vitals utcnow uuid4 libm_pow).

(** ** The automatic trigger *)

Lemma auto_trigger_eq p ts cur trs w :
  auto_trigger p ts cur trs w
  = if existsb tr_auto_emergency trs && negb (active_now p w)
    then
      match trigger_emergency p VITALS_CRITICAL (Some cur) None None None
                              None (Some ("auto_" ++ p ++ "_" ++ ts)%string)
                              w with
      | (Returned r, w') => (Returned (Some r), w')
      | (Raised x, w') => (Raised x, w')
      end
    else (Returned None, w).
Proof.
  induction trs as [|tr rest IH]; [reflexivity|].
  cbn [App.auto_trigger existsb].
  destruct (tr_auto_emergency tr); cbn [orb]; [|exact IH].
  unfold bind at 1, has_active_emergency, get_active_emergency, bind,
    _load_active, ret.
  cbn beta iota. fold (active_now p w).
  destruct (active_now p w) eqn:Ha; cbn [negb andb].
  - rewrite IH. cbn [negb]. rewrite andb_false_r. reflexivity.
  - unfold bind, ret.
    destruct (trigger_emergency _ _ _ _ _ _ _ _ w) as [[r|x] w'];
      reflexivity.
Qed.

Lemma trigger_returns p src v l ph nm ctx key w :
  exists r w', trigger_emergency p src v l ph nm ctx key w = (Returned r, w').
Proof.
  destruct (find_logged_key key (audit w)) as [a|] eqn:Hk.
  { erewrite trigger_duplicate by exact Hk. eauto. }
  destruct (active w !! p) as [e|] eqn:He.
  - destruct (is_terminal (status e)) eqn:Ht.
    + destruct (trigger_created_event utcnow uuid4 p src v l ph nm ctx key
                  w Hk) as (a & -> & _); [|eauto].
      intros e0 He0. congruence.
    + erewrite trigger_already_active by eassumption. eauto.
  - destruct (trigger_created_event utcnow uuid4 p src v l ph nm ctx key
                w Hk) as (a & -> & _); [|eauto].
    intros e0 He0. congruence.
Qed.

Lemma auto_trigger_returns p ts cur trs w :
  exists o w', auto_trigger p ts cur trs w = (Returned o, w').
Proof.
  rewrite auto_trigger_eq.
  destruct (existsb tr_auto_emergency trs && negb (active_now p w));
    [|eauto].
  destruct (trigger_returns p VITALS_CRITICAL (Some cur) None None None
              None (Some ("auto_" ++ p ++ "_" ++ ts)%string) w)
    as (r & w' & ->).
  eauto.
Qed.

(** X19.  For each request at most one automatic trigger: none when no result
    asks for an emergency or the patient has an active one; otherwise
    exactly one call of [trigger_emergency], under the key made of the
    patient and the timestamp.  When that key is logged already (the
    reading was sent before) the log entry comes back and nothing is
    created; when it is not, a pending event with the source
    VITALS_CRITICAL and the readings as snapshot is stored, and one
    entry logged. *)
Theorem auto_trigger_once p ts cur trs w :
  (existsb tr_auto_emergency trs = false \/ active_now p w = true ->
   auto_trigger p ts cur trs w = (Returned None, w))
  /\ (existsb tr_auto_emergency trs = true ->
      active_now p w = false ->
      match find_logged_key (Some ("auto_" ++ p ++ "_" ++ ts)%string)
                            (audit w) with
      | Some a =>
          auto_trigger p ts cur trs w = (Returned (Some (Duplicate a)), w)
      | None =>
          exists ev a w',
            auto_trigger p ts cur trs w
            = (Returned (Some (Created ev)), w')
            /\ active w' = <[p := ev]> (active w)
            /\ audit w' = last_n 2000 (audit w ++ [a])
            /\ event_type a = EMERGENCY_TRIGGERED
            /\ patient_id ev = p
            /\ status ev = PENDING_CONFIRMATION
            /\ trigger_source ev = VITALS_CRITICAL
            /\ vitals_snapshot ev = cur
      end).
Proof.
  rewrite auto_trigger_eq. split.
  - intros [H|H]; rewrite H; [reflexivity|].
    rewrite andb_false_r. reflexivity.
  - intros H1 H2. rewrite H1, H2. cbn [andb negb].
    destruct (find_logged_key _ (audit w)) as [a|] eqn:Hk.
    + erewrite trigger_duplicate by exact Hk. reflexivity.
    + destruct (trigger_created_event utcnow uuid4 p VITALS_CRITICAL
                  (Some cur) None None None None
                  (Some ("auto_" ++ p ++ "_" ++ ts)%string) w Hk)
        as (a & -> & Hty & _).
      { intros e He. unfold active_now in H2. rewrite He in H2.
        destruct (is_terminal (status e)); [reflexivity|discriminate H2]. }
      eexists _, a, _. split; [reflexivity|].
      split; [reflexivity|]. split; [reflexivity|]. split; [exact Hty|].
      repeat split.
Qed.

(** ** submit_vitals *)

Lemma tracked_VITAL_KEYS k : k ∈ VITAL_KEYS -> is_Some (THRESHOLDS !! k).
Proof.
  intros H. unfold VITAL_KEYS in H.
  repeat (apply elem_of_cons in H as [->|H];
          [vm_compute; eexists; reflexivity|]).
  apply elem_of_nil in H. destruct H.
Qed.

Lemma last_n_snoc {A} n (l : list A) (x : A) :
  (0 < n)%nat -> last_n n (l ++ [x]) = last_n (n - 1) l ++ [x].
Proof.
  intros Hn. unfold last_n. rewrite length_app. cbn [length].
  rewrite drop_app_le by lia. f_equal. f_equal. lia.
Qed.

Lemma all_but_last_snoc {A} (l : list A) (x : A) :
  all_but_last (l ++ [x]) = l.
Proof.
  unfold all_but_last. rewrite length_app. cbn [length].
  replace (length l + 1 - 1)%nat with (length l) by lia.
  apply take_app_length.
Qed.

Lemma Forall2_impl_l {A B} (P R : A -> B -> Prop) (Q : A -> Prop) l k :
  Forall2 P l k -> (forall x, x ∈ l -> Q x) ->
  (forall x y, Q x -> P x y -> R x y) -> Forall2 R l k.
Proof.
  intros H. induction H as [|x y l k Hxy _ IH]; intros HQ Himp;
    constructor.
  - apply Himp; [apply HQ; left|exact Hxy].
  - apply IH; [|exact Himp]. intros z Hz. apply HQ. right. exact Hz.
Qed.

(** The list [detect_outlier] is given for a vital of the request: what
    was stored before the request, at most the last 199 readings. *)
Lemma history_before ts (current : list (string * Q)) old k v :
  NoDup (map fst current) -> (k, v) ∈ current ->
  all_but_last (default [] (record_all ts current old !! k))
  = last_n 199 (default [] (old !! k)).
Proof.
  intros Hnd Hin. rewrite (record_all_recorded ts current old k v Hnd Hin).
  change (default [] (Some ?x)) with x.
  rewrite last_n_snoc by lia. apply all_but_last_snoc.
Qed.

Lemma submit_vitals_accepted role uid pid ts data st :
  role <> Some "CARETAKER" ->
  extract_current data <> [] ->
  let p := default (default "anonymous" (truthy uid)) pid in
  let current := extract_current data in
  let old := fun k => default [] (default ∅ (vitals st !! p) !! k) in
  let raw := record_all ts current (default ∅ (vitals st !! p)) in
  let trs := check_all_thresholds current in
  let trends :=
    batch_trend_analysis
      (map (fun kv : string * Q =>
              (kv.1,
               float_values (last_n 30 (default [] (raw !! kv.1)))))
           current) in
  let outlier := fun kv : string * Q =>
    detect_outlier libm_pow (Float.of_Q kv.2)
                   (float_values (last_n 199 (old kv.1)))
                   default_z_threshold in
  ((exists kv e, kv ∈ current /\ outlier kv = Float.Raises e)
   /\ submit_vitals role uid pid ts data st
      = (Error500,
         {| vitals := <[p := raw]> (vitals st);
            emergency := emergency st |}))
  \/ (exists outl o w,
         Forall2 (fun (kv : string * Q) (kr : string * OutlierResult) =>
                    kr.1 = kv.1 /\ outlier kv = Float.Returns kr.2)
                 current outl
         /\ auto_trigger p ts (list_to_map current) trs (emergency st)
            = (Returned o, w)
         /\ submit_vitals role uid pid ts data st
            = (Ok200 {| an_patient_id := p;
                        an_timestamp := ts;
                        current_vitals := current;
                        threshold_results := trs;
                        outlier_results := outl;
                        trends := trends;
                        risk_flags :=
                          generate_risk_flags (list_to_map current)
                                              trends trs;
                        emergency_event := o |},
               {| vitals := <[p := raw]> (vitals st); emergency := w |})).
Proof.
  intros Hrole Hcur p current old raw trs trends outlier.
  set (f := fun kv : string * Q =>
              r ← detect_outlier libm_pow (Float.of_Q kv.2)
                    (float_values
                       (all_but_last (default [] (raw !! kv.1))))
                    default_z_threshold;
              Float.Returns (kv.1, r)).
  assert (Hf : forall kv, kv ∈ current ->
                          f kv = (r ← outlier kv; Float.Returns (kv.1, r))).
  { intros [k v] Hkv. unfold f, outlier, raw, old. cbn [fst snd].
    rewrite (history_before ts current _ k v);
      [reflexivity | apply NoDup_extract_current | exact Hkv]. }
  assert (Hrun : submit_vitals role uid pid ts data st
                 = match mapM f current with
                   | Float.Raises _ =>
                       (Error500,
                        {| vitals := <[p := raw]> (vitals st);
                           emergency := emergency st |})
                   | Float.Returns outl =>
                       let '(outcome, w) :=
                         auto_trigger p ts (list_to_map current) trs
                                      (emergency st) in
                       match outcome with
                       | Returned o =>
                           (Ok200 {| an_patient_id := p;
                                     an_timestamp := ts;
                                     current_vitals := current;
                                     threshold_results := trs;
                                     outlier_results := outl;
                                     trends := trends;
                                     risk_flags :=
                                       generate_risk_flags
                                         (list_to_map current) trends trs;
                                     emergency_event := o |},
                            {| vitals := <[p := raw]> (vitals st);
                               emergency := w |})
                       | Raised _ =>
                           (Error500,
                            {| vitals := <[p := raw]> (vitals st);
                               emergency := w |})
                       end
                   end).
  { unfold App.submit_vitals.
    rewrite bool_decide_eq_false_2 by exact Hrole.
    subst f trends trs raw current p.
    destruct (extract_current data) as [|kv0 rest] eqn:Hc; [contradiction|].
    reflexivity. }
  rewrite Hrun. clear Hrun.
  destruct (mapM f current) as [outl|e] eqn:Hout.
  - right.
    destruct (auto_trigger_returns p ts (list_to_map current) trs
                (emergency st)) as (o & w & Hat).
    exists outl, o, w. split; [|split; [exact Hat|]].
    + apply mapM_Forall2 in Hout.
      eapply (Forall2_impl_l _ _ (fun kv => kv ∈ current));
        [exact Hout | intros kv Hkv; exact Hkv |].
      intros kv kr Hkv Hk. cbv beta in Hk. rewrite (Hf kv Hkv) in Hk.
      destruct (outlier kv) as [r|e'];
        cbn [mbind Float.Result_bind] in Hk; [|discriminate Hk].
      injection Hk as <-. split; reflexivity.
    + rewrite Hat. reflexivity.
  - left. split; [|reflexivity].
    apply mapM_raised in Hout as (kv & Hkv & Hk).
    exists kv, e. split; [exact Hkv|]. rewrite (Hf kv Hkv) in Hk.
    destruct (outlier kv) as [r|e'];
      cbn [mbind Float.Result_bind] in Hk; [discriminate Hk|].
    injection Hk as <-. reflexivity.
Qed.

(** The vitals file after a request that is not refused. *)
Lemma submit_vitals_store role uid pid ts data st :
  role <> Some "CARETAKER" ->
  extract_current data <> [] ->
  let p := default (default "anonymous" (truthy uid)) pid in
  vitals (submit_vitals role uid pid ts data st).2
  = <[p := record_all ts (extract_current data)
                      (default ∅ (vitals st !! p))]> (vitals st).
Proof.
  intros Hr Hc p.
  destruct (submit_vitals_accepted role uid pid ts data st Hr Hc)
    as [[_ ->]|(outl & o & w & _ & _ & ->)]; reflexivity.
Qed.












Lemma submit_keeps_bounded role uid pid ts data st :
  store_bounded (vitals st) ->
  store_bounded (vitals (submit_vitals role uid pid ts data st).2).
Proof.
  intros Hinv.
  destruct (decide (role = Some "CARETAKER")) as [Hr|Hr].
  { unfold App.submit_vitals. rewrite bool_decide_eq_true_2 by exact Hr.
    exact Hinv. }
  destruct (extract_current data) as [|kv0 rest] eqn:Hc.
  { unfold App.submit_vitals.
    rewrite bool_decide_eq_false_2 by exact Hr. rewrite Hc. exact Hinv. }
  rewrite (submit_vitals_store role uid pid ts data st Hr)
    by (rewrite Hc; discriminate).
  clear Hc kv0 rest.
  set (p := default (default "anonymous" (truthy uid)) pid).
  set (old := default ∅ (vitals st !! p)).
  intros q raw k h Hq Hk. unfold VitalsStore in Hq.
  destruct (decide (p = q)) as [<-|Hne];
    [|rewrite lookup_insert_ne in Hq by exact Hne;
      exact (Hinv q raw k h Hq Hk)].
  rewrite lookup_insert_eq in Hq. injection Hq as <-.
  destruct (decide (k ∈ map fst (extract_current data))) as [Hin|Hnin].
  - apply list_elem_of_In, in_map_iff in Hin as ([k' v] & Heq & Hin).
    cbn [fst] in Heq. subst k'. apply list_elem_of_In in Hin.
    rewrite (record_all_recorded ts (extract_current data) old k v)
      in Hk by (apply NoDup_extract_current || exact Hin).
    injection Hk as <-.
    apply extract_current_elem in Hin as [Hin _].
    split; [exact Hin|]. split; [|apply length_last_n].
    rewrite last_n_snoc by lia. intros Hnil.
    apply app_eq_nil in Hnil as [_ Hnil]. discriminate Hnil.
  - rewrite record_all_other in Hk by exact Hnin.
    subst old. destruct (vitals st !! p) as [raw0|] eqn:Hp.
    + exact (Hinv p raw0 k h Hp Hk).
    + cbn in Hk. rewrite lookup_empty in Hk. discriminate Hk.
Qed.

(** X24.  The vitals store stays bounded: it starts empty, and when every
    stored history is of one of the six vitals, has a reading and has at
    most 200, the same holds after any request to [submit_vitals]. *)
Theorem vitals_store_bounded :
  store_bounded ∅
  /\ forall role uid pid ts data st,
      store_bounded (vitals st) ->
      store_bounded (vitals (submit_vitals role uid pid ts data st).2).
Proof.
  split.
  - intros p raw k h Hp. exfalso. revert Hp. apply lookup_empty_Some.
  - intros role uid pid ts data st. apply submit_keeps_bounded.
Qed.

End RouteFacts.

(** ** emergency_override *)

(** X25.  [emergency_override] refuses, with 403 and no change, every role but
    caretaker and administrator; a request without a token passes this
    test.  It then answers 400 when the body names no patient, and 400
    with the message of the engine when the patient has no stored event,
    in both cases without change; otherwise the stored event, whatever
    its status, becomes CARETAKER_OVERRIDE with the caretaker of the
    body, or the word unknown, as [override_by]. *)
Theorem emergency_override_spec (utcnow : nat -> Timestamp)
        (role patient_id caretaker_id : option string) (w : World) :
  let r := emergency_override utcnow role patient_id caretaker_id w in
  let allowed :=
    role = Some "CARETAKER" \/ role = Some "ADMIN" \/ role = None in
  (~ allowed -> r = (Override403, w))
  /\ (allowed -> truthy patient_id = None ->
      r = (Override400 "patient_id required", w))
  /\ (allowed ->
      forall p, truthy patient_id = Some p ->
                match active w !! p with
                | None =>
                    r = (Override400 ("No active emergency for " ++ p), w)
                | Some e =>
                    exists e',
                      r.1 = OverrideOk e'
                      /\ active r.2 !! p = Some e'
                      /\ event_id e' = event_id e
                      /\ status e' = CARETAKER_OVERRIDE
                      /\ override_by e'
                         = Some (default "unknown" caretaker_id)
                end).
Proof.
  intros r allowed. subst r. unfold emergency_override.
  match goal with
  | |- context [negb ?b] =>
      assert (Hb : b = true <-> allowed)
        by (unfold allowed; rewrite !orb_true_iff, !bool_decide_eq_true;
            tauto);
      destruct b eqn:E
  end; cbn [negb].
  - split; [intros Hn; exfalso; apply Hn, Hb; reflexivity|].
    split.
    + intros _ ->. reflexivity.
    + intros _ p ->. destruct (active w !! p) as [e|] eqn:He.
      * destruct (override_stored utcnow p (default "unknown" caretaker_id)
                    w e He) as (a & -> & _).
        cbn [fst snd active]. eexists. split; [reflexivity|].
        split; [apply lookup_insert_eq|]. repeat split.
      * unfold caretaker_override, bind, _load_active. rewrite He.
        reflexivity.
  - split; [reflexivity|].
    split; intros Ha; apply Hb in Ha; discriminate Ha.
Qed.

(** ** get_vitals_history and analytics_summary *)

Lemma py_min_le (x : Q) (rest : list Q) :
  py_min x rest <= x /\ forall v, v ∈ rest -> py_min x rest <= v.
Proof.
  unfold py_min. revert x. induction rest as [|a r IH]; intros x.
  - split; [cbn; lra|]. intros v Hv. apply elem_of_nil in Hv. destruct Hv.
  - cbn [fold_left]. destruct (Num.ltb a x) eqn:E.
    + apply ltb_lt in E. destruct (IH a) as [H1 H2]. split; [lra|].
      intros v Hv. apply elem_of_cons in Hv as [->|Hv]; [exact H1|auto].
    + apply ltb_nlt in E. destruct (IH x) as [H1 H2]. split; [exact H1|].
      intros v Hv. apply elem_of_cons in Hv as [->|Hv]; [lra|auto].
Qed.

Lemma py_max_ge (x : Q) (rest : list Q) :
  x <= py_max x rest /\ forall v, v ∈ rest -> v <= py_max x rest.
Proof.
  unfold py_max. revert x. induction rest as [|a r IH]; intros x.
  - split; [cbn; lra|]. intros v Hv. apply elem_of_nil in Hv. destruct Hv.
  - cbn [fold_left]. destruct (Num.ltb x a) eqn:E.
    + apply ltb_lt in E. destruct (IH a) as [H1 H2]. split; [lra|].
      intros v Hv. apply elem_of_cons in Hv as [->|Hv]; [exact H1|auto].
    + apply ltb_nlt in E. destruct (IH x) as [H1 H2]. split; [exact H1|].
      intros v Hv. apply elem_of_cons in Hv as [->|Hv]; [lra|auto].
Qed.

Lemma min_max_bound (x : Q) (rest : list Q) (v : Q) :
  v ∈ x :: rest -> py_min x rest <= v /\ v <= py_max x rest.
Proof.
  intros Hv. destruct (py_min_le x rest) as [H1 H2].
  destruct (py_max_ge x rest) as [H3 H4].
  apply elem_of_cons in Hv as [->|Hv]; split; auto.
Qed.

(** The values of a window of [n] readings over a history that ends
    with the reading [x]. *)
Lemma window_values (n : nat) (h : list Reading) (x : Reading) :
  (0 < n)%nat ->
  values (last_n n (h ++ [x]))
  = values (last_n (n - 1) h) ++ [r_value x].
Proof.
  intros Hn. rewrite last_n_snoc by exact Hn. unfold values.
  rewrite map_app. reflexivity.
Qed.

Lemma length_window (n : nat) (h : list Reading) :
  length (values (last_n n h)) = Nat.min n (length h).
Proof. unfold values, last_n. rewrite length_map, length_drop. lia. Qed.

Lemma snoc_cases {A} (l : list A) : l = [] \/ exists l' x, l = l' ++ [x].
Proof.
  induction l as [|x l _] using rev_ind; [left; reflexivity|].
  right. exists l, x. reflexivity.
Qed.

(** X26.  [get_vitals_history] always answers 200: the smoothing, with its
    window of 3, never fails.  For every metric stored the answer has a
    smoothed list as long as the history; and a summary exactly when the
    history has a reading, whose latest value is that of the last
    reading, between the minimum and the maximum reported, and whose
    trend is that of the last 24 readings. *)
Theorem get_vitals_history_spec (patient_id : string)
        (store : VitalsStore) :
  exists body,
    get_vitals_history patient_id store = Some body
    /\ h_raw body = default ∅ (store !! patient_id)
    /\ forall k,
        match h_raw body !! k with
        | None => h_smoothed body !! k = None /\ h_summary body !! k = None
        | Some h =>
            (exists sl, h_smoothed body !! k = Some sl
                        /\ length sl = length h)
            /\ (h = [] -> h_summary body !! k = None)
            /\ (h <> [] ->
                exists s,
                  h_summary body !! k = Some s
                  /\ last (values h) = Some (latest s)
                  /\ s_min s <= latest s /\ latest s <= s_max s
                  /\ s_trend s
                     = analyze_trend k (float_values (last_n 24 h))
                                     default_stable_threshold_pct)
        end.
Proof.
  unfold get_vitals_history.
  set (raw := default ∅ (store !! patient_id)).
  rewrite bool_decide_eq_true_2.
  - eexists. split; [reflexivity|]. cbn [h_raw h_smoothed h_summary].
    split; [reflexivity|]. intros k.
    rewrite lookup_omap, lookup_fmap, map_lookup_imap.
    destruct (raw !! k) as [h|] eqn:Hk; cbn [fmap option_fmap option_map
                                             mbind option_bind];
      [|split; reflexivity].
    split; [|split].
    + destruct (smooth_readings_returns (float_values h) 3)
        as (sl & -> & Hl); [lia|].
      exists sl. split; [reflexivity|]. rewrite Hl.
      unfold float_values, values. rewrite !length_map. reflexivity.
    + intros ->. reflexivity.
    + intros Hne. destruct (snoc_cases h) as [->|(h' & x & ->)];
        [contradiction|].
      unfold summary_of. rewrite window_values by lia.
      destruct (values (last_n (24 - 1) h') ++ [r_value x])
        as [|y ys] eqn:Hv.
      { apply app_eq_nil in Hv as [_ Hv]. discriminate Hv. }
      eexists. split; [reflexivity|]. cbn [latest s_min s_max s_trend].
      rewrite <- Hv. rewrite List.last_last.
      split; [unfold values; rewrite map_app; apply last_snoc|].
      assert (Hin : r_value x ∈ y :: ys).
      { rewrite <- Hv. apply elem_of_app. right. left. }
      destruct (min_max_bound y ys (r_value x) Hin) as [H1 H2].
      split; [exact H1|]. split; [exact H2|].
      reflexivity.
  - apply map_Forall_lookup. intros k o Ho.
    rewrite lookup_fmap in Ho. destruct (raw !! k) as [h|];
      cbn in Ho; [|discriminate Ho]. injection Ho as <-.
    destruct (smooth_readings_returns (float_values h) 3)
      as (sl & -> & _); [lia|]. eexists. reflexivity.
Qed.

(** X27.  On a bounded store [analytics_summary] reports every stored metric
    of the patient and nothing else.  The count of a metric is the
    smaller of the window of the period and the length of its history,
    so between 1 and 200; the monthly window of 240 always takes the
    whole history.  The latest value is that of the last reading, lies
    between the minimum and the maximum reported, and the threshold
    status is the verdict on it. *)
Theorem analytics_summary_spec (period : option string)
        (patient_id : string) (store : VitalsStore) :
  store_bounded store ->
  let per := default "weekly" period in
  let raw := default ∅ (store !! patient_id) in
  (analytics_summary period patient_id store).1 = per
  /\ forall k,
      match raw !! k with
      | None => (analytics_summary period patient_id store).2 !! k = None
      | Some h =>
          exists a,
            (analytics_summary period patient_id store).2 !! k = Some a
            /\ ma_period a = per
            /\ reading_count a = Nat.min (analytics_window per) (length h)
            /\ (1 <= reading_count a <= 200)%nat
            /\ (per = "monthly" -> reading_count a = length h)
            /\ last (values h) = Some (ma_latest a)
            /\ ma_min a <= ma_latest a /\ ma_latest a <= ma_max a
            /\ exists r, threshold_status a = Some r
                         /\ tr_metric r = k
                         /\ tr_value r = ma_latest a
      end.
Proof.
  intros Hinv per raw. unfold analytics_summary. cbn [fst snd].
  fold per. fold raw. split; [reflexivity|]. intros k.
  rewrite map_lookup_imap.
  destruct (raw !! k) as [h|] eqn:Hk; cbn [mbind option_bind];
    [|reflexivity].
  assert (Hb : k ∈ VITAL_KEYS /\ h <> [] /\ (length h <= 200)%nat).
  { subst raw. destruct (store !! patient_id) as [raw0|] eqn:Hp.
    - exact (Hinv patient_id raw0 k h Hp Hk).
    - cbn in Hk. rewrite lookup_empty in Hk. discriminate Hk. }
  destruct Hb as (Hkey & Hne & Hlen).
  assert (Hw : (0 < analytics_window per)%nat).
  { unfold analytics_window.
    repeat (destruct (String.eqb per _); [lia|]). lia. }
  pose proof (length_window (analytics_window per) h) as Hcount.
  destruct (snoc_cases h) as [->|(h' & x & ->)]; [contradiction|].
  unfold analytics_of. rewrite window_values in Hcount |- * by exact Hw.
  destruct (values (last_n (analytics_window per - 1) h') ++ [r_value x])
    as [|y ys] eqn:Hv.
  { apply app_eq_nil in Hv as [_ Hv]. discriminate Hv. }
  eexists. split; [reflexivity|].
  cbn [ma_period reading_count ma_min ma_max ma_latest threshold_status].
  rewrite <- Hv in Hcount. rewrite <- Hv, List.last_last.
  split; [reflexivity|]. split; [exact Hcount|].
  rewrite Hcount. rewrite length_app in Hlen |- *. cbn [length] in Hlen |- *.
  split; [lia|]. split.
  { intros Hm. rewrite Hm.
    change (analytics_window "monthly") with 240%nat. lia. }
  split; [unfold values; rewrite map_app; apply last_snoc|].
  assert (Hin : r_value x ∈ y :: ys).
  { rewrite <- Hv. apply elem_of_app. right. left. }
  destruct (min_max_bound y ys (r_value x) Hin) as [H1 H2].
  split; [exact H1|]. split; [exact H2|].
  destruct (tracked_VITAL_KEYS k Hkey) as [t Ht].
  destruct (check_threshold_some k (r_value x) t Ht)
    as (r & Hr & Hm & Hval & _).
  exists r. split; [exact Hr|]. split; assumption.
Qed.

(** ** The properties on the demo run *)

Lemma auto_trigger_once_witness :
  exists tr,
    check_threshold "heart_rate" 160 = Some tr
    /\ auto_trigger Emergency.Demo.utcnow Emergency.Demo.uuid4
         "p1" "t1" Demo.data [tr; tr] Emergency.Demo.triggered_once
       = (Returned None, Emergency.Demo.triggered_once).
Proof.
  eexists. split; [vm_compute; reflexivity|].
  apply (auto_trigger_once Emergency.Demo.utcnow Emergency.Demo.uuid4).
  right. vm_compute. reflexivity.
Defined.






Lemma emergency_override_spec_witness :
  emergency_override Emergency.Demo.utcnow (Some "PATIENT") (Some "p1")
                     None Emergency.Demo.triggered_once
  = (Override403, Emergency.Demo.triggered_once)
  /\ emergency_override Emergency.Demo.utcnow None (Some "p2") None
                        Emergency.Demo.triggered_once
     = (Override400 "No active emergency for p2",
        Emergency.Demo.triggered_once).
Proof.
  destruct (emergency_override_spec Emergency.Demo.utcnow (Some "PATIENT")
              (Some "p1") None Emergency.Demo.triggered_once)
    as (H403 & _).
  destruct (emergency_override_spec Emergency.Demo.utcnow None
              (Some "p2") None Emergency.Demo.triggered_once)
    as (_ & _ & H400).
  split.
  - apply H403. intros [H|[H|H]]; discriminate H.
  - apply (H400 (or_intror (or_intror eq_refl)) "p2" eq_refl).
Defined.

Lemma vitals_store_bounded_witness :
  store_bounded (vitals Demo.after_first).
Proof.
  destruct (vitals_store_bounded Emergency.Demo.utcnow
              Emergency.Demo.uuid4 Float.square_pow) as [H0 Hstep].
  apply (Hstep (Some "PATIENT") (Some "p1") None "t1" Demo.data
               Demo.start).
  exact H0.
Defined.

Lemma analytics_summary_spec_witness :
  exists a,
    (analytics_summary (Some "monthly") "p1"
                       (vitals Demo.after_first)).2 !! "heart_rate"
    = Some a
    /\ reading_count a = 1%nat.
Proof.
  destruct (analytics_summary_spec (Some "monthly") "p1"
              (vitals Demo.after_first)) as [_ H].
  - apply (submit_keeps_bounded Emergency.Demo.utcnow
             Emergency.Demo.uuid4 Float.square_pow (Some "PATIENT") (Some "p1")
             None "t1" Demo.data Demo.start).
    intros p raw k h Hp. exfalso. revert Hp. apply lookup_empty_Some.
  - specialize (H "heart_rate").
    assert (Hk : default ∅ (vitals Demo.after_first !! "p1")
                   !! "heart_rate"
                 = Some [{| r_timestamp := "t1"; r_value := 160 |}])
      by (vm_compute; reflexivity).
    rewrite Hk in H. destruct H as (a & Ha & _ & Hc & _).
    exists a. split; [exact Ha|]. rewrite Hc. reflexivity.
Defined.

End AppFacts.

(** * Properties of the permission table *)

Module RbacFacts.

Import Rbac.

Lemma permissions_patient :
  ROLE_PERMISSIONS !! "PATIENT"
  = Some (list_to_set [
            "read_own_vitals"; "write_vitals"; "upload_report";
            "read_own_report"; "trigger_emergency"; "read_own_profile";
            "write_own_profile" ]).
Proof. reflexivity. Qed.

Lemma permissions_caretaker :
  ROLE_PERMISSIONS !! "CARETAKER"
  = Some (list_to_set [
            "read_patient_vitals"; "read_patient_report";
            "read_patient_profile"; "acknowledge_emergency";
            "override_emergency"; "read_analytics" ]).
Proof. reflexivity. Qed.

Lemma permissions_admin :
  ROLE_PERMISSIONS !! "ADMIN"
  = Some (list_to_set [
            "read_own_vitals"; "write_vitals"; "upload_report";
            "read_own_report"; "trigger_emergency"; "read_own_profile";
            "write_own_profile"; "read_patient_vitals";
            "read_patient_report"; "read_patient_profile";
            "acknowledge_emergency"; "override_emergency";
            "read_analytics"; "read_audit_logs"; "manage_users" ]).
Proof. reflexivity. Qed.

Ltac member :=
  apply elem_of_list_to_set;
  repeat first [apply list_elem_of_here | apply list_elem_of_further].

(** X28.  The administrator has every permission a patient or a caretaker has;
    a patient and a caretaker share no permission, so a caretaker never
    has [write_vitals]; and a role that is not one of the three valid
    roles has no permission at all. *)
Theorem role_permissions_layered (permission : string) :
  (has_permission "PATIENT" permission = true
   \/ has_permission "CARETAKER" permission = true ->
   has_permission "ADMIN" permission = true)
  /\ ~ (has_permission "PATIENT" permission = true
        /\ has_permission "CARETAKER" permission = true)
  /\ (forall role, role ∉ VALID_ROLES ->
                   has_permission role permission = false).
Proof.
  unfold has_permission.
  rewrite permissions_patient, permissions_caretaker, permissions_admin.
  cbn [default from_option id].
  rewrite !bool_decide_eq_true. split; [|split].
  - intros [H|H]; apply elem_of_list_to_set in H;
      repeat (apply elem_of_cons in H as [->|H]; [member|]);
      apply elem_of_nil in H; destruct H.
  - intros [H1 H2]. apply elem_of_list_to_set in H1, H2.
    repeat (apply elem_of_cons in H1 as [->|H1];
            [repeat (apply elem_of_cons in H2 as [H2|H2];
                     [discriminate H2|]);
             apply elem_of_nil in H2; destruct H2|]).
    apply elem_of_nil in H1. destruct H1.
  - intros role Hrole. apply bool_decide_eq_false_2.
    assert (Hnone : ROLE_PERMISSIONS !! role = None).
    { apply not_elem_of_list_to_map_1. cbn [fmap list_fmap fst].
      intros Hin. apply Hrole. unfold VALID_ROLES.
      repeat (apply elem_of_cons in Hin as [->|Hin];
              [set_solver|]).
      apply elem_of_nil in Hin. destruct Hin. }
    rewrite Hnone. cbn. apply not_elem_of_empty.
Qed.

Lemma role_permissions_layered_witness :
  has_permission "ADMIN" "write_vitals" = true
  /\ has_permission "NURSE" "write_vitals" = false.
Proof.
  split.
  - apply (role_permissions_layered "write_vitals"). left. reflexivity.
  - apply (role_permissions_layered "write_vitals").
    unfold VALID_ROLES. intros H.
    apply elem_of_union in H as [H|H];
      [apply elem_of_union in H as [H|H]|];
      apply elem_of_singleton in H; discriminate H.
Defined.

End RbacFacts.
